(** * resume_parser.py and api.py: a shallow embedding and its verified properties

    The development follows [src/resume_parser.py] and [src/api.py]:
    - Python [str] values are lists of Unicode code points;
    - the string methods the code calls ([splitlines], [strip], [split],
      [title], [lower], [isupper], [join]) are executable functions;
    - the [re] module is a backtracking matcher over a regex syntax tree, with
      the ordered alternation, greedy and lazy repetition, groups, lookaround
      and flags of Python's engine;
    - what Python reads in the Unicode character database (which characters
      are digits, alphanumeric, upper case, cased, and the lower-case and
      title-case mappings) is computed for ASCII and taken from a parameter
      [U] beyond it, so every property holds whatever the tables say;
    - Python values ([None], strings, lists, insertion-ordered dicts) form the
      type [pyval];
    - exceptions are explicit: fallible primitives return [exc], and every
      [try]/[except] of the source is a [match] on the outcome. *)

From Stdlib Require Import String Ascii List NArith Arith Bool Lia Permutation Sorted.
Import ListNotations.

Set Implicit Arguments.

(* ================================================================== *)
(** * Characters and strings *)
(* ================================================================== *)

(** A character is a Unicode code point, a [str] is a sequence of them, so
    [length] is Python's [len] and indexing is by code point. *)
Definition char := N.
Definition str := list char.

Definition ch (a : ascii) : char := N_of_ascii a.

(** Source literals are written as Rocq strings (UTF-8 bytes) and decoded to
    code points; the escapes [\n], [\r], [\t] and [\\] are read as Python reads
    them in a non-raw literal. *)
Fixpoint u (s : string) : str :=
  match s with
  | EmptyString => []
  | String a s1 =>
      let b := N_of_ascii a in
      if (b =? 92)%N then
        match s1 with
        | String e s2 =>
            let c := N_of_ascii e in
            if (c =? 110)%N then 10%N :: u s2
            else if (c =? 116)%N then 9%N :: u s2
            else if (c =? 114)%N then 13%N :: u s2
            else if (c =? 92)%N then 92%N :: u s2
            else b :: u s1
        | EmptyString => [b]
        end
      else if (b <? 128)%N then b :: u s1
      else if (b <? 224)%N then
        match s1 with
        | String a2 s2 => ((b - 192) * 64 + (N_of_ascii a2 - 128))%N :: u s2
        | EmptyString => [b]
        end
      else if (b <? 240)%N then
        match s1 with
        | String a2 (String a3 s3) =>
            ((b - 224) * 4096 + (N_of_ascii a2 - 128) * 64
             + (N_of_ascii a3 - 128))%N :: u s3
        | _ => [b]
        end
      else
        match s1 with
        | String a2 (String a3 (String a4 s4)) =>
            ((b - 240) * 262144 + (N_of_ascii a2 - 128) * 4096
             + (N_of_ascii a3 - 128) * 64 + (N_of_ascii a4 - 128))%N :: u s4
        | _ => [b]
        end
  end.

Definition NL : char := 10%N.
Definition CR : char := 13%N.
Definition BULLET : char := 8226%N.      (* U+2022 *)
Definition EN_DASH : char := 8211%N.     (* U+2013 *)
Definition EM_DASH : char := 8212%N.     (* U+2014 *)

(** ** Character classes

    Whitespace and line boundaries are the full Unicode sets CPython uses. *)

Section CharClasses.
Local Open Scope N_scope.

Definition between (lo hi c : char) : bool := (lo <=? c) && (c <=? hi).

(** [str.isspace] on one character, also [\s] of [re]. *)
Definition is_space (c : char) : bool :=
  between 9 13 c || between 28 32 c || (c =? 133)%N || (c =? 160)%N
  || (c =? 5760)%N || between 8192 8202 c || (c =? 8232)%N || (c =? 8233)%N
  || (c =? 8239)%N || (c =? 8287)%N || (c =? 12288)%N.

(** The line boundaries of [str.splitlines]. *)
Definition is_linebreak (c : char) : bool :=
  between 10 13 c || between 28 30 c || (c =? 133)%N
  || (c =? 8232)%N || (c =? 8233)%N.

(** The ASCII letters and their other case: what the letters written in a
    pattern are, and what IGNORECASE folds them with. *)
Definition is_ascii (c : char) : bool := c <? 128.
Definition is_ascii_upper (c : char) : bool := between 65 90 c.
Definition is_ascii_lower (c : char) : bool := between 97 122 c.
Definition is_ascii_alpha (c : char) : bool := is_ascii_upper c || is_ascii_lower c.
Definition ascii_to_lower (c : char) : char := if is_ascii_upper c then (c + 32)%N else c.
Definition ascii_to_upper (c : char) : char := if is_ascii_lower c then (c - 32)%N else c.

End CharClasses.

(** ** The Unicode character database

    The properties and case mappings of characters, as CPython's
    [unicodectype] tables give them. The model computes them for the
    characters of [is_tabled] and asks [U] for the rest; a case mapping
    yields one character or more. *)
Record unicode := {
  uni_upper : char -> bool;            (* Uppercase: [isupper] *)
  uni_decimal : char -> bool;          (* decimal digit: [\d] *)
  uni_alnum : char -> bool;            (* [isalnum]: [\w] besides the underscore *)
  uni_cased : char -> bool;            (* Cased *)
  uni_case_ignorable : char -> bool;   (* Case_Ignorable *)
  uni_lower : char -> char * str;      (* full lower-case mapping *)
  uni_title : char -> char * str       (* full title-case mapping *)
}.

(** An excerpt of the database, to run the code on examples: beyond the
    tabled characters it has the rows of the letters É (201), Ï (207),
    é (233) and ï (239), of the fullwidth digits (65296 to 65305) and of the
    ideographs 开 (24320), 发 (21457), 绩 (32489) and 点 (28857), and takes any
    other character for an uncased symbol. *)
Definition UNICODE_EXCERPT : unicode :=
  let accented c := ((c =? 201) || (c =? 207) || (c =? 233) || (c =? 239))%N in
  let ideograph c :=
    ((c =? 24320) || (c =? 21457) || (c =? 32489) || (c =? 28857))%N in
  let fullwidth_digit c := ((65296 <=? c) && (c <=? 65305))%N in
  {| uni_upper := fun c => ((c =? 201) || (c =? 207))%N;
     uni_decimal := fullwidth_digit;
     uni_alnum := fun c => accented c || ideograph c || fullwidth_digit c;
     uni_cased := accented;
     uni_case_ignorable := fun _ => false;
     uni_lower := fun c =>
       (if ((c =? 201) || (c =? 207))%N then (c + 32)%N else c, []);
     uni_title := fun c =>
       (if ((c =? 233) || (c =? 239))%N then (c - 32)%N else c, []) |}.

(** The characters whose properties are computed: ASCII, and the four
    punctuation marks the source writes (en dash, em dash, bullet, asterisk
    operator), which are no digits or letters, have no case and are not
    ignored by case. *)
Definition is_tabled (c : char) : bool :=
  is_ascii c || (c =? 8211)%N || (c =? 8212)%N || (c =? 8226)%N || (c =? 8727)%N.

Section Unicode.

Variable U : unicode.

(** [\d] of [re] on [str]: a decimal digit of any script. *)
Definition is_digit (c : char) : bool :=
  if is_tabled c then between 48%N 57%N c else uni_decimal U c.

(** [str.isalnum] on one character. *)
Definition is_alnum (c : char) : bool :=
  if is_tabled c then is_ascii_alpha c || between 48%N 57%N c else uni_alnum U c.

(** [\w]: alphanumeric or underscore. *)
Definition is_word (c : char) : bool := is_alnum c || (c =? 95)%N.

(** [str.isupper] on one character. *)
Definition isupper (c : char) : bool :=
  if is_tabled c then is_ascii_upper c else uni_upper U c.

(** The properties Cased and Case_Ignorable. The ASCII characters that case
    ignores are the apostrophe, full stop, colon, circumflex and grave
    accent. *)
Definition is_cased (c : char) : bool :=
  if is_tabled c then is_ascii_alpha c else uni_cased U c.

Definition is_case_ignorable (c : char) : bool :=
  if is_tabled c
  then (c =? 39)%N || (c =? 46)%N || (c =? 58)%N || (c =? 94)%N || (c =? 96)%N
  else uni_case_ignorable U c.

(** The full case mappings of one character. *)
Definition to_lower_full (c : char) : str :=
  if is_tabled c then [ascii_to_lower c]
  else fst (uni_lower U c) :: snd (uni_lower U c).

Definition to_title_full (c : char) : str :=
  if is_tabled c then [ascii_to_upper c]
  else fst (uni_title U c) :: snd (uni_title U c).

(** ** String methods *)

Fixpoint dropwhile (p : char -> bool) (s : str) : str :=
  match s with
  | [] => []
  | c :: s' => if p c then dropwhile p s' else s
  end.

Definition lstrip_by (p : char -> bool) (s : str) : str := dropwhile p s.
Definition rstrip_by (p : char -> bool) (s : str) : str :=
  rev (dropwhile p (rev s)).
Definition strip_by (p : char -> bool) (s : str) : str :=
  rstrip_by p (lstrip_by p s).

Definition mem (c : char) (cs : str) : bool := existsb (N.eqb c) cs.

(** [s.strip()] and [s.strip(chars)]. *)
Definition strip (s : str) : str := strip_by is_space s.
Definition strip_chars (chars s : str) : str := strip_by (fun c => mem c chars) s.

(** [s.splitlines()]: [cur] is the line being read, reversed. A carriage
    return followed by a line feed is one boundary; there is no empty last
    line after a final boundary. *)
Fixpoint splitlines_from (cur : str) (s : str) : list str :=
  match s with
  | [] => match cur with [] => [] | _ => [rev cur] end
  | c :: rest =>
      if is_linebreak c then
        rev cur ::
        match rest with
        | d :: rest' =>
            if ((c =? CR) && (d =? NL))%N then splitlines_from [] rest'
            else splitlines_from [] rest
        | [] => splitlines_from [] rest
        end
      else splitlines_from (c :: cur) rest
  end.

Definition splitlines (s : str) : list str := splitlines_from [] s.

(** [s.split()]: maximal runs of non-whitespace. *)
Fixpoint split_ws_from (cur : str) (s : str) : list str :=
  match s with
  | [] => match cur with [] => [] | _ => [rev cur] end
  | c :: rest =>
      if is_space c then
        match cur with
        | [] => split_ws_from [] rest
        | _ => rev cur :: split_ws_from [] rest
        end
      else split_ws_from (c :: cur) rest
  end.

Definition split_ws (s : str) : list str := split_ws_from [] s.

(** [s.split(sep, 1)] for a one-character separator: one piece when [sep]
    does not occur, otherwise the text before and after its first
    occurrence. *)
Fixpoint split1_from (sep : char) (cur : str) (s : str) : list str :=
  match s with
  | [] => [rev cur]
  | c :: rest =>
      if (c =? sep)%N then [rev cur; rest] else split1_from sep (c :: cur) rest
  end.

Definition split1 (sep : char) (s : str) : list str := split1_from sep [] s.

(** [sep.join(parts)]. *)
Fixpoint join (sep : str) (parts : list str) : str :=
  match parts with
  | [] => []
  | [p] => p
  | p :: ps => p ++ sep ++ join sep ps
  end.

(** Whether a capital sigma stands in final position: after a cased
    character and not before one, characters that case ignores skipped.
    [before] is the text before it, reversed. *)
Definition final_sigma (before after : str) : bool :=
  match find (fun c => negb (is_case_ignorable c)) before with
  | Some c => is_cased c
  | None => false
  end
  && match find (fun c => negb (is_case_ignorable c)) after with
     | Some c => negb (is_cased c)
     | None => true
     end.

(** The lower-case form of the character [c] between [before] (reversed) and
    [after]: the capital sigma (U+03A3) becomes the final or the medial small
    sigma, every other character its full lower-case mapping. *)
Definition lower_char (before : str) (c : char) (after : str) : str :=
  if (c =? 931)%N
  then [if final_sigma before after then 962%N else 963%N]
  else to_lower_full c.

(** [s.lower()] *)
Fixpoint lower_from (before : str) (s : str) : str :=
  match s with
  | [] => []
  | c :: rest => lower_char before c rest ++ lower_from (c :: before) rest
  end.

Definition lower (s : str) : str := lower_from [] s.

(** [s.title()]: a character is lower-cased when the character before it is
    cased and title-cased when it is not. *)
Fixpoint title_from (prev_cased : bool) (before : str) (s : str) : str :=
  match s with
  | [] => []
  | c :: rest =>
      (if prev_cased then lower_char before c rest else to_title_full c)
      ++ title_from (is_cased c) (c :: before) rest
  end.

Definition title (s : str) : str := title_from false [] s.

(** Comparison of strings by code point, the order of [sorted]. *)
Fixpoint str_eqb (a b : str) : bool :=
  match a, b with
  | [], [] => true
  | x :: a', y :: b' => (x =? y)%N && str_eqb a' b'
  | _, _ => false
  end.

Fixpoint str_ltb (a b : str) : bool :=
  match a, b with
  | _, [] => false
  | [], _ :: _ => true
  | x :: a', y :: b' => (x <? y)%N || ((x =? y)%N && str_ltb a' b')
  end.

Definition str_leb (a b : str) : bool := negb (str_ltb b a).

Definition nonempty {A} (l : list A) : bool :=
  match l with [] => false | _ => true end.

(** The comprehension [[l.strip() for l in s.splitlines() if l.strip()]]. *)
Definition stripped_lines (s : str) : list str :=
  map strip (filter (fun l => nonempty (strip l)) (splitlines s)).

(* ================================================================== *)
(** * Regular expressions: the part of [re] the parser uses *)
(* ================================================================== *)

(** An item of a bracket expression. *)
Inductive citem :=
| CChar (c : char)
| CRange (lo hi : char)
| CSpace                      (* \s *)
| CDigit.                     (* \d *)

Inductive regex :=
| Eps
| Lit (c : char)
| Cls (neg : bool) (items : list citem)       (* [...] and [^...] *)
| Dot
| Cat (a b : regex)
| Alt (a b : regex)                           (* a|b, [a] tried first *)
| Rep (greedy : bool) (lo : nat) (hi : option nat) (a : regex)
| Grp (n : nat) (a : regex)                   (* capturing group number n *)
| Ahead (a : regex)                           (* (?=a) *)
| BehindCls (items : list citem)              (* (?<=[...]) *)
| WordB                                       (* \b *)
| Eos.                                        (* $ without re.M *)

(** The flags [re.I] and [re.S]. *)
Record flags := { icase : bool; dotall : bool }.

Definition NOFLAGS := {| icase := false; dotall := false |}.
Definition RE_I := {| icase := true; dotall := false |}.
Definition RE_S_I := {| icase := true; dotall := true |}.

(** The characters that IGNORECASE identifies with [c]: its other ASCII case
    and, for the dotted and dotless i, the long s and the Kelvin sign, the
    ASCII letters they fold to. *)
Definition case_variants (c : char) : list char :=
  if is_ascii_upper c then [c; ascii_to_lower c]
  else if is_ascii_lower c then [c; ascii_to_upper c]
  else if ((c =? 304) || (c =? 305))%N then [c; 105%N; 73%N]
  else if (c =? 383)%N then [c; 115%N; 83%N]
  else if (c =? 8490)%N then [c; 107%N; 75%N]
  else [c].

Definition citem_in (x : char) (it : citem) : bool :=
  match it with
  | CChar c => (x =? c)%N
  | CRange lo hi => between lo hi x
  | CSpace => is_space x
  | CDigit => is_digit x
  end.

Definition in_items (fl : flags) (items : list citem) (x : char) : bool :=
  if icase fl
  then existsb (fun y => existsb (citem_in y) items) (case_variants x)
  else existsb (citem_in x) items.

Definition cls_match (fl : flags) (neg : bool) (items : list citem) (x : char) : bool :=
  xorb neg (in_items fl items x).

Definition lit_match (fl : flags) (c x : char) : bool :=
  if icase fl then existsb (N.eqb c) (case_variants x) else (x =? c)%N.

Definition dot_match (fl : flags) (x : char) : bool :=
  dotall fl || negb (x =? NL)%N.

(** The matcher's state: the position in the subject, the character before
    it, the text from it on, and the groups captured so far. *)
Record mstate := {
  m_pos : nat;
  m_prev : option char;
  m_rest : str;
  m_caps : list (nat * str)
}.

Definition eat (x : char) (rest : str) (s : mstate) : mstate :=
  {| m_pos := S (m_pos s); m_prev := Some x; m_rest := rest; m_caps := m_caps s |}.

Definition set_cap (n : nat) (txt : str) (s : mstate) : mstate :=
  {| m_pos := m_pos s; m_prev := m_prev s; m_rest := m_rest s;
     m_caps := (n, txt) :: m_caps s |}.

Definition with_caps (caps : list (nat * str)) (s : mstate) : mstate :=
  {| m_pos := m_pos s; m_prev := m_prev s; m_rest := m_rest s; m_caps := caps |}.

Definition word_opt (o : option char) : bool :=
  match o with Some c => is_word c | None => false end.

Definition below (cnt : nat) (hi : option nat) : bool :=
  match hi with Some h => cnt <? h | None => true end.

(** The rounds of a repetition whose body is matched by [step]: one more
    round is tried before stopping when greedy and after it when lazy. A
    round has to consume a character (every repeated pattern of this program
    does), so [fuel], the length of the text left when the repetition
    starts, bounds the number of rounds. *)
Fixpoint rep_rounds (step : (mstate -> option mstate) -> mstate -> option mstate)
    (greedy : bool) (lo : nat) (hi : option nat) (k : mstate -> option mstate)
    (fuel cnt : nat) (s : mstate) {struct fuel} : option mstate :=
  let more (_ : unit) :=
    match fuel with
    | 0 => None
    | S fuel' =>
        if below cnt hi
        then step (fun s' => if m_pos s <? m_pos s'
                             then rep_rounds step greedy lo hi k fuel' (S cnt) s'
                             else None) s
        else None
    end in
  let stop (_ : unit) := if lo <=? cnt then k s else None in
  if greedy
  then match more tt with Some e => Some e | None => stop tt end
  else match stop tt with Some e => Some e | None => more tt end.

(** [rmatch fl r k s] matches [r] at [s] and hands each way of matching it, in
    Python's priority order, to the continuation [k] until one succeeds. *)
Fixpoint rmatch (fl : flags) (r : regex) (k : mstate -> option mstate)
    (s : mstate) {struct r} : option mstate :=
  match r with
  | Eps => k s
  | Lit c =>
      match m_rest s with
      | x :: rest => if lit_match fl c x then k (eat x rest s) else None
      | [] => None
      end
  | Cls neg items =>
      match m_rest s with
      | x :: rest => if cls_match fl neg items x then k (eat x rest s) else None
      | [] => None
      end
  | Dot =>
      match m_rest s with
      | x :: rest => if dot_match fl x then k (eat x rest s) else None
      | [] => None
      end
  | Cat a b => rmatch fl a (rmatch fl b k) s
  | Alt a b =>
      match rmatch fl a k s with
      | Some e => Some e
      | None => rmatch fl b k s
      end
  | Rep greedy lo hi a =>
      rep_rounds (rmatch fl a) greedy lo hi k (length (m_rest s)) 0 s
  | Grp n a =>
      rmatch fl a
        (fun s' => k (set_cap n (firstn (m_pos s' - m_pos s) (m_rest s)) s')) s
  | Ahead a =>
      match rmatch fl a Some s with
      | Some e => k (with_caps (m_caps e) s)
      | None => None
      end
  | BehindCls items =>
      match m_prev s with
      | Some p => if cls_match fl false items p then k s else None
      | None => None
      end
  | WordB =>
      if xorb (word_opt (m_prev s)) (word_opt (hd_error (m_rest s)))
      then k s else None
  | Eos =>
      match m_rest s with
      | [] => k s
      | [x] => if (x =? NL)%N then k s else None
      | _ => None
      end
  end.

(** A match object: its span, [group(0)] and the captured groups. *)
Record rmatched := {
  mt_start : nat;
  mt_end : nat;
  mt_text : str;
  mt_caps : list (nat * str)
}.

Fixpoint cap_lookup (n : nat) (caps : list (nat * str)) : option str :=
  match caps with
  | [] => None
  | (i, t) :: caps' => if i =? n then Some t else cap_lookup n caps'
  end.

(** [m.group(n)] for [n >= 1]: [None] when the group took no part. *)
Definition group (n : nat) (m : rmatched) : option str := cap_lookup n (mt_caps m).
Definition group0 (m : rmatched) : str := mt_text m.

Definition match_here (fl : flags) (r : regex) (pos : nat) (prev : option char)
    (rest : str) : option rmatched :=
  match rmatch fl r Some
          {| m_pos := pos; m_prev := prev; m_rest := rest; m_caps := [] |} with
  | Some e => Some {| mt_start := pos; mt_end := m_pos e;
                      mt_text := firstn (m_pos e - pos) rest;
                      mt_caps := m_caps e |}
  | None => None
  end.

(** The leftmost match at or after a position. *)
Fixpoint search_from (fl : flags) (r : regex) (pos : nat) (prev : option char)
    (rest : str) : option rmatched :=
  match match_here fl r pos prev rest with
  | Some m => Some m
  | None =>
      match rest with
      | [] => None
      | c :: rest' => search_from fl r (S pos) (Some c) rest'
      end
  end.

(** [re.search(r, s, flags)]. *)
Definition re_search (fl : flags) (r : regex) (s : str) : option rmatched :=
  search_from fl r 0 None s.

Definition re_found (fl : flags) (r : regex) (s : str) : bool :=
  match re_search fl r s with Some _ => true | None => false end.

(** The last character of a non-empty prefix, else the one before it. *)
Definition prev_after (prev : option char) (consumed : str) : option char :=
  match rev consumed with c :: _ => Some c | [] => prev end.

(** All non-overlapping matches from left to right, each with the text
    between it and the match before, and the text after the last one. [pre]
    is text already passed that belongs to the next gap. None of this
    program's patterns matches the empty string; after an empty match the
    scan steps over one character. *)
Fixpoint scan_from (fuel : nat) (fl : flags) (r : regex) (pos : nat)
    (prev : option char) (rest pre : str) : list (str * rmatched) * str :=
  match fuel with
  | 0 => ([], pre ++ rest)
  | S fuel' =>
      match search_from fl r pos prev rest with
      | None => ([], pre ++ rest)
      | Some m =>
          let gap := pre ++ firstn (mt_start m - pos) rest in
          let upto := firstn (mt_end m - pos) rest in
          let after := skipn (mt_end m - pos) rest in
          if mt_start m <? mt_end m then
            let '(ms, tail) :=
              scan_from fuel' fl r (mt_end m) (prev_after prev upto) after [] in
            ((gap, m) :: ms, tail)
          else
            match after with
            | [] => ([(gap, m)], [])
            | c :: after' =>
                let '(ms, tail) :=
                  scan_from fuel' fl r (S (mt_end m)) (Some c) after' [c] in
                ((gap, m) :: ms, tail)
            end
      end
  end.

Definition scan (fl : flags) (r : regex) (s : str) : list (str * rmatched) * str :=
  scan_from (S (length s)) fl r 0 None s [].

Definition re_finditer (fl : flags) (r : regex) (s : str) : list rmatched :=
  map snd (fst (scan fl r s)).

(** [re.findall] for a pattern without groups, or whose one group spans the
    whole pattern: the matched texts. *)
Definition re_findall0 (fl : flags) (r : regex) (s : str) : list str :=
  map group0 (re_finditer fl r s).

Definition group_or_empty (n : nat) (m : rmatched) : str :=
  match group n m with Some t => t | None => [] end.

(** [re.findall] for a pattern with one group: the text of group 1. *)
Definition re_findall1 (fl : flags) (r : regex) (s : str) : list str :=
  map (group_or_empty 1) (re_finditer fl r s).

(** [re.findall] for a pattern with [n > 1] groups: a tuple of the groups,
    empty for those that took no part. *)
Definition re_findall_groups (n : nat) (fl : flags) (r : regex) (s : str)
    : list (list str) :=
  map (fun m => map (fun i => group_or_empty i m) (seq 1 n)) (re_finditer fl r s).

(** [re.split(r, s)] for a pattern without groups. *)
Definition re_split (fl : flags) (r : regex) (s : str) : list str :=
  let sc := scan fl r s in map fst (fst sc) ++ [snd sc].

(** [re.sub(r, "", s)]. *)
Definition re_delete (fl : flags) (r : regex) (s : str) : str :=
  let sc := scan fl r s in concat (map fst (fst sc)) ++ snd sc.

(** ** Pattern notation helpers *)

Fixpoint lits (s : str) : regex :=
  match s with
  | [] => Eps
  | [c] => Lit c
  | c :: s' => Cat (Lit c) (lits s')
  end.

(** A literal word of the pattern. *)
Definition word (s : string) : regex := lits (u s).

Fixpoint alts (rs : list regex) : regex :=
  match rs with
  | [] => Eps
  | [r] => r
  | r :: rs' => Alt r (alts rs')
  end.

Fixpoint cats (rs : list regex) : regex :=
  match rs with
  | [] => Eps
  | [r] => r
  | r :: rs' => Cat r (cats rs')
  end.

Definition words (ws : list string) : regex := alts (map word ws).

Definition star (a : regex) : regex := Rep true 0 None a.
Definition plus (a : regex) : regex := Rep true 1 None a.
Definition opt (a : regex) : regex := Rep true 0 (Some 1) a.
Definition lazy_star (a : regex) : regex := Rep false 0 None a.
Definition times (lo hi : nat) (a : regex) : regex := Rep true lo (Some hi) a.
Definition at_least (lo : nat) (a : regex) : regex := Rep true lo None a.
Definition exactly (n : nat) (a : regex) : regex := Rep true n (Some n) a.

Definition SPACE_ : regex := Cls false [CSpace].       (* \s *)
Definition DIGIT_ : regex := Cls false [CDigit].       (* \d *)
Definition chars_of (s : string) : list citem := map CChar (u s).

(* ================================================================== *)
(** * Python values and exceptions *)
(* ================================================================== *)

(** The values the parser builds. A dict keeps its keys in insertion order. *)
#[warnings="-register-all"]
Inductive pyval :=
| PNone
| PStr (s : str)
| PList (l : list pyval)
| PDict (d : list (str * pyval)).

Definition dict := list (str * pyval).

Fixpoint dict_get (k : str) (d : dict) : option pyval :=
  match d with
  | [] => None
  | (k', v) :: d' => if str_eqb k' k then Some v else dict_get k d'
  end.

(** [k in d]. *)
Definition dict_has (k : str) (d : dict) : bool :=
  match dict_get k d with Some _ => true | None => false end.

(** [d[k] = v]: replaces the value of an existing key where it stands, else
    adds the key at the end. *)
Fixpoint dict_set (k : str) (v : pyval) (d : dict) : dict :=
  match d with
  | [] => [(k, v)]
  | (k', v') :: d' =>
      if str_eqb k' k then (k', v) :: d' else (k', v') :: dict_set k v d'
  end.

Definition keys (d : dict) : list str := map fst d.

(** Truth value of a Python object. *)
Definition truthy (v : pyval) : bool :=
  match v with
  | PNone => false
  | PStr s => nonempty s
  | PList l => nonempty l
  | PDict d => nonempty d
  end.

(** [d.get(k)] followed by a truth test. *)
Definition get_truthy (k : str) (d : dict) : bool :=
  match dict_get k d with Some v => truthy v | None => false end.

Definition opt_str (o : option str) : pyval :=
  match o with Some s => PStr s | None => PNone end.

Inductive exn := IndexError | ValueError | AttributeError | RuntimeError.

(** The outcome of an expression or call that may raise. *)
Inductive exc (A : Type) :=
| Ok (a : A)
| Raise (e : exn).
Arguments Ok {A} a.
Arguments Raise {A} e.

Definition bind {A B} (m : exc A) (f : A -> exc B) : exc B :=
  match m with Ok a => f a | Raise e => Raise e end.

Notation "x <- m ;; k" := (bind m (fun x => k))
  (at level 61, m at next level, right associativity).

(** [try: body except Exception: handler]. *)
Definition try_except {A} (body : exc A) (handler : exc A) : exc A :=
  match body with Ok a => Ok a | Raise _ => handler end.

(** [l[i]]. *)
Definition index {A} (l : list A) (i : nat) : exc A :=
  match nth_error l i with Some x => Ok x | None => Raise IndexError end.

(** [a, b = l]. *)
Definition unpack2 {A} (l : list A) : exc (A * A) :=
  match l with [a; b] => Ok (a, b) | _ => Raise ValueError end.

(** [m.group(n)] used as a string: [None] has no string methods. *)
Definition group_str (n : nat) (m : rmatched) : exc str :=
  match group n m with Some t => Ok t | None => Raise AttributeError end.

(** [range(lo, hi)] and [enumerate(l)]. *)
Definition range (lo hi : nat) : list nat := seq lo (hi - lo).
Definition enumerate {A} (l : list A) : list (nat * A) :=
  combine (seq 0 (length l)) l.

(** A [for] loop whose body updates a state and may raise. *)
Fixpoint for_in {A S} (xs : list A) (body : A -> S -> exc S) (s : S) : exc S :=
  match xs with
  | [] => Ok s
  | x :: xs' => s' <- body x s ;; for_in xs' body s'
  end.

(** A [for] loop that leaves with [break] at the first element for which the
    body finds something. *)
Fixpoint first_some {A B} (xs : list A) (f : A -> exc (option B)) : exc (option B) :=
  match xs with
  | [] => Ok None
  | x :: xs' =>
      o <- f x ;;
      match o with Some b => Ok (Some b) | None => first_some xs' f end
  end.

(** A [for] loop inside [try] that appends to a list declared before the
    [try]: the list as it stands when the loop ends, and the exception that
    ended it early, if any. An iteration appends at most once, at its end. *)
Fixpoint collect {A} (xs : list A) (body : A -> exc (option pyval))
    (acc : list pyval) : list pyval * option exn :=
  match xs with
  | [] => (acc, None)
  | x :: xs' =>
      match body x with
      | Raise e => (acc, Some e)
      | Ok None => collect xs' body acc
      | Ok (Some v) => collect xs' body (acc ++ [v])
      end
  end.

(** [list(dict.fromkeys(l))]: the first occurrence of each element, in order. *)
Fixpoint fromkeys_from (seen : list str) (l : list str) : list str :=
  match l with
  | [] => []
  | x :: l' =>
      if existsb (str_eqb x) seen then fromkeys_from seen l'
      else x :: fromkeys_from (x :: seen) l'
  end.

Definition fromkeys (l : list str) : list str := fromkeys_from [] l.

(** [sorted(l)] on strings; the result is the one ascending arrangement. *)
Fixpoint insert_sorted (x : str) (l : list str) : list str :=
  match l with
  | [] => [x]
  | y :: l' => if str_leb x y then x :: l else y :: insert_sorted x l'
  end.

Fixpoint sorted (l : list str) : list str :=
  match l with
  | [] => []
  | x :: l' => insert_sorted x (sorted l')
  end.

(** [s.add(x)] on a set kept as a duplicate-free list. *)
Definition set_add (x : str) (s : list str) : list str :=
  if existsb (str_eqb x) s then s else s ++ [x].

Definition strs (l : list str) : pyval := PList (map PStr l).

(* ================================================================== *)
(** * The patterns of resume_parser.py *)
(* ================================================================== *)

Definition az : citem := CRange (ch "a") (ch "z").
Definition AZ : citem := CRange (ch "A") (ch "Z").
Definition d09 : citem := CRange (ch "0") (ch "9").

(** [[a-zA-Z0-9.+_-]+@[a-zA-Z0-9._-]+\.[a-zA-Z]{2,}] *)
Definition EMAIL_RE : regex :=
  cats [plus (Cls false ([az; AZ; d09] ++ chars_of ".+_-"));
        Lit (ch "@");
        plus (Cls false ([az; AZ; d09] ++ chars_of "._-"));
        Lit (ch ".");
        at_least 2 (Cls false [az; AZ])].

(** [[-.\s]?] *)
Definition PHONE_SEP : regex := opt (Cls false (chars_of "-." ++ [CSpace])).

(** [(\+?\d{1,3}[-.\s]?)?(\(?\d{2,4}\)?[-.\s]?)?\d{3,4}[-.\s]?\d{3,4}] *)
Definition PHONE_RE : regex :=
  cats [opt (Grp 1 (cats [opt (Lit (ch "+")); times 1 3 DIGIT_; PHONE_SEP]));
        opt (Grp 2 (cats [opt (Lit (ch "(")); times 2 4 DIGIT_;
                          opt (Lit (ch ")")); PHONE_SEP]));
        times 3 4 DIGIT_; PHONE_SEP; times 3 4 DIGIT_].

(** The shape shared by the five section patterns,
    [(H1|H2|...).*?(?=(?:\n(?:T1|T2|...|$)))] under [re.S | re.I]. *)
Definition section_re (headers terminators : list string) : regex :=
  cats [Grp 1 (words headers);
        lazy_star Dot;
        Ahead (Cat (Lit NL) (alts (map word terminators ++ [Eos])))].

Definition EDU_HEADERS : list string :=
  ["Education"; "Academics"; "Qualification"; "Educational";
   "Academic Background"; "Education History"]%string.

Definition EDU_SECTION_RE : regex :=
  section_re EDU_HEADERS
    ["Experience"; "Projects"; "Skills"; "Certifications"; "Achievements";
     "Work Experience"]%string.

(** [(Bachelor|Master|B\.Tech|M\.Tech|MBA|Ph\.D|BSc|MSc|Diploma|BE|B\.E\.)],
    [re.I] *)
Definition DEGREE_RE : regex :=
  Grp 1 (words ["Bachelor"; "Master"; "B.Tech"; "M.Tech"; "MBA"; "Ph.D"; "BSc";
                "MSc"; "Diploma"; "BE"; "B.E."]%string).

(** [\s*[-–—|]\s*|\s{2,}] *)
Definition EDU_SPLIT_RE : regex :=
  Alt (cats [star SPACE_;
             Cls false [CChar (ch "-"); CChar EN_DASH; CChar EM_DASH; CChar (ch "|")];
             star SPACE_])
      (at_least 2 SPACE_).

(** [\b(?:CGPA|GPA)\b[:\s-]*] *)
Definition CGPA_HEAD : list regex :=
  [WordB; words ["CGPA"; "GPA"]%string; WordB;
   star (Cls false [CChar (ch ":"); CSpace; CChar (ch "-")])].

(** [[0-9](?:\.\d+)?(?:/[0-9]+)?] *)
Definition CGPA_VALUE : regex :=
  cats [Cls false [d09];
        opt (Cat (Lit (ch ".")) (plus DIGIT_));
        opt (Cat (Lit (ch "/")) (plus (Cls false [d09])))].

(** [\b(?:CGPA|GPA)\b[:\s-]*([0-9](?:\.\d+)?(?:/[0-9]+)?)], [re.I] *)
Definition CGPA_RE : regex := cats (CGPA_HEAD ++ [Grp 1 CGPA_VALUE]).

(** [\b(?:CGPA|GPA)\b[:\s-]*[0-9](?:\.\d+)?(?:/[0-9]+)?], [re.I] *)
Definition CGPA_TEXT_RE : regex := cats (CGPA_HEAD ++ [CGPA_VALUE]).

(** [\b\d\.\d{1,2}\/\d{1,3}\b] *)
Definition CGPA_BARE_RE : regex :=
  cats [WordB; DIGIT_; Lit (ch "."); times 1 2 DIGIT_; Lit (ch "/");
        times 1 3 DIGIT_; WordB].

(** [\b(?:CGPA|GPA)\b.*?(\d\.\d{1,2})], [re.I] *)
Definition CGPA_LOOSE_RE : regex :=
  cats [WordB; words ["CGPA"; "GPA"]%string; WordB; lazy_star Dot;
        Grp 1 (cats [DIGIT_; Lit (ch "."); times 1 2 DIGIT_])].

Definition MONTHS : list string :=
  ["Jan"; "Feb"; "Mar"; "Apr"; "May"; "Jun"; "Jul"; "Aug"; "Sep"; "Oct"; "Nov";
   "Dec"]%string.

(** [(\d{2}/\d{4}|\d{4}|\b(?:Jan|...|Dec)[a-z]*\s+\d{4})], [re.I] *)
Definition DATE_RE : regex :=
  Grp 1 (alts [cats [exactly 2 DIGIT_; Lit (ch "/"); exactly 4 DIGIT_];
               exactly 4 DIGIT_;
               cats [WordB; words MONTHS; star (Cls false [az]); plus SPACE_;
                     exactly 4 DIGIT_]]).

(** [(University|College|Institute|School|Institute of Technology|IIT|NIT)],
    [re.I] *)
Definition INSTITUTION_RE : regex :=
  Grp 1 (words ["University"; "College"; "Institute"; "School";
                "Institute of Technology"; "IIT"; "NIT"]%string).

Definition EXP_HEADERS : list string :=
  ["Experience"; "Work Experience"; "Employment"; "Professional Experience"]%string.

Definition EXP_SECTION_RE : regex :=
  section_re EXP_HEADERS ["Projects"; "Education"; "Skills"; "Certifications"]%string.

(** [\n\s*\n] *)
Definition CHUNK_SPLIT_RE : regex := cats [Lit NL; star SPACE_; Lit NL].

(** [(?:at|@)\s+([A-Z][A-Za-z&\.\s-]{2,})] *)
Definition AT_RE : regex :=
  cats [Alt (word "at") (Lit (ch "@")); plus SPACE_;
        Grp 1 (Cat (Cls false [AZ])
                   (at_least 2 (Cls false ([AZ; az] ++ chars_of "&."
                                           ++ [CSpace; CChar (ch "-")]))))].

(** [\s*[-|]\s*] *)
Definition ROLE_SPLIT_RE : regex :=
  cats [star SPACE_; Cls false (chars_of "-|"); star SPACE_].

(** [[A-Z][a-zA-Z&\.\s]{2,}] *)
Definition CAPITALIZED_RE : regex :=
  Cat (Cls false [AZ])
      (at_least 2 (Cls false ([az; AZ] ++ chars_of "&." ++ [CSpace]))).

(** [[A-Za-z]] *)
Definition LETTER_RE : regex := Cls false [AZ; az].

(** [(Hyderabad|Bengaluru|...|USA)], [re.I] *)
Definition LOCATION_RE : regex :=
  Grp 1 (words ["Hyderabad"; "Bengaluru"; "Bangalore"; "Mumbai"; "Delhi";
                "Chennai"; "Pune"; "Remote"; "India"; "United States"; "USA"]%string).

(** [(?:•|-|\*|\d+\.)\s*([^\n]+)] *)
Definition BULLET_RE : regex :=
  cats [alts [Lit BULLET; Lit (ch "-"); Lit (ch "*");
              Cat (plus DIGIT_) (Lit (ch "."))];
        star SPACE_;
        Grp 1 (plus (Cls true [CChar NL]))].

(** [(?<=[\.\?\!])\s+] *)
Definition SENTENCE_SPLIT_RE : regex :=
  Cat (BehindCls (chars_of ".?!")) (plus SPACE_).

Definition SKILLS_SECTION_RE : regex :=
  section_re ["Skills"; "Technical Skills"; "Core Skills"; "Areas of Expertise";
              "Skillset"]%string
             ["Certifications"; "Projects"; "Experience"; "Education"]%string.

(** [[,;/•\-|]] *)
Definition SKILL_SPLIT_RE : regex :=
  Cls false (chars_of ",;/" ++ [CChar BULLET] ++ chars_of "-|").

(** [•\s*([^•\n]+)|-\s*([^-\\n]+)|(?:\n)([A-Za-z0-9+\#\.\s\-\_]{2,})]; in the
    second class the source's [\\n] is a backslash and the letter n. *)
Definition SKILL_ITEMS_RE : regex :=
  alts [cats [Lit BULLET; star SPACE_;
              Grp 1 (plus (Cls true [CChar BULLET; CChar NL]))];
        cats [Lit (ch "-"); star SPACE_;
              Grp 2 (plus (Cls true [CChar (ch "-"); CChar 92%N; CChar (ch "n")]))];
        cats [Lit NL;
              Grp 3 (at_least 2 (Cls false ([AZ; az; d09] ++ chars_of "+#."
                                            ++ [CSpace] ++ chars_of "-_")))]].

Definition SKILL_KEYWORDS : list string :=
  ["python"; "java"; "c++"; "c"; "sql"; "pandas"; "numpy"; "tensorflow"; "pytorch";
   "react"; "angular"; "node"; "html"; "css"; "javascript"; "docker"; "kubernetes";
   "ml"; "machine learning"; "deep learning"; "nlp"; "pandas"; "matplotlib";
   "seaborn"; "git"; "aws"; "gcp"; "azure"; "sql"]%string.

(** [r"\b" + re.escape(kw) + r"\b"]: the keyword's characters, literally. *)
Definition keyword_re (kw : str) : regex := cats [WordB; lits kw; WordB].

Definition PROJ_SECTION_RE : regex :=
  section_re ["Projects"; "Selected Projects"; "Academic Projects"]%string
             ["Skills"; "Certifications"; "Experience"; "Education"]%string.

(** [(Python|Java|C\+\+|SQL|PyTorch|TensorFlow|React|Angular|HTML|CSS|
    JavaScript|Pandas|NumPy)], [re.I] *)
Definition TECH_RE : regex :=
  Grp 1 (words ["Python"; "Java"; "C++"; "SQL"; "PyTorch"; "TensorFlow"; "React";
                "Angular"; "HTML"; "CSS"; "JavaScript"; "Pandas"; "NumPy"]%string).

(** [(\d{2}/\d{4}|\d{4})] *)
Definition PROJ_DATE_RE : regex :=
  Grp 1 (Alt (cats [exactly 2 DIGIT_; Lit (ch "/"); exactly 4 DIGIT_])
             (exactly 4 DIGIT_)).

Definition CERT_HEADERS : list string := ["Certifications"; "Certification"]%string.

Definition CERT_SECTION_RE : regex :=
  section_re CERT_HEADERS ["Projects"; "Skills"; "Experience"; "Education"]%string.

(** [certification], [re.I] *)
Definition CERT_WORD_RE : regex := word "certification".

(* ================================================================== *)
(** * The extractors *)
(* ================================================================== *)

(** [block = match.group(0) if match else text]: the text from the first
    section header up to the line break before the next section or the end,
    or the whole text when the pattern finds nothing. *)
Definition block_or (dflt : str) (section : regex) (text : str) : str :=
  match re_search RE_S_I section text with
  | Some m => group0 m
  | None => dflt
  end.

(** What a [try] block that fills a list or dict declared before it leaves
    behind: the container and the exception that ended the block, if any.
    Both the normal [return] and the handler return the container. *)
Definition returning {S} (run : S * option exn) : exc S :=
  match run with
  | (acc, None) => Ok acc           (* return acc *)
  | (acc, Some _) => Ok acc         (* except Exception: return acc *)
  end.

(** Sequencing inside such a block: the next statement runs only when
    nothing was raised before it. *)
Definition and_then {S} (run : S * option exn) (next : S -> S * option exn)
    : S * option exn :=
  match run with
  | (acc, None) => next acc
  | (acc, Some e) => (acc, Some e)
  end.

Section Parser.

(** The entity recogniser loaded at import: the entities of a text as
    (text, label) pairs. It is used read-only and may fail. *)
Variable nlp : str -> exc (list (str * str)).

(** The order in which a [set] of strings is iterated: some arrangement of
    its elements, which can differ from one interpreter run to the next. *)
Variable set_iter : list str -> list str.

(** ** Personal information *)

Definition first_person_name (text : str) : exc pyval :=
  let lines := stripped_lines text in
  if negb (nonempty lines) then Ok PNone
  else
    first <- index lines 0 ;;
    let person (_ : unit) : exc pyval :=
      ents <- nlp (join (u " ") (firstn 6 lines)) ;;
      Ok (match find (fun e => str_eqb (snd e) (u "PERSON")) ents with
          | Some e => PStr (fst e)
          | None => PNone
          end) in
    if length (split_ws first) <=? 4 then
      c <- index first 0 ;;
      if isupper c then Ok (PStr first) else person tt
    else person tt.

Definition extract_personal_info (text : str) : exc dict :=
  try_except
    (name <- first_person_name text ;;
     let email_m := re_search NOFLAGS EMAIL_RE text in
     let phone_m := re_search NOFLAGS PHONE_RE text in
     Ok [(u "name", name);
         (u "email", opt_str (option_map group0 email_m));
         (u "phone", opt_str (option_map group0 phone_m))])
    (Ok [(u "name", PNone); (u "email", PNone); (u "phone", PNone)]).

(** ** Education *)

(** [range(i+1, min(i+4, len(lines)))] *)
Definition lookahead (i : nat) (lines : list str) : list nat :=
  range (i + 1) (Nat.min (i + 4) (length lines)).

(** The parts of a degree line: [degree], then [field] and [extra] when the
    line splits that far. *)
Definition edu_split_fields (parts : list str) : exc dict :=
  let edu : dict := [] in
  edu <- (if nonempty parts
          then p <- index parts 0 ;; Ok (dict_set (u "degree") (PStr (strip p)) edu)
          else Ok edu) ;;
  edu <- (if 1 <? length parts
          then p <- index parts 1 ;; Ok (dict_set (u "field") (PStr (strip p)) edu)
          else Ok edu) ;;
  (if 2 <? length parts
   then p <- index parts 2 ;; Ok (dict_set (u "extra") (PStr (strip p)) edu)
   else Ok edu).

(** The search for an explicit CGPA/GPA: the line, then its parts, then the
    lookahead lines. *)
Definition edu_find_cgpa (lines : list str) (i : nat) (line : str)
    (parts : list str) : exc (option rmatched) :=
  let cgpa_match := re_search RE_I CGPA_RE line in
  cgpa_match <- match cgpa_match with
                | Some m => Ok (Some m)
                | None => first_some parts (fun p => Ok (re_search RE_I CGPA_RE p))
                end ;;
  match cgpa_match with
  | Some m => Ok (Some m)
  | None =>
      first_some (lookahead i lines)
        (fun j => l <- index lines j ;; Ok (re_search RE_I CGPA_RE l))
  end.

(** Storing the CGPA: the matched value, with its text removed from [extra],
    or else one of the two fallback patterns on the line. *)
Definition edu_store_cgpa (line : str) (cgpa_match : option rmatched) (edu : dict)
    : dict :=
  match cgpa_match with
  | None =>
      match re_search NOFLAGS CGPA_BARE_RE line with
      | Some m2 => dict_set (u "cgpa") (PStr (group0 m2)) edu
      | None =>
          match re_search RE_I CGPA_LOOSE_RE line with
          | Some m3 => dict_set (u "cgpa") (opt_str (group 1 m3)) edu
          | None => edu
          end
      end
  | Some m =>
      let edu := dict_set (u "cgpa") (opt_str (group 1 m)) edu in
      match dict_get (u "extra") edu with
      | Some (PStr extra) =>
          dict_set (u "extra") (PStr (strip (re_delete RE_I CGPA_TEXT_RE extra))) edu
      | _ => edu
      end
  end.

(** The dates on the degree line. *)
Definition edu_line_dates (line : str) (edu : dict) : exc dict :=
  let dates := re_findall1 RE_I DATE_RE line in
  if nonempty dates then
    edu <- (if 1 <=? length dates
            then d <- index dates 0 ;; Ok (dict_set (u "start_date") (PStr d) edu)
            else Ok edu) ;;
    (if 2 <=? length dates
     then d <- index dates 1 ;; Ok (dict_set (u "end_date") (PStr d) edu)
     else Ok edu)
  else Ok edu.

(** One lookahead line of the main loop: institution, more dates, CGPA, each
    only when not yet set. *)
Definition edu_lookahead_line (lines : list str) (j : nat) (edu : dict) : exc dict :=
  nxt <- index lines j ;;
  let edu :=
    if re_found RE_I INSTITUTION_RE nxt && negb (dict_has (u "institution") edu)
    then dict_set (u "institution") (PStr nxt) edu else edu in
  let more_dates := re_findall1 RE_I DATE_RE nxt in
  edu <- (if nonempty more_dates && negb (dict_has (u "start_date") edu)
          then d <- index more_dates 0 ;;
               Ok (dict_set (u "start_date") (PStr d) edu)
          else Ok edu) ;;
  edu <- (if (1 <? length more_dates) && negb (dict_has (u "end_date") edu)
          then d <- index more_dates 1 ;;
               Ok (dict_set (u "end_date") (PStr d) edu)
          else Ok edu) ;;
  Ok (if negb (dict_has (u "cgpa") edu)
      then match re_search RE_I CGPA_RE nxt with
           | Some m => dict_set (u "cgpa") (opt_str (group 1 m)) edu
           | None => edu
           end
      else edu).

(** What a degree line gives before the lookahead: split fields, CGPA and
    the dates on the line. *)
Definition edu_line_fields (lines : list str) (i : nat) (line : str) : exc dict :=
  let parts := re_split NOFLAGS EDU_SPLIT_RE line in
  edu <- edu_split_fields parts ;;
  cgpa_match <- edu_find_cgpa lines i line parts ;;
  let edu := edu_store_cgpa line cgpa_match edu in
  edu_line_dates line edu.

(** One iteration of the main loop: the entry to append, if any. *)
Definition edu_entry (lines : list str) (i : nat) (line : str)
    : exc (option pyval) :=
  if negb (re_found RE_I DEGREE_RE line) then Ok None
  else
    edu <- edu_line_fields lines i line ;;
    edu <- for_in (lookahead i lines) (edu_lookahead_line lines) edu ;;
    Ok (if get_truthy (u "degree") edu || get_truthy (u "institution") edu
        then Some (PDict edu) else None).

(** One lookahead line of the fallback loop. *)
Definition edu_fallback_lookahead_line (lines_all : list str) (j : nat) (edu : dict)
    : exc dict :=
  nxt <- index lines_all j ;;
  let edu :=
    if re_found RE_I INSTITUTION_RE nxt
    then dict_set (u "institution") (PStr nxt) edu else edu in
  let dates := re_findall1 RE_I DATE_RE nxt in
  edu <- (if nonempty dates && negb (dict_has (u "start_date") edu)
          then d <- index dates 0 ;;
               Ok (dict_set (u "start_date") (PStr d) edu)
          else Ok edu) ;;
  edu <- (if (1 <? length dates) && negb (dict_has (u "end_date") edu)
          then d <- index dates 1 ;;
               Ok (dict_set (u "end_date") (PStr d) edu)
          else Ok edu) ;;
  Ok (match re_search RE_I CGPA_RE nxt with
      | Some m => dict_set (u "cgpa") (opt_str (group 1 m)) edu
      | None => edu
      end).

(** One iteration of the whole-text fallback loop. *)
Definition edu_fallback_entry (lines_all : list str) (i : nat) (line : str)
    : exc (option pyval) :=
  if negb (re_found RE_I DEGREE_RE line) then Ok None
  else
    let edu : dict := [(u "degree", PStr line)] in
    edu <- for_in (lookahead i lines_all) (edu_fallback_lookahead_line lines_all) edu ;;
    Ok (Some (PDict edu)).

(** The lines the main loop of [extract_education] runs over. *)
Definition education_lines (text : str) : list str :=
  stripped_lines (block_or text EDU_SECTION_RE text).

(** The main loop of [extract_education]. *)
Definition education_main (text : str) : list pyval * option exn :=
  let lines := education_lines text in
  collect (enumerate lines) (fun il => edu_entry lines (fst il) (snd il)) [].

(** The [if not education:] block. *)
Definition education_fallback (text : str) (education : list pyval)
    : list pyval * option exn :=
  if negb (nonempty education) then
    let lines_all := stripped_lines text in
    collect (enumerate lines_all)
      (fun il => edu_fallback_entry lines_all (fst il) (snd il)) education
  else (education, None).

Definition extract_education (text : str) : exc (list pyval) :=
  returning (and_then (education_main text) (education_fallback text)).

(** ** Experience *)

(** [[l.strip(chars) for l in chunk.splitlines() if l.strip()]] *)
Definition chunk_lines (chars : str) (chunk : str) : list str :=
  map (strip_chars chars) (filter (fun l => nonempty (strip l)) (splitlines chunk)).

Definition EXP_MARKERS : str := u "•- *\t".

(** The responsibilities of a chunk: the bullet items when there are any,
    else up to five short lines after the first, else the first three
    sentences of the remaining lines. *)
Definition exp_responsibilities (chunk : str) (lines : list str) : list str :=
  let resp_items := re_findall1 NOFLAGS BULLET_RE chunk in
  if nonempty resp_items then filter nonempty (map strip resp_items)
  else
    let responsibilities :=
      filter (fun ln => nonempty ln && (length ln <? 200)) (firstn 5 (skipn 1 lines)) in
    if negb (nonempty responsibilities) && (1 <? length lines) then
      let para := join (u " ") (skipn 1 lines) in
      let sents := re_split NOFLAGS SENTENCE_SPLIT_RE para in
      filter nonempty (map strip (firstn 3 sents))
    else responsibilities.

(** The role and the company that the first line and the chunk give:
    "at Company" anywhere in the chunk leaves the role as it is; otherwise a
    first line with a hyphen or pipe is split into role and company. *)
Definition exp_role_company (chunk role : str) : exc (str * pyval) :=
  let company := PNone in
  match re_search NOFLAGS AT_RE chunk with
  | Some m_at => g <- group_str 1 m_at ;; Ok (role, PStr (strip g))
  | None =>
      if mem (ch "-") role || mem (ch "|") role then
        let parts := re_split NOFLAGS ROLE_SPLIT_RE role in
        if 1 <? length parts then
          p1 <- index parts 1 ;;
          p0 <- index parts 0 ;;
          Ok (strip p0, PStr (strip p1))
        else Ok (role, company)
      else Ok (role, company)
  end.

(** The company from the second line, when none was found and that line is
    capitalized and short. *)
Definition exp_next_line_company (lines : list str) (company : pyval) : exc pyval :=
  if negb (truthy company) then
    if 1 <? length lines then
      l1 <- index lines 1 ;;
      if re_found NOFLAGS CAPITALIZED_RE l1 then
        candidate <- index lines 1 ;;
        if (length (split_ws candidate) <? 6)
           && re_found NOFLAGS LETTER_RE candidate
        then Ok (PStr candidate) else Ok company
      else Ok company
    else Ok company
  else Ok company.

(** [start, end = (dates[0] if dates else None),
    (dates[1] if len(dates) > 1 else None)] *)
Definition exp_dates (chunk : str) : exc (pyval * pyval) :=
  let dates := re_findall1 RE_I DATE_RE chunk in
  start <- (if nonempty dates then d <- index dates 0 ;; Ok (PStr d) else Ok PNone) ;;
  end_ <- (if 1 <? length dates then d <- index dates 1 ;; Ok (PStr d) else Ok PNone) ;;
  Ok (start, end_).

(** One iteration of the loop over chunks: the entry to append, if any. *)
Definition exp_entry (chunk : str) : exc (option pyval) :=
  let lines := chunk_lines EXP_MARKERS chunk in
  if negb (nonempty lines) then Ok None   (* continue *)
  else
    role <- index lines 0 ;;
    rc <- exp_role_company chunk role ;;
    let role := fst rc in
    company <- exp_next_line_company lines (snd rc) ;;
    se <- exp_dates chunk ;;
    let location := opt_str (option_map group0 (re_search RE_I LOCATION_RE chunk)) in
    let responsibilities := exp_responsibilities chunk lines in
    Ok (Some (PDict [(u "role", PStr role);
                     (u "company", company);
                     (u "start_date", fst se);
                     (u "end_date", snd se);
                     (u "location", location);
                     (u "responsibilities", strs responsibilities)])).

(** [re.split(r"\n\s*\n", block)] *)
Definition chunks_of (block : str) : list str := re_split NOFLAGS CHUNK_SPLIT_RE block.

Definition experience_chunks (text : str) : list str :=
  chunks_of (block_or text EXP_SECTION_RE text).

Definition extract_experience (text : str) : exc (list pyval) :=
  returning (collect (experience_chunks text) exp_entry []).

(** ** Skills *)

(** A [for] loop inside [try] that assigns into a dict declared before the
    [try]. *)
Fixpoint collect_items {A} (xs : list A) (body : A -> exc (option (str * pyval)))
    (acc : dict) : dict * option exn :=
  match xs with
  | [] => (acc, None)
  | x :: xs' =>
      match body x with
      | Raise e => (acc, Some e)
      | Ok None => collect_items xs' body acc
      | Ok (Some (k, v)) => collect_items xs' body (dict_set k v acc)
      end
  end.

(** [[s.strip() for s in re.split(r"[,;/•\-|]", vals) if s.strip()]] *)
Definition skill_items (vals : str) : list str :=
  filter nonempty (map strip (re_split NOFLAGS SKILL_SPLIT_RE vals)).

(** 1) a "category: values" line. *)
Definition skill_line (line : str) : exc (option (str * pyval)) :=
  if mem (ch ":") line && (length line <? 250) then
    cv <- unpack2 (split1 (ch ":") line) ;;
    let cat := fst cv in
    let vals := snd cv in
    if re_found NOFLAGS LETTER_RE cat then
      let items := skill_items vals in
      if nonempty items
      then Ok (Some (strip cat, strs (sorted (fromkeys (map title items)))))
      else Ok None
    else Ok None
  else Ok None.

(** The names found by the bullet scan: the list [found] of the source. *)
Definition bullet_names (block : str) : list str :=
  let items := re_findall_groups 3 NOFLAGS SKILL_ITEMS_RE block in
  flat_map
    (fun tup =>
       flat_map
         (fun val =>
            if nonempty val && (1 <? length (strip val))
            then skill_items val else [])
         tup)
    items.

(** 2) bullet lists under the skills heading. *)
Definition skills_bullets (found_section : bool) (block : str) (skills : dict)
    : dict * option exn :=
  if negb (nonempty skills) && found_section then
    let found := bullet_names block in
    if nonempty found
    then (dict_set (u "General")
            (strs (sorted (fromkeys
                     (map title (filter (fun s => length s <? 40) found)))))
            skills, None)
    else (skills, None)
  else (skills, None).

(** The set built by the keyword scan. *)
Definition keywords_found (text : str) : list str :=
  let text_low := lower text in
  fold_left
    (fun found kw =>
       if re_found RE_I (keyword_re kw) text_low
       then set_add (title kw) found else found)
    (map u SKILL_KEYWORDS) [].

(** 3) keyword scan across the whole text. *)
Definition skills_keywords (text : str) (skills : dict) : dict * option exn :=
  if negb (nonempty skills) then
    let found := keywords_found text in
    if nonempty found
    then (dict_set (u "General") (strs (sorted (set_iter found))) skills, None)
    else (skills, None)
  else (skills, None).

Definition extract_skills (text : str) : exc dict :=
  let match_ := re_search RE_S_I SKILLS_SECTION_RE text in
  let block := block_or text SKILLS_SECTION_RE text in
  returning
    (and_then
       (and_then (collect_items (splitlines block) skill_line [])
                 (skills_bullets (match match_ with Some _ => true | None => false end)
                                 block))
       (skills_keywords text)).

(** ** Projects *)

Definition PROJ_MARKERS : str := u "∗-• ".

Definition proj_entry (chunk : str) : exc (option pyval) :=
  let lines := chunk_lines PROJ_MARKERS chunk in
  if negb (nonempty lines) then Ok None   (* continue *)
  else
    title_ <- index lines 0 ;;
    let tech := re_findall1 RE_I TECH_RE chunk in
    let date_m := re_search NOFLAGS PROJ_DATE_RE chunk in
    Ok (Some (PDict [(u "title", PStr title_);
                     (u "tech", strs (fromkeys (map title tech)));
                     (u "date", opt_str (option_map group0 date_m));
                     (u "description", PStr (join (u " ") (skipn 1 lines)))])).

Definition project_chunks (text : str) : list str :=
  chunks_of (block_or text PROJ_SECTION_RE text).

Definition extract_projects (text : str) : exc (list pyval) :=
  returning (collect (project_chunks text) proj_entry []).

(** ** Certifications *)

(** One iteration of the loop over the block's lines. *)
Definition cert_entry (line : str) : exc (option pyval) :=
  let line := strip_chars PROJ_MARKERS line in
  if nonempty line && negb (re_found RE_I CERT_WORD_RE line)
  then Ok (Some (PStr line)) else Ok None.

(** [block = match.group(0) if match else ""] *)
Definition certification_block (text : str) : str :=
  block_or [] CERT_SECTION_RE text.

Definition extract_certifications (text : str) : exc (list pyval) :=
  returning (collect (splitlines (certification_block text)) cert_entry []).

(** ** The top-level parser *)

(** The six-key profile. *)
Definition profile (personal_info : dict) (education experience projects : list pyval)
    (skills : dict) (certifications : list pyval) : pyval :=
  PDict [(u "personal_info", PDict personal_info);
         (u "education", PList education);
         (u "experience", PList experience);
         (u "projects", PList projects);
         (u "skills", PDict skills);
         (u "certifications", PList certifications)].

(** The [try] block of [parse_resume]. *)
Definition parse_resume_body (text : str) : exc pyval :=
  personal_info <- extract_personal_info text ;;
  education <- extract_education text ;;
  experience <- extract_experience text ;;
  projects <- extract_projects text ;;
  skills <- extract_skills text ;;
  certifications <- extract_certifications text ;;
  Ok (profile personal_info education experience projects skills certifications).

(** The profile of the outer [except] branch. *)
Definition EMPTY_PROFILE : pyval := profile [] [] [] [] [] [].

Definition parse_resume (text : str) : exc pyval :=
  try_except (parse_resume_body text) (Ok EMPTY_PROFILE).

End Parser.

(* ================================================================== *)
(** * Vocabulary of the properties *)
(* ================================================================== *)

Definition PERSONAL_KEYS : list str := [u "name"; u "email"; u "phone"].

Definition PROFILE_KEYS : list str :=
  [u "personal_info"; u "education"; u "experience"; u "projects"; u "skills";
   u "certifications"].

Definition is_mapping (v : pyval) : Prop := exists d, v = PDict d.

Definition is_sequence (v : pyval) : Prop := exists l, v = PList l.

Definition ACME_CHUNK : str :=
  u "Software Engineer at Acme Corp\n01/2020 - 01/2022\n• Built features\n• Fixed bugs".

Definition NO_CERT_HEADER_TEXT : str := u "AWS Solutions Architect".

Definition DASH_ROLE_TEXT : str := u "Backend Developer - Initech".



(** The order of [sorted], strict and weak. *)
Definition str_lt (a b : str) : Prop := str_ltb a b = true.
Definition str_le (a b : str) : Prop := str_leb a b = true.

(** [l] holds the names [raw] title-cased, each once, in ascending order. *)
Definition titled_ascending (raw l : list str) : Prop :=
  (forall x, In x l <-> In x (map title raw)) /\ StronglySorted str_lt l.

(** [l] holds the names [raw] title-cased, each once, in the order in which
    they first occur in [raw]: an element that comes before another in [l]
    occurs in [raw] before any occurrence of the other. *)
Definition titled_first_seen (raw l : list str) : Prop :=
  (forall x, In x l <-> In x (map title raw)) /\
  NoDup l /\
  (forall p x q y r,
      l = p ++ x :: q ++ y :: r ->
      exists a b, map title raw = a ++ x :: b /\ ~ In x a /\ ~ In y a).

(** The keywords of the vocabulary that the keyword scan finds in a text. *)
Definition matched_keywords (text : str) : list str :=
  filter (fun kw => re_found RE_I (keyword_re kw) (lower text)) (map u SKILL_KEYWORDS).

(** The names a skills list is made from: the values of a category line of
    the block, the bullet names of the block, or the matched keywords. *)
Inductive skill_names (text : str) : str -> list str -> Prop :=
| names_category (line cat vals : str) :
    In line (splitlines (block_or text SKILLS_SECTION_RE text)) ->
    split1 (ch ":") line = [cat; vals] ->
    skill_names text (strip cat) (skill_items vals)
| names_bullets :
    skill_names text (u "General")
      (filter (fun s => length s <? 40)
              (bullet_names (block_or text SKILLS_SECTION_RE text)))
| names_keywords :
    skill_names text (u "General") (matched_keywords text).

(** A recogniser that finds no entity. *)
Definition NO_ENTITIES (text : str) : exc (list (str * str)) := Ok [].

Definition KEYWORDS_TEXT : str := u "I know python and java, sql".
Definition CATEGORY_TEXT : str := u "Skills: Python, Java".

(** A continuation that accepts whenever [k] does. *)
Definition accepts_more (k k' : mstate -> option mstate) : Prop :=
  forall s, k s <> None -> k' s <> None.


Definition CGPA_LINE : str := u "B.Tech - Computer Science - CGPA: 8.5/10".

Definition CGPA_TEXT : str :=
  u "Education\nB.Tech - Computer Science - CGPA: 8.5/10\nIIT Delhi 2016 - 2020\n".

Definition NO_EDU_HEADER_TEXT : str := u "Jane Doe\n- Bachelor of Science\nPune".

(** The values an update leaves alone: those of every key outside [ks]. *)
Definition keeps_outside (ks : list str) (d d' : dict) : Prop :=
  forall k v, ~ In k ks -> dict_get k d = Some v -> dict_get k d' = Some v.

Definition DATE_KEYS : list str := [u "start_date"; u "end_date"].

Definition LOOKAHEAD_KEYS : list str :=
  [u "institution"; u "start_date"; u "end_date"].

Definition FALLBACK_KEYS : list str :=
  [u "institution"; u "start_date"; u "end_date"; u "cgpa"].

(** What the degree line [CGPA_LINE] gives before the lookahead. *)
Definition CGPA_LINE_FIELDS : dict :=
  [(u "degree", PStr (u "B.Tech"));
   (u "field", PStr (u "Computer Science"));
   (u "extra", PStr (u ""));
   (u "cgpa", PStr (u "8.5/10"))].

(** The texts a pattern can consume, assertions left aside: every match of
    the pattern consumes one of them. *)
Fixpoint lang (fl : flags) (r : regex) (w : str) : Prop :=
  match r with
  | Eps | Ahead _ | BehindCls _ | WordB | Eos => w = []
  | Lit c => exists x, w = [x] /\ lit_match fl c x = true
  | Cls neg items => exists x, w = [x] /\ cls_match fl neg items x = true
  | Dot => exists x, w = [x] /\ dot_match fl x = true
  | Cat a b => exists w1 w2, w = w1 ++ w2 /\ lang fl a w1 /\ lang fl b w2
  | Alt a b => lang fl a w \/ lang fl b w
  | Rep _ lo _ a =>
      exists ws, w = concat ws /\ Forall (lang fl a) ws /\ lo <= length ws
  | Grp _ a => lang fl a w
  end.

(** [s'] is [s] after the text [w] has been consumed. *)
Definition consumed (w : str) (s s' : mstate) : Prop :=
  m_rest s = w ++ m_rest s' /\ m_pos s' = m_pos s + length w.

(** The non-blank lines of a text. *)
Definition nonblank_lines (s : str) : list str :=
  filter (fun l => nonempty (strip l)) (splitlines s).

Definition blank (s : str) : Prop := Forall (fun c => is_space c = true) s.
Definition has_text (s : str) : Prop := Exists (fun c => is_space c = false) s.

(** Where [splitlines] goes on after the line boundary [c]: past the line
    feed of a carriage return, line feed pair. *)
Definition after_break (c : char) (rest : str) : str :=
  match rest with
  | d :: rest' => if ((c =? CR) && (d =? NL))%N then rest' else rest
  | [] => rest
  end.

(** A match of the chunk separator together with the text before it. *)
Definition piece (gm : str * rmatched) : str := fst gm ++ mt_text (snd gm).

(** The entry, if any, that a chunk adds to the experience list. *)
Definition exp_entry_of (chunk : str) : list pyval :=
  match exp_entry chunk with Ok (Some e) => [e] | _ => [] end.

(** The role read from the line [first] of a chunk: when nothing in the chunk
    reads as "at Company" and the line has a hyphen or pipe, the text before
    the line's first such separator, stripped; otherwise the line. *)
Definition role_of (chunk first : str) : str :=
  match re_search NOFLAGS AT_RE chunk with
  | Some _ => first
  | None =>
      if mem (ch "-") first || mem (ch "|") first
      then strip (hd [] (re_split NOFLAGS ROLE_SPLIT_RE first))
      else first
  end.

Definition role_from (chunk first : str) (d : dict) : Prop :=
  dict_get (u "role") d = Some (PStr (role_of chunk first)).

Definition TWO_CHUNK_TEXT : str :=
  u "Backend Developer - Initech\n2019 - 2021\n\nIntern at Globex\n2018".

(** A header word that starts with a letter. *)
Definition starts_with_letter (h : string) : Prop :=
  exists c s, u h = c :: s /\ is_ascii_alpha c = true.

Definition ALL_ABSENT : dict :=
  [(u "name", PNone); (u "email", PNone); (u "phone", PNone)].

Definition NAME_TEXT : str := u "Jane Doe\nReach me: jane.doe@mail.example.org".

Definition LOWER_FIRST_TEXT : str := u "contact: jane.doe@mail.example.org".

(** A recogniser that is not available. *)
Definition FAILING_NLP (text : str) : exc (list (str * str)) := Raise RuntimeError.

(** The shape of an address: local part, at sign, domain, dot, and a top
    level of two or more letters. *)
Definition email_form (e : str) : Prop :=
  exists local domain tld,
    e = local ++ [ch "@"] ++ domain ++ [ch "."] ++ tld /\
    local <> [] /\ domain <> [] /\ 2 <= length tld /\
    Forall (fun c => is_ascii_alpha c = true) tld /\
    ~ In (ch "@") local /\ ~ In (ch "@") domain /\
    Forall (fun c => is_space c = false) e.

(** A dict whose keys are distinct names of [ks] and whose values are all
    strings. *)
Definition record_of (ks : list str) (d : dict) : Prop :=
  NoDup (keys d) /\ incl (keys d) ks /\
  (forall k v, In (k, v) d -> exists s, v = PStr s).

(** No end date without a start date. *)
Definition dates_ordered (d : dict) : Prop :=
  dict_has (u "end_date") d = true -> dict_has (u "start_date") d = true.

Definition EDU_KEYS : list str :=
  [u "degree"; u "field"; u "extra"; u "cgpa"; u "start_date"; u "end_date";
   u "institution"].

(** An education entry under construction: a record over [EDU_KEYS] with no
    end date unless it has a start date. *)
Definition edu_record (d : dict) : Prop :=
  record_of EDU_KEYS d /\ dates_ordered d.

(** [d'] has every key of [d], with the same value. *)
Definition extends (d d' : dict) : Prop :=
  forall k v, dict_get k d = Some v -> dict_get k d' = Some v.

Definition NO_DEGREE_TEXT : str := u "Jane Doe\nEducation\nCity High School, 2015\nSkills\nPython".

Definition DEGREE_UNDER_SKILLS_TEXT : str :=
  u "Education\nCity High School\nSkills\nMaster of none".

(** The up to three lines after line [i]: what the lookahead reads. *)
Definition next_lines (i : nat) (lines : list str) : list str :=
  firstn 3 (skipn (S i) lines).

Definition names_institution (l : str) : bool := re_found RE_I INSTITUTION_RE l.

(** What the degree line itself puts in the entry. *)
Definition from_degree_line (line : str) (d : dict) : Prop :=
  dict_get (u "degree") d
  = Some (PStr (strip (hd [] (re_split NOFLAGS EDU_SPLIT_RE line)))) /\
  (forall m, re_search RE_I CGPA_RE line = Some m ->
             dict_get (u "cgpa") d = Some (opt_str (group 1 m))) /\
  (forall a ds, re_findall1 RE_I DATE_RE line = a :: ds ->
                dict_get (u "start_date") d = Some (PStr a) /\
                forall b ds', ds = b :: ds' ->
                              dict_get (u "end_date") d = Some (PStr b)).

Definition TWO_COLLEGES_TEXT : str :=
  u "Education\nB.Tech - Computer Science - CGPA: 8.5/10 2016 2020\nFirst College\nSecond University".

Definition FALLBACK_TWO_COLLEGES_TEXT : str :=
  u "Education\nSkills\nMaster of Science\nFirst College\nSecond University".

(** A string or [None]. *)
Definition str_or_none (v : pyval) : Prop := v = PNone \/ exists s, v = PStr s.

(** The shape of an experience entry: the six keys in the order of the
    source, a role string, optional company, dates and location, no end date
    without a start date, and responsibilities that are non-empty strings. *)
Definition exp_record (e : pyval) : Prop :=
  exists role company start end_ location resps,
    e = PDict [(u "role", PStr role);
               (u "company", company);
               (u "start_date", start);
               (u "end_date", end_);
               (u "location", location);
               (u "responsibilities", strs resps)] /\
    str_or_none company /\ str_or_none start /\ str_or_none end_ /\
    str_or_none location /\
    (start = PNone -> end_ = PNone) /\
    Forall (fun r => nonempty r = true) resps.

Definition PROJ_HEADERS : list string :=
  ["Projects"; "Selected Projects"; "Academic Projects"]%string.

(** The shape of a project entry: the four keys in the order of the source,
    title and description strings, a technology list without repetition, and
    an optional date. *)
Definition proj_record (e : pyval) : Prop :=
  exists t tech date descr,
    e = PDict [(u "title", PStr t);
               (u "tech", strs tech);
               (u "date", date);
               (u "description", PStr descr)] /\
    NoDup tech /\ str_or_none date.

(** The entry, if any, that a chunk adds to the project list. *)
Definition proj_entry_of (chunk : str) : list pyval :=
  match proj_entry chunk with Ok (Some e) => [e] | _ => [] end.

Definition NO_PROJECTS_TEXT : str := u "Jane Doe\njane@example.org\n\nSkills: Python".

(** A string with no character of [chars] at either end. *)
Definition clean_ends (chars s : str) : Prop :=
  (forall x, hd_error s = Some x -> mem x chars = false) /\
  (forall x, hd_error (rev s) = Some x -> mem x chars = false).

(** A skills category: a non-empty name bound to a list of non-empty
    strings without repetition. *)
Definition skill_category (k : str) (v : pyval) : Prop :=
  nonempty k = true /\
  exists l, v = strs l /\ NoDup l /\ Forall (fun s => nonempty s = true) l.

Definition TWO_CATEGORIES_TEXT : str :=
  u "Languages: python, Java, PYTHON\nTools: git / docker\nLanguages: SQL".

(** What the three steps of [extract_skills] maintain. *)
Definition categories (sk : dict) : Prop :=
  NoDup (keys sk) /\ forall k v, In (k, v) sk -> skill_category k v.

(* ================================================================== *)
(** * api.py: the upload and query handlers *)
(* ================================================================== *)

(** What the code of a handler can raise: an exception that comes out of
    the parser module or a library call, a type error, or the HTTP error the
    upload handler builds. *)
Inductive api_exn :=
| Core (e : exn)
| TypeError
| HTTPException (status_code : nat) (detail : str).

Inductive outcome (A : Type) :=
| Done (a : A)
| Failed (e : api_exn).
Arguments Done {A} a.
Arguments Failed {A} e.

Definition and_so {A B} (m : outcome A) (f : A -> outcome B) : outcome B :=
  match m with Done a => f a | Failed e => Failed e end.

Notation "x <~ m ;; k" := (and_so m (fun x => k))
  (at level 61, m at next level, right associativity).

Definition lift {A} (m : exc A) : outcome A :=
  match m with Ok a => Done a | Raise e => Failed (Core e) end.

(** [s.startswith(p)], [s.endswith(p)] and [p in s]. *)
Fixpoint startswith (p s : str) : bool :=
  match p, s with
  | [], _ => true
  | x :: p', y :: s' => (x =? y)%N && startswith p' s'
  | _ :: _, [] => false
  end.

Definition endswith (p s : str) : bool := startswith (rev p) (rev s).

Fixpoint contains (p s : str) : bool :=
  startswith p s || match s with [] => false | _ :: s' => contains p s' end.

(** [o.get(k, dflt)]: only a dict has the method. *)
Definition get_or (k : str) (dflt : pyval) (o : pyval) : outcome pyval :=
  match o with
  | PDict d => Done (match dict_get k d with Some v => v | None => dflt end)
  | _ => Failed (Core AttributeError)
  end.

(** [o.values()] *)
Definition values (o : pyval) : outcome (list pyval) :=
  match o with
  | PDict d => Done (map snd d)
  | _ => Failed (Core AttributeError)
  end.

(** [sum(vs, [])]: the lists of [vs] one after the other; anything but a
    list cannot be added to a list. *)
Fixpoint sum_lists (acc : list pyval) (vs : list pyval) : outcome (list pyval) :=
  match vs with
  | [] => Done acc
  | PList l :: vs' => sum_lists (acc ++ l) vs'
  | _ :: _ => Failed TypeError
  end.

(** The items of a list handed to [str.join]: all must be strings. *)
Fixpoint as_strs (l : list pyval) : outcome (list str) :=
  match l with
  | [] => Done []
  | PStr s :: l' => ss <~ as_strs l' ;; Done (s :: ss)
  | _ :: _ => Failed TypeError
  end.

(** [for e in o]: the items of a list, the keys of a dict, the characters of
    a string. *)
Definition iterate (o : pyval) : outcome (list pyval) :=
  match o with
  | PList l => Done l
  | PDict d => Done (map PStr (keys d))
  | PStr s => Done (map (fun c => PStr [c]) s)
  | PNone => Failed TypeError
  end.

(** [any(f(e) for e in l)]: stops at the first true. *)
Fixpoint any_of {A} (f : A -> outcome bool) (l : list A) : outcome bool :=
  match l with
  | [] => Done false
  | e :: l' =>
      b <~ f e ;;
      if b then Done true else any_of f l'
  end.

(** [[r for r in l if f(r)]] *)
Fixpoint keep {A} (f : A -> outcome bool) (l : list A) : outcome (list A) :=
  match l with
  | [] => Done []
  | r :: l' =>
      b <~ f r ;;
      rest <~ keep f l' ;;
      Done (if b then r :: rest else rest)
  end.

(** [skill.lower() in " ".join(sum(r.get("skills", {}).values(), [])).lower()] *)
Definition skill_matches (skill : str) (r : pyval) : outcome bool :=
  sk <~ get_or (u "skills") (PDict []) r ;;
  vs <~ values sk ;;
  names <~ sum_lists [] vs ;;
  names <~ as_strs names ;;
  Done (contains (lower skill) (lower (join (u " ") names))).

(** [(e.get("degree", "") or "").lower()] *)
Definition degree_of (e : pyval) : outcome str :=
  v <~ get_or (u "degree") (PStr []) e ;;
  match (if truthy v then v else PStr []) with
  | PStr s => Done (lower s)
  | _ => Failed (Core AttributeError)
  end.

(** [any(degree.lower() in ... for e in r.get("education", []))] *)
Definition degree_matches (degree : str) (r : pyval) : outcome bool :=
  ed <~ get_or (u "education") (PList []) r ;;
  es <~ iterate ed ;;
  any_of (fun e => d <~ degree_of e ;; Done (contains (lower degree) d)) es.

(** [if p:] on an optional query parameter. *)
Definition given (p : option str) : option str :=
  match p with
  | Some s => if nonempty s then Some s else None
  | None => None
  end.

(** GET /resumes: the store, filtered by each parameter that is given. *)
Definition get_resumes (RESUMES : list pyval) (skill degree : option str)
    : outcome pyval :=
  let results := RESUMES in
  results <~ match given skill with
             | Some s => keep (skill_matches s) results
             | None => Done results
             end ;;
  results <~ match given degree with
             | Some g => keep (degree_matches g) results
             | None => Done results
             end ;;
  Done (PDict [(u "resumes", PList results)]).

(** An uploaded file: its name and what reading it gives. *)
Record upload := { filename : str; read : exc (list Byte.byte) }.

(** [o[k] = v]: a dict takes any string key; the other objects of a profile
    do not support it. *)
Definition set_item (k : str) (v : pyval) (o : pyval) : outcome pyval :=
  match o with
  | PDict d => Done (PDict (dict_set k v d))
  | _ => Failed TypeError
  end.

(** What the upload handler runs on: the entity recogniser and the set
    order of the parser module, and the libraries behind the handler, namely
    the text of the pages of a PDF ([fitz]), UTF-8 decoding, [str] of a
    bytes object and [str] of an exception. *)
Record runtime := {
  rt_nlp : str -> exc (list (str * str));
  rt_set_iter : list str -> list str;
  pdf_text : list Byte.byte -> exc str;
  decode_utf8 : list Byte.byte -> exc str;
  repr_bytes : list Byte.byte -> str;
  error_text : api_exn -> str
}.

(** The text of a file with a supported extension. A PDF that cannot be
    read raises the HTTP error. *)
Definition file_text (rt : runtime) (file : upload) (content : list Byte.byte)
    : outcome str :=
  if endswith (u ".pdf") (lower (filename file)) then
    match pdf_text rt content with
    | Ok text => Done text
    | Raise e =>
        Failed (HTTPException 400
                  (u "Failed to read PDF " ++ filename file ++ u ": "
                   ++ error_text rt (Core e)))
    end
  else
    match decode_utf8 rt content with
    | Ok text => Done text
    | Raise _ => Done (repr_bytes rt content)
    end.

(** The [try] block of one iteration: the parsed resume to store, or nothing
    for a file that is skipped. *)
Definition upload_body (rt : runtime) (file : upload) : outcome (option pyval) :=
  content <~ lift (read file) ;;
  if negb (endswith (u ".pdf") (lower (filename file))
           || endswith (u ".txt") (lower (filename file)))
  then Done None   (* continue *)
  else
    text <~ file_text rt file content ;;
    parsed <~ lift (parse_resume (rt_nlp rt) (rt_set_iter rt) text) ;;
    parsed <~ set_item (u "filename") (PStr (filename file)) parsed ;;
    Done (Some parsed).

(** One iteration of the loop over the files, on the store and the results
    so far. *)
Definition upload_one (rt : runtime) (st : list pyval * list pyval) (file : upload)
    : list pyval * list pyval :=
  let (RESUMES, results) := st in
  match upload_body rt file with
  | Done None => (RESUMES, results)
  | Done (Some parsed) => (RESUMES ++ [parsed], results ++ [parsed])
  | Failed e =>
      (RESUMES,
       results ++ [PDict [(u "filename", PStr (filename file));
                          (u "error", PStr (error_text rt e))]])
  end.

(** POST /upload_resume: the store after the request and the content of the
    response. *)
Definition upload_resume (rt : runtime) (RESUMES : list pyval) (files : list upload)
    : list pyval * pyval :=
  let (RESUMES, results) := fold_left (upload_one rt) files (RESUMES, []) in
  (RESUMES,
   PDict [(u "message", PStr (u "Upload complete")); (u "resumes", PList results)]).

(** The store after a series of upload requests, from the empty store the
    module starts with. *)
Definition store_after (rt : runtime) (requests : list (list upload)) : list pyval :=
  fold_left (fun RESUMES files => fst (upload_resume rt RESUMES files)) requests [].

(** A stored resume that the query handler can search: its skills are a
    dict of lists of strings and its education is a list of dicts of
    strings. *)
Definition searchable (r : pyval) : Prop :=
  exists d sk ed,
    r = PDict d /\
    dict_get (u "skills") d = Some (PDict sk) /\
    (forall k v, In (k, v) sk -> exists l, v = strs l) /\
    dict_get (u "education") d = Some (PList ed) /\
    (forall e, In e ed ->
               exists f, e = PDict f /\
                         forall k v, In (k, v) f -> exists s, v = PStr s).

(** The keys of a stored resume. *)
Definition STORED_KEYS : list str :=
  [u "personal_info"; u "education"; u "experience"; u "projects"; u "skills";
   u "certifications"; u "filename"].

Definition SAMPLE_CV : str :=
  u "Jane Doe\nEducation\nB.Tech - Computer Science\nFirst College\nSkills: Python, Java".

(** A text file, and a runtime in which it decodes to [SAMPLE_CV]. *)
Definition SAMPLE_FILE : upload := {| filename := u "Jane.TXT"; read := Ok [] |}.

Definition SAMPLE_RUNTIME : runtime :=
  {| rt_nlp := NO_ENTITIES;
     rt_set_iter := id;
     pdf_text := fun _ => Raise RuntimeError;
     decode_utf8 := fun _ => Ok SAMPLE_CV;
     repr_bytes := fun _ => [];
     error_text := fun _ => [] |}.

Definition SAMPLE_STORE : list pyval := store_after SAMPLE_RUNTIME [[SAMPLE_FILE]].

Definition SAMPLE_RESUME : dict :=
  match SAMPLE_STORE with
  | PDict d :: _ => d
  | _ => []
  end.

(** An entry of the upload response that reports an error. *)
Definition is_error_entry (p : pyval) : bool :=
  match p with
  | PDict d => dict_has (u "error") d
  | _ => false
  end.

(** The entry that reports the error [e] for a file. *)
Definition error_entry (rt : runtime) (file : upload) (e : api_exn) : pyval :=
  PDict [(u "filename", PStr (filename file)); (u "error", PStr (error_text rt e))].

Definition CPP_TEXT : str := u "Wrote c++11 and Java services".

(** A text that is empty or starts with a space. Lower-casing reads the text
    around a character only to place a sigma, and a space ends that reading:
    a piece of text between spaces, or at an end of the text, is lower-cased
    as it is on its own. *)
Definition at_edge (s : str) : Prop := s = [] \/ exists s', s = 32%N :: s'.

(* ================================================================== *)
(** * Exceptions never leave an extractor *)
(* ================================================================== *)

Lemma returning_fst {S} (run : S * option exn) : returning run = Ok (fst run).
Proof. destruct run as [acc [e|]]; reflexivity. Qed.

Lemma try_except_ok {A} (body : exc A) (dflt : A) :
  exists a, try_except body (Ok dflt) = Ok a.
Proof. destruct body as [a|e]; simpl; eauto. Qed.

Section Boundaries.

Variable nlp : str -> exc (list (str * str)).
Variable set_iter : list str -> list str.

(** Both the body and the handler of [extract_personal_info] build a dict
    with the keys name, email and phone. *)
Lemma extract_personal_info_ok (text : str) :
  exists d, extract_personal_info nlp text = Ok d /\ keys d = PERSONAL_KEYS.
Proof.
  unfold extract_personal_info.
  destruct (first_person_name nlp text) as [name|e]; simpl; eauto.
Qed.

Lemma extract_education_ok (text : str) : exists l, extract_education text = Ok l.
Proof. unfold extract_education. rewrite returning_fst. eauto. Qed.

Lemma extract_experience_ok (text : str) : exists l, extract_experience text = Ok l.
Proof. unfold extract_experience. rewrite returning_fst. eauto. Qed.

Lemma extract_projects_ok (text : str) : exists l, extract_projects text = Ok l.
Proof. unfold extract_projects. rewrite returning_fst. eauto. Qed.

Lemma extract_skills_ok (text : str) : exists d, extract_skills set_iter text = Ok d.
Proof. unfold extract_skills. rewrite returning_fst. eauto. Qed.

Lemma extract_certifications_ok (text : str) :
  exists l, extract_certifications text = Ok l.
Proof. unfold extract_certifications. rewrite returning_fst. eauto. Qed.

(** The [try] block of [parse_resume] runs to its [return]. *)
Lemma parse_resume_body_ok (text : str) :
  exists pi ed ex pr sk ce,
    extract_personal_info nlp text = Ok pi /\ keys pi = PERSONAL_KEYS /\
    extract_education text = Ok ed /\
    extract_experience text = Ok ex /\
    extract_projects text = Ok pr /\
    extract_skills set_iter text = Ok sk /\
    extract_certifications text = Ok ce /\
    parse_resume_body nlp set_iter text = Ok (profile pi ed ex pr sk ce).
Proof.
  destruct (extract_personal_info_ok text) as [pi [Hpi Hk]].
  destruct (extract_education_ok text) as [ed Hed].
  destruct (extract_experience_ok text) as [ex Hex].
  destruct (extract_projects_ok text) as [pr Hpr].
  destruct (extract_skills_ok text) as [sk Hsk].
  destruct (extract_certifications_ok text) as [ce Hce].
  exists pi, ed, ex, pr, sk, ce.
  unfold parse_resume_body.
  rewrite Hpi, Hed, Hex, Hpr, Hsk, Hce. simpl. auto 10.
Qed.

End Boundaries.

(* ================================================================== *)
(** * The shape of the profile *)
(* ================================================================== *)

(** C1. For every text, whatever the entity recogniser does, [parse_resume]
    returns (it does not raise) a dict whose keys are exactly personal_info,
    education, experience, projects, skills and certifications; personal_info
    and skills are bound to dicts and the other four to lists, so no key is
    missing or bound to [None]. *)
Theorem parse_resume_six_fields :
  forall nlp set_iter text,
    exists d,
      parse_resume nlp set_iter text = Ok (PDict d) /\
      keys d = PROFILE_KEYS /\
      (forall k, In k [u "personal_info"; u "skills"] ->
                 exists v, dict_get k d = Some v /\ is_mapping v) /\
      (forall k, In k [u "education"; u "experience"; u "projects";
                       u "certifications"] ->
                 exists v, dict_get k d = Some v /\ is_sequence v).
Proof.
  intros nlp set_iter text.
  destruct (parse_resume_body_ok nlp set_iter text)
    as (pi & ed & ex & pr & sk & ce & _ & _ & _ & _ & _ & _ & _ & Hbody).
  unfold parse_resume. rewrite Hbody. simpl.
  eexists. split; [reflexivity|]. split; [reflexivity|].
  split; intros k Hk; simpl in Hk;
    repeat (destruct Hk as [<-|Hk]; [eexists; split; [reflexivity|]|]);
    try contradiction; unfold is_mapping, is_sequence; eauto.
Qed.

(** C10. The outer [except] branch of [parse_resume] is never taken: each
    extractor returns a value, the [try] block returns the profile assembled
    from the six results, and that is what [parse_resume] returns. Its
    personal_info has the keys name, email and phone, so the result is never
    the handler's profile, whose personal_info is the empty dict. *)
Theorem parse_resume_outer_handler_unreachable :
  forall nlp set_iter text,
    exists pi ed ex pr sk ce,
      extract_personal_info nlp text = Ok pi /\
      extract_education text = Ok ed /\
      extract_experience text = Ok ex /\
      extract_projects text = Ok pr /\
      extract_skills set_iter text = Ok sk /\
      extract_certifications text = Ok ce /\
      parse_resume_body nlp set_iter text = Ok (profile pi ed ex pr sk ce) /\
      parse_resume nlp set_iter text = Ok (profile pi ed ex pr sk ce) /\
      keys pi = [u "name"; u "email"; u "phone"] /\
      parse_resume nlp set_iter text <> Ok EMPTY_PROFILE.
Proof.
  intros nlp set_iter text.
  destruct (parse_resume_body_ok nlp set_iter text)
    as (pi & ed & ex & pr & sk & ce & Hpi & Hk & Hed & Hex & Hpr & Hsk & Hce & Hbody).
  exists pi, ed, ex, pr, sk, ce.
  assert (Hp : parse_resume nlp set_iter text = Ok (profile pi ed ex pr sk ce)).
  { unfold parse_resume. rewrite Hbody. reflexivity. }
  repeat (split; [assumption|]).
  rewrite Hp. unfold EMPTY_PROFILE, profile. intros Heq.
  inversion Heq; subst. discriminate Hk.
Qed.

(** C8. On the empty string every field is at its empty default: name, email
    and phone are [None], the four sequences are empty and skills is the
    empty dict. *)
Theorem parse_resume_empty_string :
  forall nlp set_iter,
    parse_resume nlp set_iter (u "") =
    Ok (PDict [(u "personal_info",
                PDict [(u "name", PNone); (u "email", PNone); (u "phone", PNone)]);
               (u "education", PList []);
               (u "experience", PList []);
               (u "projects", PList []);
               (u "skills", PDict []);
               (u "certifications", PList [])]).
Proof. intros nlp set_iter. vm_compute. reflexivity. Qed.

(* ================================================================== *)
(** * Worked inputs *)
(* ================================================================== *)

(** C2. The text is one chunk, and [extract_experience] returns one entry for
    it. The company and the two dates are the expected ones. The role is the
    whole first line, since the branch that finds "at Company" leaves [role]
    as it is, and the hyphen of the date range is read as a bullet mark, so
    "01/2022" comes first among the responsibilities. *)
Theorem extract_experience_acme :
  experience_chunks ACME_CHUNK = [ACME_CHUNK] /\
  extract_experience ACME_CHUNK =
  Ok [PDict [(u "role", PStr (u "Software Engineer at Acme Corp"));
             (u "company", PStr (u "Acme Corp"));
             (u "start_date", PStr (u "01/2020"));
             (u "end_date", PStr (u "01/2022"));
             (u "location", PNone);
             (u "responsibilities",
              strs [u "01/2022"; u "Built features"; u "Fixed bugs"])]].
Proof. split; vm_compute; reflexivity. Qed.

(** The hyphen-split branch does reassign [role]: the same job written
    "Role - Company" gives the role without the company. *)
Lemma extract_experience_role_dash_company :
  extract_experience (u "Software Engineer - Acme Corp") =
  Ok [PDict [(u "role", PStr (u "Software Engineer"));
             (u "company", PStr (u "Acme Corp"));
             (u "start_date", PNone);
             (u "end_date", PNone);
             (u "location", PNone);
             (u "responsibilities", strs [u "Acme Corp"])]].
Proof. vm_compute. reflexivity. Qed.

(* ================================================================== *)
(** * Strings: equality and order *)
(* ================================================================== *)

Lemma str_eqb_eq (a b : str) : str_eqb a b = true <-> a = b.
Proof.
  revert b. induction a as [|x a IH]; intros [|y b]; simpl; split; intros H;
    try reflexivity; try discriminate.
  - apply andb_true_iff in H as [Hx Ha]. apply N.eqb_eq in Hx. apply IH in Ha.
    congruence.
  - injection H as -> ->. rewrite N.eqb_refl. apply IH. reflexivity.
Qed.

Lemma str_eqb_refl (a : str) : str_eqb a a = true.
Proof. apply str_eqb_eq. reflexivity. Qed.

Lemma str_eqb_neq (a b : str) : str_eqb a b = false <-> a <> b.
Proof.
  split.
  - intros H Heq. apply str_eqb_eq in Heq. congruence.
  - intros H. destruct (str_eqb a b) eqn:E; [|reflexivity].
    apply str_eqb_eq in E. contradiction.
Qed.

Lemma existsb_str_eqb_In (x : str) (l : list str) :
  existsb (str_eqb x) l = true <-> In x l.
Proof.
  rewrite existsb_exists. split.
  - intros [y [Hy He]]. apply str_eqb_eq in He. subst. assumption.
  - intros H. exists x. split; [assumption | apply str_eqb_refl].
Qed.

(** [str_ltb] is a strict total order on strings. *)
Lemma str_ltb_cons (x y : char) (a b : str) :
  str_ltb (x :: a) (y :: b) = true <-> (x < y)%N \/ (x = y /\ str_ltb a b = true).
Proof.
  simpl. rewrite orb_true_iff, andb_true_iff, N.ltb_lt, N.eqb_eq. tauto.
Qed.

Lemma str_ltb_asym (a b : str) : str_ltb a b = true -> str_ltb b a = false.
Proof.
  revert b. induction a as [|x a IH]; intros [|y b] H; try reflexivity;
    try discriminate.
  apply str_ltb_cons in H. apply not_true_is_false. intros H'.
  apply str_ltb_cons in H'.
  destruct H as [H|[-> H]], H' as [H'|[E H']]; try lia.
  apply IH in H. congruence.
Qed.

Lemma str_ltb_trichotomy (a b : str) :
  str_ltb a b = false -> str_ltb b a = false -> a = b.
Proof.
  revert b. induction a as [|x a IH]; intros [|y b] H1 H2; try reflexivity;
    try discriminate.
  destruct (N.lt_trichotomy x y) as [L|[E|L]].
  - assert (str_ltb (x :: a) (y :: b) = true) by (apply str_ltb_cons; auto).
    congruence.
  - subst y. f_equal. apply IH.
    + apply not_true_is_false. intros H. 
      assert (str_ltb (x :: a) (x :: b) = true) by (apply str_ltb_cons; auto).
      congruence.
    + apply not_true_is_false. intros H.
      assert (str_ltb (x :: b) (x :: a) = true) by (apply str_ltb_cons; auto).
      congruence.
  - assert (str_ltb (y :: b) (x :: a) = true) by (apply str_ltb_cons; auto).
    congruence.
Qed.

Lemma str_ltb_trans (a b c : str) :
  str_ltb a b = true -> str_ltb b c = true -> str_ltb a c = true.
Proof.
  revert b c. induction a as [|x a IH]; intros [|y b] [|z c] H1 H2;
    try reflexivity; try discriminate.
  apply str_ltb_cons in H1. apply str_ltb_cons in H2. apply str_ltb_cons.
  destruct H1 as [H1|[-> H1]], H2 as [H2|[-> H2]]; try (left; lia).
  right. split; [reflexivity|]. eapply IH; eassumption.
Qed.

Lemma str_leb_total (a b : str) : str_leb a b = true \/ str_leb b a = true.
Proof.
  unfold str_leb. destruct (str_ltb b a) eqn:E; [|left; reflexivity].
  right. apply str_ltb_asym in E. rewrite E. reflexivity.
Qed.

Lemma str_leb_antisym (a b : str) :
  str_leb a b = true -> str_leb b a = true -> a = b.
Proof.
  unfold str_leb. intros H1 H2. apply negb_true_iff in H1, H2.
  apply str_ltb_trichotomy; assumption.
Qed.

Lemma str_leb_trans (a b c : str) :
  str_leb a b = true -> str_leb b c = true -> str_leb a c = true.
Proof.
  unfold str_leb. intros H1 H2. apply negb_true_iff in H1, H2.
  apply negb_true_iff. apply not_true_is_false. intros H.
  destruct (str_ltb c b) eqn:Ecb; [discriminate|].
  destruct (str_ltb b c) eqn:Ebc.
  - assert (str_ltb b a = true) by (eapply str_ltb_trans; eassumption).
    congruence.
  - assert (b = c) by (apply str_ltb_trichotomy; assumption). subst. congruence.
Qed.

Lemma str_leb_false (a b : str) : str_leb a b = false -> str_leb b a = true.
Proof. intros H. destruct (str_leb_total a b); congruence. Qed.

(* ================================================================== *)
(** * [sorted] and [dict.fromkeys] *)
(* ================================================================== *)

Lemma insert_sorted_perm (x : str) (l : list str) :
  Permutation (x :: l) (insert_sorted x l).
Proof.
  induction l as [|y l IH]; simpl; [apply Permutation_refl|].
  destruct (str_leb x y); [apply Permutation_refl|].
  eapply perm_trans; [apply perm_swap|]. apply perm_skip. exact IH.
Qed.

Lemma sorted_perm (l : list str) : Permutation l (sorted l).
Proof.
  induction l as [|x l IH]; simpl; [constructor|].
  eapply perm_trans; [apply perm_skip; exact IH | apply insert_sorted_perm].
Qed.

Lemma sorted_In (x : str) (l : list str) : In x (sorted l) <-> In x l.
Proof.
  split; apply Permutation_in;
    [apply Permutation_sym|]; apply sorted_perm.
Qed.

Lemma insert_sorted_ascending (x : str) (l : list str) :
  StronglySorted str_le l -> StronglySorted str_le (insert_sorted x l).
Proof.
  induction 1 as [|y l Hl IH Hy]; simpl.
  - constructor; constructor.
  - destruct (str_leb x y) eqn:E.
    + constructor; [constructor; assumption|].
      constructor; [exact E|].
      eapply Forall_impl; [|exact Hy]. intros z Hz.
      eapply str_leb_trans; eassumption.
    + constructor; [exact IH|].
      apply Forall_forall. intros z Hz.
      apply (Permutation_in _ (Permutation_sym (insert_sorted_perm x l))) in Hz.
      destruct Hz as [<-|Hz].
      * apply str_leb_false. exact E.
      * rewrite Forall_forall in Hy. apply Hy. exact Hz.
Qed.

Lemma sorted_ascending (l : list str) : StronglySorted str_le (sorted l).
Proof.
  induction l as [|x l IH]; simpl; [constructor|].
  apply insert_sorted_ascending. exact IH.
Qed.

(** Two insertions commute, so the result of [sorted] does not depend on the
    order of its input. *)
Lemma insert_sorted_comm (x y : str) (l : list str) :
  insert_sorted x (insert_sorted y l) = insert_sorted y (insert_sorted x l).
Proof.
  induction l as [|z l IH]; simpl.
  - destruct (str_leb x y) eqn:Exy, (str_leb y x) eqn:Eyx; try reflexivity.
    + assert (x = y) by (apply str_leb_antisym; assumption). subst. reflexivity.
    + apply str_leb_false in Exy. congruence.
  - destruct (str_leb y z) eqn:Eyz, (str_leb x z) eqn:Exz; simpl;
      rewrite ?Eyz, ?Exz.
    + destruct (str_leb x y) eqn:Exy, (str_leb y x) eqn:Eyx; try reflexivity.
      * assert (x = y) by (apply str_leb_antisym; assumption). subst. reflexivity.
      * apply str_leb_false in Exy. congruence.
    + destruct (str_leb x y) eqn:Exy; [|reflexivity].
      assert (str_leb x z = true) by (eapply str_leb_trans; eassumption).
      congruence.
    + destruct (str_leb y x) eqn:Eyx; [|reflexivity].
      assert (str_leb y z = true) by (eapply str_leb_trans; eassumption).
      congruence.
    + rewrite IH. reflexivity.
Qed.

Lemma sorted_of_permutation (l1 l2 : list str) :
  Permutation l1 l2 -> sorted l1 = sorted l2.
Proof.
  induction 1 as [|x l1 l2 _ IH|x y l|l1 l2 l3 _ IH1 _ IH2]; simpl.
  - reflexivity.
  - rewrite IH. reflexivity.
  - apply insert_sorted_comm.
  - congruence.
Qed.

Lemma fromkeys_from_In (seen l : list str) (x : str) :
  In x (fromkeys_from seen l) <-> In x l /\ ~ In x seen.
Proof.
  revert seen. induction l as [|y l IH]; intros seen; simpl; [tauto|].
  destruct (existsb (str_eqb y) seen) eqn:E.
  - apply existsb_str_eqb_In in E. rewrite IH. split.
    + tauto.
    + intros [[<-|H] Hn]; tauto.
  - assert (Hy : ~ In y seen).
    { intros H. apply existsb_str_eqb_In in H. congruence. }
    simpl. rewrite IH. simpl. split.
    + intros [<-|[H Hn]]; [tauto|]. split; [tauto|]. intros Hs. apply Hn. tauto.
    + intros [[<-|H] Hn]; [tauto|].
      destruct (str_eqb y x) eqn:Eyx.
      * apply str_eqb_eq in Eyx. tauto.
      * apply str_eqb_neq in Eyx. right. split; [assumption|].
        intros [?|?]; tauto.
Qed.

Lemma fromkeys_In (l : list str) (x : str) : In x (fromkeys l) <-> In x l.
Proof. unfold fromkeys. rewrite fromkeys_from_In. simpl. tauto. Qed.

Lemma fromkeys_from_NoDup (seen l : list str) : NoDup (fromkeys_from seen l).
Proof.
  revert seen. induction l as [|y l IH]; intros seen; simpl; [constructor|].
  destruct (existsb (str_eqb y) seen); [apply IH|].
  constructor; [|apply IH].
  rewrite fromkeys_from_In. simpl. tauto.
Qed.

Lemma fromkeys_NoDup (l : list str) : NoDup (fromkeys l).
Proof. apply fromkeys_from_NoDup. Qed.

Lemma fromkeys_from_first_seen (seen l p : list str) (x : str) (q : list str)
    (y : str) (r : list str) :
  fromkeys_from seen l = p ++ x :: q ++ y :: r ->
  exists a b, l = a ++ x :: b /\ ~ In x a /\ ~ In y a.
Proof.
  assert (Hmid : forall p', In x (p' ++ x :: q ++ y :: r) /\ In y (p' ++ x :: q ++ y :: r)).
  { intros p'. split; apply in_or_app; right; [left; reflexivity|].
    right. apply in_or_app. right. left. reflexivity. }
  revert seen p. induction l as [|z l IH]; intros seen p H; simpl in H.
  - destruct p; discriminate.
  - destruct (existsb (str_eqb z) seen) eqn:E.
    + destruct (Hmid p) as [Hx Hy]. rewrite <- H in Hx, Hy.
      apply fromkeys_from_In in Hx, Hy.
      apply existsb_str_eqb_In in E.
      destruct (IH _ _ H) as (a & b & -> & Ha & Hb).
      exists (z :: a), b. simpl. split; [reflexivity|].
      split; intros [->|?]; tauto.
    + destruct p as [|z' p]; simpl in H; injection H as -> H.
      * exists [], l. simpl. tauto.
      * destruct (Hmid p) as [Hx Hy]. rewrite <- H in Hx, Hy.
        apply fromkeys_from_In in Hx, Hy. simpl in Hx, Hy.
        destruct (IH _ _ H) as (a & b & -> & Ha & Hb).
        exists (z' :: a), b. simpl. split; [reflexivity|].
        split; intros [->|?]; tauto.
Qed.

Lemma fromkeys_titled_first_seen (raw : list str) :
  titled_first_seen raw (fromkeys (map title raw)).
Proof.
  split; [|split].
  - intros x. apply fromkeys_In.
  - apply fromkeys_NoDup.
  - intros p x q y r H. eapply fromkeys_from_first_seen. exact H.
Qed.

Lemma str_le_neq_lt (a b : str) : str_le a b -> a <> b -> str_lt a b.
Proof.
  unfold str_le, str_lt, str_leb. intros H Hn. apply negb_true_iff in H.
  destruct (str_ltb a b) eqn:E; [reflexivity|].
  exfalso. apply Hn. apply str_ltb_trichotomy; assumption.
Qed.

Lemma ascending_strict (l : list str) :
  StronglySorted str_le l -> NoDup l -> StronglySorted str_lt l.
Proof.
  induction 1 as [|x l Hl IH Hx]; intros Hnd; constructor.
  - apply IH. inversion Hnd; assumption.
  - inversion Hnd as [|? ? Hnx _]; subst.
    apply Forall_forall. intros y Hy. rewrite Forall_forall in Hx.
    apply str_le_neq_lt; [apply Hx; exact Hy|]. intros ->. contradiction.
Qed.

Lemma sorted_strict (l : list str) : NoDup l -> StronglySorted str_lt (sorted l).
Proof.
  intros H. apply ascending_strict; [apply sorted_ascending|].
  eapply Permutation_NoDup; [apply sorted_perm | exact H].
Qed.

Lemma sorted_fromkeys_titled (raw : list str) :
  titled_ascending raw (sorted (fromkeys (map title raw))).
Proof.
  split.
  - intros x. rewrite sorted_In. apply fromkeys_In.
  - apply sorted_strict. apply fromkeys_NoDup.
Qed.

Lemma set_add_In (x y : str) (s : list str) :
  In y (set_add x s) <-> y = x \/ In y s.
Proof.
  unfold set_add. destruct (existsb (str_eqb x) s) eqn:E.
  - apply existsb_str_eqb_In in E. split; [tauto|]. intros [->|?]; assumption.
  - rewrite in_app_iff. simpl. intuition congruence.
Qed.

Lemma set_add_NoDup (x : str) (s : list str) : NoDup s -> NoDup (set_add x s).
Proof.
  intros H. unfold set_add. destruct (existsb (str_eqb x) s) eqn:E; [exact H|].
  assert (Hx : ~ In x s).
  { intros Hin. apply existsb_str_eqb_In in Hin. congruence. }
  apply NoDup_rev in H. rewrite <- (rev_involutive (s ++ [x])).
  apply NoDup_rev. rewrite rev_app_distr. simpl. constructor; [|exact H].
  rewrite <- in_rev. exact Hx.
Qed.

(** The set built by the keyword scan holds the title-cased matched
    keywords, each once. *)
Lemma keywords_scan_from (text : str) (kws acc : list str) :
  let found :=
    fold_left
      (fun found kw =>
         if re_found RE_I (keyword_re kw) (lower text)
         then set_add (title kw) found else found) kws acc in
  NoDup acc ->
  NoDup found /\
  (forall x, In x found <->
             In x acc \/
             In x (map title
                     (filter (fun kw => re_found RE_I (keyword_re kw) (lower text))
                             kws))).
Proof.
  revert acc. induction kws as [|kw kws IH]; intros acc found Hnd; simpl in *.
  - split; [exact Hnd|]. intros x. tauto.
  - subst found. destruct (re_found RE_I (keyword_re kw) (lower text)).
    + destruct (IH (set_add (title kw) acc) (set_add_NoDup _ Hnd)) as [H1 H2].
      split; [exact H1|]. intros x. rewrite H2, set_add_In. simpl. intuition congruence.
    + apply IH. exact Hnd.
Qed.

Lemma keywords_found_spec (text : str) :
  NoDup (keywords_found text) /\
  (forall x, In x (keywords_found text) <-> In x (map title (matched_keywords text))).
Proof.
  destruct (keywords_scan_from text (map u SKILL_KEYWORDS) (acc := [])) as [H1 H2];
    [constructor|].
  split; [exact H1|]. intros x. unfold keywords_found, matched_keywords.
  rewrite H2. split; [intros [[]|H]; exact H | intros H; right; exact H].
Qed.

Lemma sorted_set_titled (set_iter : list str -> list str) (text : str) :
  (forall l, Permutation (set_iter l) l) ->
  titled_ascending (matched_keywords text) (sorted (set_iter (keywords_found text))).
Proof.
  intros Hperm. destruct (keywords_found_spec text) as [Hnd Hin]. split.
  - intros x. rewrite sorted_In, <- Hin. split; apply Permutation_in;
      [|apply Permutation_sym]; apply Hperm.
  - apply sorted_strict. eapply Permutation_NoDup;
      [apply Permutation_sym, Hperm | exact Hnd].
Qed.

(* ================================================================== *)
(** * Determinism *)
(* ================================================================== *)

Lemma skills_keywords_order (it1 it2 : list str -> list str) (text : str) (sk : dict) :
  (forall l, Permutation (it1 l) l) ->
  (forall l, Permutation (it2 l) l) ->
  skills_keywords it1 text sk = skills_keywords it2 text sk.
Proof.
  intros H1 H2. unfold skills_keywords.
  rewrite (sorted_of_permutation
             (perm_trans (H1 (keywords_found text))
                         (Permutation_sym (H2 (keywords_found text))))).
  reflexivity.
Qed.

Lemma extract_skills_order (it1 it2 : list str -> list str) (text : str) :
  (forall l, Permutation (it1 l) l) ->
  (forall l, Permutation (it2 l) l) ->
  extract_skills it1 text = extract_skills it2 text.
Proof.
  intros H1 H2. unfold extract_skills, and_then.
  destruct (collect_items _ _ _) as [acc [e|]]; [reflexivity|].
  destruct (skills_bullets _ _ _) as [acc' [e|]]; [reflexivity|].
  rewrite (@skills_keywords_order it1 it2 text acc' H1 H2). reflexivity.
Qed.

(** C7. With the entity recogniser fixed, two runs of [parse_resume] on the
    same text return the same profile, whatever order each run iterates its
    set of found keywords in: the only value that could depend on that order
    is sorted before it is stored. *)
Theorem parse_resume_deterministic :
  forall nlp (it1 it2 : list str -> list str) text,
    (forall l, Permutation (it1 l) l) ->
    (forall l, Permutation (it2 l) l) ->
    parse_resume nlp it1 text = parse_resume nlp it2 text.
Proof.
  intros nlp it1 it2 text H1 H2.
  unfold parse_resume, parse_resume_body.
  rewrite (@extract_skills_order it1 it2 text H1 H2). reflexivity.
Qed.

(* ================================================================== *)
(** * Skill and technology lists *)
(* ================================================================== *)

Lemma dict_set_In (k : str) (v : pyval) (d : dict) (k' : str) (v' : pyval) :
  In (k', v') (dict_set k v d) -> (k' = k /\ v' = v) \/ In (k', v') d.
Proof.
  induction d as [|[k0 v0] d IH]; simpl.
  - intros [H|[]]. injection H as <- <-. auto.
  - destruct (str_eqb k0 k) eqn:E; simpl.
    + apply str_eqb_eq in E. subst k0.
      intros [H|H]; [injection H as <- <-|]; auto.
    + intros [H|H]; [auto|]. apply IH in H. tauto.
Qed.

Lemma collect_items_invariant {A} (P : str -> pyval -> Prop) (xs : list A)
    (body : A -> exc (option (str * pyval))) (acc : dict) :
  (forall x k v, In x xs -> body x = Ok (Some (k, v)) -> P k v) ->
  (forall k v, In (k, v) acc -> P k v) ->
  forall k v, In (k, v) (fst (collect_items xs body acc)) -> P k v.
Proof.
  revert acc. induction xs as [|x xs IH]; intros acc Hb Hacc k v; simpl.
  - apply Hacc.
  - destruct (body x) as [[[k0 v0]|]|e] eqn:E; simpl.
    + apply IH.
      * intros. eapply Hb; [right|]; eassumption.
      * intros k' v' H. apply dict_set_In in H as [[-> ->]|H].
        -- eapply Hb; [left; reflexivity | exact E].
        -- apply Hacc. exact H.
    + apply IH; [|exact Hacc]. intros. eapply Hb; [right|]; eassumption.
    + apply Hacc.
Qed.

Lemma and_then_invariant {S} (P : S -> Prop) (run : S * option exn)
    (next : S -> S * option exn) :
  P (fst run) -> (forall acc, P acc -> P (fst (next acc))) ->
  P (fst (and_then run next)).
Proof.
  destruct run as [acc [e|]]; simpl; auto.
Qed.

Lemma unpack2_inv {A} (l : list A) (a b : A) : unpack2 l = Ok (a, b) -> l = [a; b].
Proof.
  destruct l as [|x [|y [|z l]]]; simpl; try discriminate.
  intros H. injection H as -> ->. reflexivity.
Qed.

Lemma skill_line_inv (line k : str) (v : pyval) :
  skill_line line = Ok (Some (k, v)) ->
  exists cat vals,
    split1 (ch ":") line = [cat; vals] /\ k = strip cat /\
    v = strs (sorted (fromkeys (map title (skill_items vals)))).
Proof.
  unfold skill_line.
  destruct (mem (ch ":") line && (length line <? 250)); [|discriminate].
  destruct (unpack2 (split1 (ch ":") line)) as [[cat vals]|e] eqn:E; simpl;
    [|discriminate].
  apply unpack2_inv in E.
  destruct (re_found NOFLAGS LETTER_RE cat); [|discriminate].
  destruct (nonempty (skill_items vals)); [|discriminate].
  intros H. injection H as <- <-. eauto.
Qed.

Lemma collect_In {A} (xs : list A) (body : A -> exc (option pyval))
    (acc : list pyval) (e : pyval) :
  In e (fst (collect xs body acc)) ->
  In e acc \/ exists x, In x xs /\ body x = Ok (Some e).
Proof.
  revert acc. induction xs as [|x xs IH]; intros acc; simpl; [auto|].
  destruct (body x) as [[v|]|ex] eqn:E; simpl; [| |auto].
  - intros H. apply IH in H as [H|(x' & Hx & Hb)].
    + apply in_app_or in H as [H|[<-|[]]]; [auto|]. right. exists x. auto.
    + right. exists x'. auto.
  - intros H. apply IH in H as [H|(x' & Hx & Hb)]; [auto|].
    right. exists x'. auto.
Qed.

Lemma proj_entry_tech (chunk : str) (e : pyval) :
  proj_entry chunk = Ok (Some e) ->
  exists d, e = PDict d /\
            dict_get (u "tech") d
            = Some (strs (fromkeys (map title (re_findall1 RE_I TECH_RE chunk)))).
Proof.
  unfold proj_entry.
  destruct (negb (nonempty (chunk_lines PROJ_MARKERS chunk))); [discriminate|].
  destruct (index (chunk_lines PROJ_MARKERS chunk) 0) as [t|ex]; simpl;
    [|discriminate].
  intros H. injection H as <-. eexists. split; reflexivity.
Qed.

(** C3 (as amended). Every list in the dict returned by [extract_skills] holds
    the names it was made from (the values of a category line, the bullet
    names, or the matched keywords), title-cased, each once, in ascending
    code point order. Every tech list of the entries returned by
    [extract_projects] holds the technology names matched in its chunk,
    title-cased, each once, in order of first occurrence. *)
Theorem skills_ascending_tech_first_seen :
  forall (set_iter : list str -> list str) text,
    (forall l, Permutation (set_iter l) l) ->
    (forall sk k v,
        extract_skills set_iter text = Ok sk -> In (k, v) sk ->
        exists raw l, skill_names text k raw /\ v = strs l /\ titled_ascending raw l)
    /\
    (forall pr e,
        extract_projects text = Ok pr -> In e pr ->
        exists chunk d l,
          In chunk (project_chunks text) /\ e = PDict d /\
          dict_get (u "tech") d = Some (strs l) /\
          titled_first_seen (re_findall1 RE_I TECH_RE chunk) l).
Proof.
  intros set_iter text Hperm. split.
  - intros sk k v Hsk. unfold extract_skills in Hsk. rewrite returning_fst in Hsk.
    injection Hsk as <-. revert k v.
    apply (and_then_invariant
             (fun d : dict => forall k v, In (k, v) d ->
                exists raw l, skill_names text k raw /\ v = strs l
                              /\ titled_ascending raw l)).
    + apply (and_then_invariant
               (fun d : dict => forall k v, In (k, v) d ->
                  exists raw l, skill_names text k raw /\ v = strs l
                                /\ titled_ascending raw l)).
      * apply collect_items_invariant; [|intros k v []].
        intros line k v Hline Hb.
        apply skill_line_inv in Hb as (cat & vals & Hs & -> & ->).
        exists (skill_items vals), (sorted (fromkeys (map title (skill_items vals)))).
        split; [eapply names_category; eassumption|].
        split; [reflexivity | apply sorted_fromkeys_titled].
      * intros acc Hacc k v. unfold skills_bullets.
        destruct (negb (nonempty acc) && _); [|apply Hacc].
        destruct (nonempty (bullet_names _)); [|apply Hacc]. simpl.
        intros H. apply dict_set_In in H as [[-> ->]|H]; [|apply Hacc; exact H].
        eexists _, _. split; [apply names_bullets|].
        split; [reflexivity | apply sorted_fromkeys_titled].
    + intros acc Hacc k v. unfold skills_keywords.
      destruct (negb (nonempty acc)); [|apply Hacc].
      destruct (nonempty (keywords_found text)); [|apply Hacc]. simpl.
      intros H. apply dict_set_In in H as [[-> ->]|H]; [|apply Hacc; exact H].
      eexists _, _. split; [apply names_keywords|].
      split; [reflexivity | apply sorted_set_titled; exact Hperm].
  - intros pr e Hpr Hin. unfold extract_projects in Hpr.
    rewrite returning_fst in Hpr. injection Hpr as <-.
    apply collect_In in Hin as [[]|(chunk & Hc & Hb)].
    apply proj_entry_tech in Hb as (d & -> & Hd).
    exists chunk, d, (fromkeys (map title (re_findall1 RE_I TECH_RE chunk))).
    split; [exact Hc|]. split; [reflexivity|]. split; [exact Hd|].
    apply fromkeys_titled_first_seen.
Qed.

(* ================================================================== *)
(** * The matcher: a pattern cannot match where its head does not *)
(* ================================================================== *)

Lemma orelse_some {A} (x y : option A) :
  match x with Some e => Some e | None => y end <> None <-> x <> None \/ y <> None.
Proof. destruct x, y; split; intros H; try tauto; try (left; discriminate);
         try (right; discriminate); try discriminate; destruct H; auto. Qed.

Lemma rep_rounds_mono
    (step : (mstate -> option mstate) -> mstate -> option mstate)
    (greedy : bool) (lo : nat) (hi : option nat) (k k' : mstate -> option mstate) :
  (forall k1 k2 s, accepts_more k1 k2 -> step k1 s <> None -> step k2 s <> None) ->
  accepts_more k k' ->
  forall fuel cnt s,
    rep_rounds step greedy lo hi k fuel cnt s <> None ->
    rep_rounds step greedy lo hi k' fuel cnt s <> None.
Proof.
  intros Hstep Hk. induction fuel as [|fuel IH]; intros cnt s.
  - simpl. destruct greedy, (lo <=? cnt); auto.
    destruct (k s) eqn:E; [|auto]. intros _.
    specialize (Hk s). rewrite E in Hk.
    destruct (k' s); [discriminate|]. apply Hk. discriminate.
  - assert (Hmore :
      (if below cnt hi
       then step (fun s' => if m_pos s <? m_pos s'
                            then rep_rounds step greedy lo hi k fuel (S cnt) s'
                            else None) s
       else None) <> None ->
      (if below cnt hi
       then step (fun s' => if m_pos s <? m_pos s'
                            then rep_rounds step greedy lo hi k' fuel (S cnt) s'
                            else None) s
       else None) <> None).
    { destruct (below cnt hi); [|auto]. apply Hstep.
      intros s'. destruct (m_pos s <? m_pos s'); [apply IH | auto]. }
    assert (Hstop : (if lo <=? cnt then k s else None) <> None ->
                    (if lo <=? cnt then k' s else None) <> None).
    { destruct (lo <=? cnt); [apply Hk | auto]. }
    simpl. destruct greedy; rewrite !orelse_some; tauto.
Qed.

Lemma rmatch_mono (fl : flags) (r : regex) :
  forall k k' s,
    accepts_more k k' -> rmatch fl r k s <> None -> rmatch fl r k' s <> None.
Proof.
  induction r as [|c|neg items| |a IHa b IHb|a IHa b IHb|greedy lo hi a IHa
                  |n a IHa|a IHa|items| |]; intros k k' s Hk; simpl.
  - apply Hk.
  - destruct (m_rest s) as [|x rest]; [auto|].
    destruct (lit_match fl c x); [apply Hk | auto].
  - destruct (m_rest s) as [|x rest]; [auto|].
    destruct (cls_match fl neg items x); [apply Hk | auto].
  - destruct (m_rest s) as [|x rest]; [auto|].
    destruct (dot_match fl x); [apply Hk | auto].
  - apply IHa. intros s'. apply IHb. exact Hk.
  - rewrite !orelse_some. intros [H|H]; [left; eapply IHa | right; eapply IHb];
      eassumption.
  - apply rep_rounds_mono; assumption.
  - apply IHa. intros s'. apply Hk.
  - destruct (rmatch fl a Some s); [apply Hk | auto].
  - destruct (m_prev s) as [p|]; [|auto].
    destruct (in_items fl items p); [apply Hk | auto].
  - destruct (xorb _ _); [apply Hk | auto].
  - destruct (m_rest s) as [|x [|y rest]]; [apply Hk | | auto].
    destruct (x =? NL)%N; [apply Hk | auto].
Qed.

Lemma match_here_none (fl : flags) (r : regex) (pos : nat) (prev : option char)
    (rest : str) :
  match_here fl r pos prev rest = None <->
  rmatch fl r Some {| m_pos := pos; m_prev := prev; m_rest := rest; m_caps := [] |}
  = None.
Proof. unfold match_here. destruct (rmatch _ _ _ _); split; congruence. Qed.

(** Where a pattern does not match, neither does that pattern, captured as a
    group, followed by more. *)
Lemma match_here_head_none (fl : flags) (n : nat) (a b : regex) (pos : nat)
    (prev : option char) (rest : str) :
  match_here fl a pos prev rest = None ->
  match_here fl (Cat (Grp n a) b) pos prev rest = None.
Proof.
  rewrite !match_here_none. intros Ha.
  destruct (rmatch fl (Cat (Grp n a) b) Some _) eqn:E; [|reflexivity].
  exfalso. simpl in E.
  assert (H : rmatch fl a Some
                {| m_pos := pos; m_prev := prev; m_rest := rest; m_caps := [] |}
              <> None).
  { eapply rmatch_mono; [|rewrite E; discriminate]. intros s' _. discriminate. }
  contradiction.
Qed.

Lemma search_from_head_none (fl : flags) (n : nat) (a b : regex) (rest : str) :
  forall pos prev,
    search_from fl a pos prev rest = None ->
    search_from fl (Cat (Grp n a) b) pos prev rest = None.
Proof.
  induction rest as [|c rest IH]; intros pos prev; simpl.
  - destruct (match_here fl a pos prev []) eqn:E; [discriminate|]. intros _.
    rewrite (@match_here_head_none fl n a b _ _ _ E). reflexivity.
  - destruct (match_here fl a pos prev (c :: rest)) eqn:E; [discriminate|].
    intros H. rewrite (@match_here_head_none fl n a b _ _ _ E). apply IH. exact H.
Qed.

(** A text in which no header synonym occurs has no section: the section
    pattern finds nothing. *)
Lemma section_needs_header (headers terminators : list string) (text : str) :
  re_found RE_S_I (words headers) text = false ->
  re_search RE_S_I (section_re headers terminators) text = None.
Proof.
  unfold re_found, re_search. intros H.
  destruct (search_from RE_S_I (words headers) 0 None text) eqn:E; [discriminate|].
  unfold section_re. cbn [cats].
  apply search_from_head_none. exact E.
Qed.

Lemma block_or_no_header (dflt : str) (headers terminators : list string)
    (text : str) :
  re_found RE_S_I (words headers) text = false ->
  block_or dflt (section_re headers terminators) text = dflt.
Proof.
  intros H. unfold block_or. rewrite (@section_needs_header headers terminators text H). reflexivity.
Qed.

(** C4 (as amended). When no certifications header synonym occurs in the
    text, the certifications block is the empty string, not the text, and
    [extract_certifications] returns the empty list. *)
Theorem certifications_empty_without_header :
  forall text,
    re_found RE_S_I (words CERT_HEADERS) text = false ->
    certification_block text = [] /\ extract_certifications text = Ok [].
Proof.
  intros text H.
  assert (Hb : certification_block text = []).
  { unfold certification_block, CERT_SECTION_RE. apply block_or_no_header. exact H. }
  split; [exact Hb|].
  unfold extract_certifications. rewrite Hb. reflexivity.
Qed.

(* ================================================================== *)
(** * Indexing under its guards never raises *)
(* ================================================================== *)

#[local] Arguments re_search : simpl never.
#[local] Arguments re_found : simpl never.
#[local] Arguments re_split : simpl never.
#[local] Arguments re_findall1 : simpl never.
#[local] Arguments re_delete : simpl never.
#[local] Arguments u : simpl never.

Lemma index_lt {A} (l : list A) (n : nat) :
  n < length l -> exists x, index l n = Ok x /\ In x l.
Proof.
  intros H. unfold index. destruct (nth_error l n) as [x|] eqn:E.
  - exists x. split; [reflexivity|]. eapply nth_error_In. exact E.
  - apply nth_error_None in E. lia.
Qed.

Lemma index_ok_In {A} (l : list A) (n : nat) (x : A) : index l n = Ok x -> In x l.
Proof.
  unfold index. destruct (nth_error l n) as [y|] eqn:E; [|discriminate].
  intros H. injection H as <-. eapply nth_error_In. exact E.
Qed.

Lemma lookahead_lt (i : nat) (lines : list str) (j : nat) :
  In j (lookahead i lines) -> j < length lines.
Proof. unfold lookahead, range. rewrite in_seq. lia. Qed.

Lemma for_in_invariant {A S} (P : S -> Prop) (xs : list A)
    (body : A -> S -> exc S) (s : S) :
  P s ->
  (forall x s, In x xs -> P s -> exists s', body x s = Ok s' /\ P s') ->
  exists s', for_in xs body s = Ok s' /\ P s'.
Proof.
  revert s. induction xs as [|x xs IH]; intros s Hs Hb; simpl.
  - eauto.
  - destruct (Hb x s (or_introl eq_refl) Hs) as (s1 & -> & Hs1). simpl.
    apply IH; [exact Hs1|]. intros. apply Hb; [right|]; assumption.
Qed.

Lemma first_some_ok {A B} (xs : list A) (f : A -> exc (option B)) :
  (forall x, In x xs -> exists o, f x = Ok o) ->
  exists o, first_some xs f = Ok o.
Proof.
  induction xs as [|x xs IH]; intros Hf; simpl; [eauto|].
  destruct (Hf x (or_introl eq_refl)) as [[b|] ->]; simpl; [eauto|].
  apply IH. intros. apply Hf. right. assumption.
Qed.

Lemma dict_get_set_other (k k' : str) (v : pyval) (d : dict) :
  k <> k' -> dict_get k (dict_set k' v d) = dict_get k d.
Proof.
  intros Hn. induction d as [|[k0 v0] d IH]; simpl.
  - apply str_eqb_neq in Hn. destruct (str_eqb k' k) eqn:E; [|reflexivity].
    apply str_eqb_eq in E. subst. rewrite str_eqb_refl in Hn. discriminate.
  - destruct (str_eqb k0 k') eqn:E; simpl.
    + apply str_eqb_eq in E. subst k0.
      destruct (str_eqb k' k) eqn:E'; [|reflexivity].
      apply str_eqb_eq in E'. congruence.
    + destruct (str_eqb k0 k); [reflexivity | exact IH].
Qed.

Lemma dict_get_has (k : str) (d : dict) (v : pyval) :
  dict_get k d = Some v -> dict_has k d = true.
Proof. unfold dict_has. intros ->. reflexivity. Qed.

(** A conditional assignment to another key keeps the value of [k]. *)
Lemma set_if_keeps (b : bool) (k k' : str) (v v' : pyval) (d : dict) :
  k <> k' -> dict_get k d = Some v ->
  dict_get k (if b then dict_set k' v' d else d) = Some v.
Proof.
  intros Hn Hd. destruct b; [|exact Hd]. rewrite dict_get_set_other; assumption.
Qed.

Lemma keeps_outside_refl (ks : list str) (d : dict) : keeps_outside ks d d.
Proof. intros k v _ H. exact H. Qed.

Lemma keeps_outside_trans (ks : list str) (d1 d2 d3 : dict) :
  keeps_outside ks d1 d2 -> keeps_outside ks d2 d3 -> keeps_outside ks d1 d3.
Proof. intros H1 H2 k v Hk Hd. apply H2; [exact Hk|]. apply H1; assumption. Qed.

Lemma keeps_outside_set (ks : list str) (k' : str) (v' : pyval) (d : dict) :
  In k' ks -> keeps_outside ks d (dict_set k' v' d).
Proof.
  intros Hin k v Hk Hd. rewrite dict_get_set_other; [exact Hd|].
  intros ->. contradiction.
Qed.

(** A guarded assignment of [l[n]] to a key of [ks] does not raise. *)
Lemma guarded_set_keeps (ks : list str) (b : bool) (l : list str) (n : nat)
    (k' : str) (d : dict) :
  (b = true -> n < length l) -> In k' ks ->
  exists d',
    (if b then x <- index l n ;; Ok (dict_set k' (PStr x) d) else Ok d) = Ok d' /\
    keeps_outside ks d d'.
Proof.
  intros Hb Hin. destruct b.
  - destruct (@index_lt _ l n (Hb eq_refl)) as (x & -> & _). simpl.
    eexists. split; [reflexivity|]. apply keeps_outside_set. exact Hin.
  - eexists. split; [reflexivity | apply keeps_outside_refl].
Qed.

Lemma nonempty_length {A} (l : list A) : nonempty l = true -> 0 < length l.
Proof. destruct l; [discriminate | simpl; lia]. Qed.

Ltac key_neq := let H := fresh in intro H; vm_compute in H; discriminate H.

Ltac guard_lt :=
  let H := fresh in
  intros H;
  repeat match goal with
         | H : _ && _ = true |- _ => apply andb_true_iff in H as [? ?]
         | H : nonempty _ = true |- _ => apply nonempty_length in H
         | H : (_ <? _) = true |- _ => apply Nat.ltb_lt in H
         | H : (_ <=? _) = true |- _ => apply Nat.leb_le in H
         end; lia.

(* ================================================================== *)
(** * Education: the loops run to their end *)
(* ================================================================== *)

Lemma edu_split_fields_ok (parts : list str) :
  exists d, edu_split_fields parts = Ok d.
Proof.
  unfold edu_split_fields.
  destruct parts as [|p0 [|p1 [|p2 ps]]]; eexists; reflexivity.
Qed.

Lemma edu_find_cgpa_ok (lines : list str) (i : nat) (line : str) (parts : list str) :
  exists o, edu_find_cgpa lines i line parts = Ok o.
Proof.
  unfold edu_find_cgpa.
  destruct (re_search RE_I CGPA_RE line) as [m|]; simpl; [eauto|].
  destruct (@first_some_ok _ _ parts (fun p => Ok (re_search RE_I CGPA_RE p)))
    as [[m|] ->]; simpl; eauto.
  apply first_some_ok. intros j Hj. apply lookahead_lt in Hj.
  destruct (@index_lt _ lines j Hj) as (l & -> & _). simpl. eauto.
Qed.

Lemma edu_line_dates_keeps (line : str) (d : dict) :
  exists d', edu_line_dates line d = Ok d' /\ keeps_outside DATE_KEYS d d'.
Proof.
  unfold edu_line_dates.
  destruct (nonempty (re_findall1 RE_I DATE_RE line));
    [|eexists; split; [reflexivity | apply keeps_outside_refl]].
  destruct (@guarded_set_keeps DATE_KEYS
              (1 <=? length (re_findall1 RE_I DATE_RE line))
              (re_findall1 RE_I DATE_RE line) 0 (u "start_date") d)
    as (d1 & -> & H1); [guard_lt | left; reflexivity|]. cbn [bind].
  destruct (@guarded_set_keeps DATE_KEYS
              (2 <=? length (re_findall1 RE_I DATE_RE line))
              (re_findall1 RE_I DATE_RE line) 1 (u "end_date") d1)
    as (d2 & -> & H2); [guard_lt | right; left; reflexivity|].
  exists d2. split; [reflexivity|]. eapply keeps_outside_trans; eassumption.
Qed.

Lemma edu_line_fields_ok (lines : list str) (i : nat) (line : str) :
  exists d, edu_line_fields lines i line = Ok d.
Proof.
  unfold edu_line_fields. cbv zeta.
  destruct (edu_split_fields_ok (re_split NOFLAGS EDU_SPLIT_RE line)) as [d ->].
  simpl.
  destruct (edu_find_cgpa_ok lines i line (re_split NOFLAGS EDU_SPLIT_RE line))
    as [o ->]. simpl.
  destruct (edu_line_dates_keeps line (edu_store_cgpa line o d)) as (d' & -> & _).
  eauto.
Qed.

(** A lookahead line of the main loop does not raise; it changes the
    institution and the dates at most, and a CGPA only when none is set. *)
Lemma edu_lookahead_line_keeps (lines : list str) (j : nat) (d : dict) :
  j < length lines ->
  exists d',
    edu_lookahead_line lines j d = Ok d' /\
    keeps_outside (u "cgpa" :: LOOKAHEAD_KEYS) d d' /\
    (forall v, dict_get (u "cgpa") d = Some v -> dict_get (u "cgpa") d' = Some v).
Proof.
  intros Hj. unfold edu_lookahead_line.
  destruct (@index_lt _ lines j Hj) as (nxt & -> & _). cbn [bind].
  set (d0 := if re_found RE_I INSTITUTION_RE nxt && negb (dict_has (u "institution") d)
             then dict_set (u "institution") (PStr nxt) d else d).
  assert (H0 : keeps_outside LOOKAHEAD_KEYS d d0).
  { subst d0. destruct (_ && _); [|apply keeps_outside_refl].
    apply keeps_outside_set. left. reflexivity. }
  destruct (@guarded_set_keeps LOOKAHEAD_KEYS
              (nonempty (re_findall1 RE_I DATE_RE nxt)
               && negb (dict_has (u "start_date") d0))
              (re_findall1 RE_I DATE_RE nxt) 0 (u "start_date") d0)
    as (d1 & -> & H1); [guard_lt | right; left; reflexivity|]. cbn [bind].
  destruct (@guarded_set_keeps LOOKAHEAD_KEYS
              ((1 <? length (re_findall1 RE_I DATE_RE nxt))
               && negb (dict_has (u "end_date") d1))
              (re_findall1 RE_I DATE_RE nxt) 1 (u "end_date") d1)
    as (d2 & -> & H2); [guard_lt | right; right; left; reflexivity|]. cbn [bind].
  assert (H02 : keeps_outside LOOKAHEAD_KEYS d d2).
  { eapply keeps_outside_trans; [exact H0|].
    eapply keeps_outside_trans; eassumption. }
  eexists. split; [reflexivity|]. split.
  - intros k v Hk Hd.
    assert (Hd2 : dict_get k d2 = Some v).
    { apply H02; [|exact Hd]. intros Hin. apply Hk. right. exact Hin. }
    destruct (negb (dict_has (u "cgpa") d2)); [|exact Hd2].
    destruct (re_search RE_I CGPA_RE nxt); [|exact Hd2].
    rewrite dict_get_set_other; [exact Hd2|]. intros ->. apply Hk. left. reflexivity.
  - intros v Hd.
    assert (Hd2 : dict_get (u "cgpa") d2 = Some v).
    { apply H02; [|exact Hd]. unfold LOOKAHEAD_KEYS.
      intros [H|[H|[H|[]]]]; vm_compute in H; discriminate H. }
    rewrite (dict_get_has _ _ Hd2). exact Hd2.
Qed.

Lemma edu_lookahead_keeps (lines : list str) (i : nat) (d : dict) :
  exists d',
    for_in (lookahead i lines) (edu_lookahead_line lines) d = Ok d' /\
    keeps_outside (u "cgpa" :: LOOKAHEAD_KEYS) d d' /\
    (forall v, dict_get (u "cgpa") d = Some v -> dict_get (u "cgpa") d' = Some v).
Proof.
  apply (@for_in_invariant _ _
           (fun d' => keeps_outside (u "cgpa" :: LOOKAHEAD_KEYS) d d' /\
                      (forall v, dict_get (u "cgpa") d = Some v ->
                                 dict_get (u "cgpa") d' = Some v))).
  - split; [apply keeps_outside_refl | auto].
  - intros j s Hj [Hs1 Hs2]. apply lookahead_lt in Hj.
    destruct (@edu_lookahead_line_keeps lines j s Hj) as (s' & -> & H1 & H2).
    exists s'. split; [reflexivity|]. split.
    + eapply keeps_outside_trans; eassumption.
    + intros v Hv. apply H2, Hs2, Hv.
Qed.

Lemma edu_entry_ok (lines : list str) (i : nat) (line : str) :
  exists r, edu_entry lines i line = Ok r.
Proof.
  unfold edu_entry. destruct (negb (re_found RE_I DEGREE_RE line)); [eauto|].
  destruct (edu_line_fields_ok lines i line) as [d ->]. simpl.
  destruct (edu_lookahead_keeps lines i d) as (d' & -> & _). simpl. eauto.
Qed.

Lemma edu_fallback_lookahead_line_keeps (lines : list str) (j : nat) (d : dict) :
  j < length lines ->
  exists d',
    edu_fallback_lookahead_line lines j d = Ok d' /\ keeps_outside FALLBACK_KEYS d d'.
Proof.
  intros Hj. unfold edu_fallback_lookahead_line.
  destruct (@index_lt _ lines j Hj) as (nxt & -> & _). cbn [bind].
  set (d0 := if re_found RE_I INSTITUTION_RE nxt
             then dict_set (u "institution") (PStr nxt) d else d).
  assert (H0 : keeps_outside FALLBACK_KEYS d d0).
  { subst d0. destruct (re_found _ _ _); [|apply keeps_outside_refl].
    apply keeps_outside_set. left. reflexivity. }
  destruct (@guarded_set_keeps FALLBACK_KEYS
              (nonempty (re_findall1 RE_I DATE_RE nxt)
               && negb (dict_has (u "start_date") d0))
              (re_findall1 RE_I DATE_RE nxt) 0 (u "start_date") d0)
    as (d1 & -> & H1); [guard_lt | right; left; reflexivity|]. cbn [bind].
  destruct (@guarded_set_keeps FALLBACK_KEYS
              ((1 <? length (re_findall1 RE_I DATE_RE nxt))
               && negb (dict_has (u "end_date") d1))
              (re_findall1 RE_I DATE_RE nxt) 1 (u "end_date") d1)
    as (d2 & -> & H2); [guard_lt | right; right; left; reflexivity|]. cbn [bind].
  eexists. split; [reflexivity|].
  eapply keeps_outside_trans; [exact H0|].
  eapply keeps_outside_trans; [exact H1|].
  eapply keeps_outside_trans; [exact H2|].
  destruct (re_search RE_I CGPA_RE nxt); [|apply keeps_outside_refl].
  apply keeps_outside_set. right. right. right. left. reflexivity.
Qed.

(** A degree line of the fallback loop gives an entry whose degree is the
    whole line. *)
Lemma edu_fallback_entry_degree (lines : list str) (i : nat) (line : str) :
  re_found RE_I DEGREE_RE line = true ->
  exists d, edu_fallback_entry lines i line = Ok (Some (PDict d)) /\
            dict_get (u "degree") d = Some (PStr line).
Proof.
  intros Hdeg. unfold edu_fallback_entry. rewrite Hdeg. cbv zeta. simpl negb. cbv iota.
  destruct (@for_in_invariant _ _
              (fun d' => keeps_outside FALLBACK_KEYS [(u "degree", PStr line)] d')
              (lookahead i lines) (edu_fallback_lookahead_line lines)
              [(u "degree", PStr line)]) as (d & -> & Hd).
  - apply keeps_outside_refl.
  - intros j s Hj Hs. apply lookahead_lt in Hj.
    destruct (@edu_fallback_lookahead_line_keeps lines j s Hj) as (s' & -> & H').
    exists s'. split; [reflexivity|]. eapply keeps_outside_trans; eassumption.
  - exists d. split; [reflexivity|]. apply Hd.
    + unfold FALLBACK_KEYS. intros [H|[H|[H|[H|[]]]]]; vm_compute in H; discriminate H.
    + vm_compute. reflexivity.
Qed.

Lemma edu_fallback_entry_inv (lines : list str) (i : nat) (line : str) :
  (edu_fallback_entry lines i line = Ok None /\ re_found RE_I DEGREE_RE line = false)
  \/ (re_found RE_I DEGREE_RE line = true /\
      exists d, edu_fallback_entry lines i line = Ok (Some (PDict d)) /\
                dict_get (u "degree") d = Some (PStr line)).
Proof.
  destruct (re_found RE_I DEGREE_RE line) eqn:E.
  - right. split; [reflexivity|]. apply edu_fallback_entry_degree. exact E.
  - left. unfold edu_fallback_entry. rewrite E. auto.
Qed.

Lemma collect_no_raise {A} (xs : list A) (body : A -> exc (option pyval))
    (acc : list pyval) :
  (forall x, In x xs -> exists r, body x = Ok r) ->
  snd (collect xs body acc) = None.
Proof.
  revert acc. induction xs as [|x xs IH]; intros acc Hb; simpl; [reflexivity|].
  destruct (Hb x (or_introl eq_refl)) as [[v|] ->];
    apply IH; intros; apply Hb; right; assumption.
Qed.

Lemma collect_keeps {A} (xs : list A) (body : A -> exc (option pyval))
    (acc : list pyval) (e : pyval) :
  In e acc -> In e (fst (collect xs body acc)).
Proof.
  revert acc. induction xs as [|x xs IH]; intros acc He; simpl; [exact He|].
  destruct (body x) as [[v|]|ex]; simpl; [|auto|exact He].
  apply IH. apply in_or_app. left. exact He.
Qed.

Lemma collect_appends {A} (xs : list A) (body : A -> exc (option pyval))
    (acc : list pyval) (x : A) (e : pyval) :
  (forall x, In x xs -> exists r, body x = Ok r) ->
  In x xs -> body x = Ok (Some e) ->
  In e (fst (collect xs body acc)).
Proof.
  revert acc. induction xs as [|y xs IH]; intros acc Hb Hx He; simpl; [contradiction|].
  destruct Hx as [->|Hx].
  - rewrite He. apply collect_keeps. apply in_or_app. right. left. reflexivity.
  - destruct (Hb y (or_introl eq_refl)) as [[v|] ->];
      (apply IH; [intros; apply Hb; right; assumption | exact Hx | exact He]).
Qed.

Lemma combine_seq_In {A} (l : list A) (x : A) (a : nat) :
  In x l -> exists i, In (i, x) (combine (seq a (length l)) l).
Proof.
  revert a. induction l as [|y l IH]; intros a; simpl; [contradiction|].
  intros [->|H].
  - exists a. left. reflexivity.
  - destruct (IH (S a) H) as [i Hi]. exists i. right. exact Hi.
Qed.

Lemma enumerate_In {A} (l : list A) (x : A) :
  In x l -> exists i, In (i, x) (enumerate l).
Proof. apply combine_seq_In. Qed.

Lemma enumerate_In_snd {A} (l : list A) (i : nat) (x : A) :
  In (i, x) (enumerate l) -> In x l.
Proof. unfold enumerate. apply in_combine_r. Qed.

(** The main loop of [extract_education] never raises. *)
Lemma education_main_no_raise (text : str) : snd (education_main text) = None.
Proof.
  unfold education_main. apply collect_no_raise. intros [i line] _.
  apply edu_entry_ok.
Qed.

Lemma education_fallback_no_raise (text : str) (education : list pyval) :
  snd (education_fallback text education) = None.
Proof.
  unfold education_fallback. destruct (negb (nonempty education)); [|reflexivity].
  apply collect_no_raise. intros [i line] _. simpl.
  destruct (edu_fallback_entry_inv (stripped_lines text) i line)
    as [[-> _]|(_ & d & -> & _)]; eauto.
Qed.

(** [extract_education] returns the entries of the main loop, or those of
    the fallback loop when the main loop found none. *)
Lemma extract_education_eq (text : str) :
  extract_education text
  = Ok (fst (education_fallback text (fst (education_main text)))).
Proof.
  unfold extract_education. rewrite returning_fst.
  pose proof (education_main_no_raise text) as H.
  destruct (education_main text) as [ed r]. simpl in H. subst r. reflexivity.
Qed.

(* ================================================================== *)
(** * Education: the CGPA line *)
(* ================================================================== *)

Lemma edu_entry_cgpa_line (lines : list str) (i : nat) :
  exists d,
    edu_entry lines i CGPA_LINE = Ok (Some (PDict d)) /\
    dict_get (u "degree") d = Some (PStr (u "B.Tech")) /\
    dict_get (u "field") d = Some (PStr (u "Computer Science")) /\
    dict_get (u "cgpa") d = Some (PStr (u "8.5/10")) /\
    dict_get (u "extra") d = Some (PStr []).
Proof.
  assert (Hdeg : re_found RE_I DEGREE_RE CGPA_LINE = true)
    by (vm_compute; reflexivity).
  assert (Hfields : edu_line_fields lines i CGPA_LINE = Ok CGPA_LINE_FIELDS)
    by (vm_compute; reflexivity).
  unfold edu_entry. rewrite Hdeg, Hfields. cbn [negb bind].
  destruct (edu_lookahead_keeps lines i CGPA_LINE_FIELDS) as (d & -> & Hk & Hc).
  cbn [bind].
  assert (Hout : forall k v,
             In k [u "degree"; u "field"; u "extra"] ->
             dict_get k CGPA_LINE_FIELDS = Some v -> dict_get k d = Some v).
  { intros k v Hin. apply Hk. unfold LOOKAHEAD_KEYS.
    destruct Hin as [<-|[<-|[<-|[]]]];
      intros [H|[H|[H|[H|[]]]]]; vm_compute in H; discriminate H. }
  assert (Hd : dict_get (u "degree") d = Some (PStr (u "B.Tech"))).
  { apply Hout; [left; reflexivity | vm_compute; reflexivity]. }
  exists d. split; [unfold get_truthy; rewrite Hd; vm_compute; reflexivity|].
  split; [exact Hd|].
  split; [apply Hout; [right; left; reflexivity | vm_compute; reflexivity]|].
  split; [apply Hc; vm_compute; reflexivity|].
  apply Hout; [right; right; left; reflexivity | vm_compute; reflexivity].
Qed.

Lemma extract_education_cgpa_text :
  extract_education CGPA_TEXT
  = Ok [PDict [(u "degree", PStr (u "B.Tech"));
               (u "field", PStr (u "Computer Science"));
               (u "extra", PStr (u ""));
               (u "cgpa", PStr (u "8.5/10"));
               (u "institution", PStr (u "IIT Delhi 2016 - 2020"));
               (u "start_date", PStr (u "2016"));
               (u "end_date", PStr (u "2020"))]].
Proof. vm_compute. reflexivity. Qed.

(** C6. In every text whose education block has the line
    "B.Tech - Computer Science - CGPA: 8.5/10", [extract_education] returns an
    entry with degree "B.Tech", field "Computer Science" and cgpa "8.5/10",
    whatever the lines around it; the CGPA was found on the line and a third
    part exists, so [extra] is that part with the CGPA text removed, which
    leaves the empty string. *)
Theorem extract_education_cgpa_line :
  forall text,
    In CGPA_LINE (education_lines text) ->
    exists ed d,
      extract_education text = Ok ed /\ In (PDict d) ed /\
      dict_get (u "degree") d = Some (PStr (u "B.Tech")) /\
      dict_get (u "field") d = Some (PStr (u "Computer Science")) /\
      dict_get (u "cgpa") d = Some (PStr (u "8.5/10")) /\
      dict_get (u "extra") d = Some (PStr (u "")).
Proof.
  intros text Hin.
  destruct (enumerate_In _ _ Hin) as [i Hi].
  destruct (edu_entry_cgpa_line (education_lines text) i) as (d & He & Hd).
  assert (Hmain : In (PDict d) (fst (education_main text))).
  { unfold education_main.
    apply (@collect_appends _ _ _ _ (i, CGPA_LINE)); [|exact Hi|exact He].
    intros [j l] _. apply edu_entry_ok. }
  exists (fst (education_main text)), d.
  split; [|split; [exact Hmain | exact Hd]].
  rewrite extract_education_eq. unfold education_fallback.
  destruct (fst (education_main text)); [contradiction | reflexivity].
Qed.

(* ================================================================== *)
(** * Education: a degree line without a section *)
(* ================================================================== *)

(** The fallback at work: the main loop splits "- Bachelor of Science" into an
    empty degree and a field, adds nothing, and the fallback loop records the
    whole line. *)
Lemma extract_education_fallback_whole_line :
  fst (education_main NO_EDU_HEADER_TEXT) = [] /\
  extract_education NO_EDU_HEADER_TEXT
  = Ok [PDict [(u "degree", PStr (u "- Bachelor of Science"))]].
Proof. split; vm_compute; reflexivity. Qed.

(** C5. In a text with no education header synonym the block is the whole
    text. If one of its lines matches a degree keyword, [extract_education]
    returns at least one entry; and when the main loop adds none, so that the
    whole-text fallback loop runs, every entry has as its degree a whole
    degree line of the text. *)
Theorem extract_education_degree_without_header :
  forall text,
    re_found RE_S_I (words EDU_HEADERS) text = false ->
    (exists line, In line (stripped_lines text)
                  /\ re_found RE_I DEGREE_RE line = true) ->
    exists ed,
      extract_education text = Ok ed /\ ed <> [] /\
      education_lines text = stripped_lines text /\
      (fst (education_main text) = [] ->
       forall e, In e ed ->
                 exists d line,
                   e = PDict d /\ In line (stripped_lines text) /\
                   re_found RE_I DEGREE_RE line = true /\
                   dict_get (u "degree") d = Some (PStr line)).
Proof.
  intros text Hnohdr (line & Hline & Hdeg).
  rewrite extract_education_eq. eexists. split; [reflexivity|].
  assert (Hblock : education_lines text = stripped_lines text).
  { unfold education_lines, EDU_SECTION_RE.
    rewrite (@block_or_no_header text EDU_HEADERS _ text Hnohdr). reflexivity. }
  unfold education_fallback.
  destruct (fst (education_main text)) as [|e0 ed0] eqn:Emain; simpl negb; cbv iota.
  - split; [|split; [exact Hblock|]].
    + destruct (enumerate_In _ _ Hline) as [i Hi].
      destruct (@edu_fallback_entry_degree (stripped_lines text) i line Hdeg)
        as (d & Hd & _).
      intros Hnil.
      assert (Hin : In (PDict d)
                       (fst (collect (enumerate (stripped_lines text))
                               (fun il => edu_fallback_entry (stripped_lines text)
                                            (fst il) (snd il)) []))).
      { apply (@collect_appends _ _ _ _ (i, line)); [|exact Hi|exact Hd].
        intros [j l] _. simpl.
        destruct (edu_fallback_entry_inv (stripped_lines text) j l)
          as [[-> _]|(_ & d' & -> & _)]; eauto. }
      rewrite Hnil in Hin. contradiction.
    + intros _ e He. apply collect_In in He as [[]|([j l] & Hjl & Hb)].
      simpl in Hb.
      destruct (edu_fallback_entry_inv (stripped_lines text) j l)
        as [[Hn _]|(Hdl & d & Hs & Hd)]; [congruence|].
      rewrite Hs in Hb. injection Hb as <-.
      exists d, l. split; [reflexivity|]. split; [|split; assumption].
      eapply enumerate_In_snd. exact Hjl.
  - split; [discriminate|]. split; [exact Hblock|]. discriminate.
Qed.

(* ================================================================== *)
(** * The matcher: what a match consumes *)
(* ================================================================== *)

Lemma consumed_refl (s : mstate) : consumed [] s s.
Proof. split; simpl; [reflexivity | lia]. Qed.

Lemma consumed_trans (w1 w2 : str) (s1 s2 s3 : mstate) :
  consumed w1 s1 s2 -> consumed w2 s2 s3 -> consumed (w1 ++ w2) s1 s3.
Proof.
  intros [H1 H1'] [H2 H2']. split.
  - rewrite H1, H2. apply app_assoc.
  - rewrite H2', H1', length_app. lia.
Qed.

Lemma consumed_eat (x : char) (rest : str) (s : mstate) :
  m_rest s = x :: rest -> consumed [x] s (eat x rest s).
Proof. intros H. split; simpl; [exact H | lia]. Qed.

Lemma rep_rounds_sound (fl : flags) (a : regex)
    (greedy : bool) (lo : nat) (hi : option nat) (k : mstate -> option mstate) :
  (forall k s e, rmatch fl a k s = Some e ->
                 exists w s', lang fl a w /\ consumed w s s' /\ k s' = Some e) ->
  forall fuel cnt s e,
    rep_rounds (rmatch fl a) greedy lo hi k fuel cnt s = Some e ->
    exists ws s',
      Forall (lang fl a) ws /\ lo <= cnt + length ws /\
      consumed (concat ws) s s' /\ k s' = Some e.
Proof.
  intros Ha. induction fuel as [|fuel IH]; intros cnt s e.
  - assert (Hstop : (if lo <=? cnt then k s else None) = Some e ->
                    exists ws s', Forall (lang fl a) ws /\ lo <= cnt + length ws /\
                                  consumed (concat ws) s s' /\ k s' = Some e).
    { destruct (lo <=? cnt) eqn:E; [|discriminate]. apply Nat.leb_le in E.
      intros H. exists [], s. simpl.
      split; [constructor|]. split; [lia|]. split; [apply consumed_refl | exact H]. }
    simpl. destruct greedy; [exact Hstop|].
    destruct (if lo <=? cnt then k s else None); [exact Hstop | discriminate].
  - assert (Hstop : (if lo <=? cnt then k s else None) = Some e ->
                    exists ws s', Forall (lang fl a) ws /\ lo <= cnt + length ws /\
                                  consumed (concat ws) s s' /\ k s' = Some e).
    { destruct (lo <=? cnt) eqn:E; [|discriminate]. apply Nat.leb_le in E.
      intros H. exists [], s. simpl.
      split; [constructor|]. split; [lia|]. split; [apply consumed_refl | exact H]. }
    assert (Hmore :
      (if below cnt hi
       then rmatch fl a
              (fun s' => if m_pos s <? m_pos s'
                         then rep_rounds (rmatch fl a) greedy lo hi k fuel (S cnt) s'
                         else None) s
       else None) = Some e ->
      exists ws s', Forall (lang fl a) ws /\ lo <= cnt + length ws /\
                    consumed (concat ws) s s' /\ k s' = Some e).
    { destruct (below cnt hi); [|discriminate]. intros H.
      apply Ha in H as (w & s1 & Hw & Hc & H).
      destruct (m_pos s <? m_pos s1); [|discriminate].
      apply IH in H as (ws & s' & Hws & Hlo & Hc' & Hk).
      exists (w :: ws), s'. simpl.
      split; [constructor; assumption|]. split; [lia|].
      split; [eapply consumed_trans; eassumption | exact Hk]. }
    simpl.
    destruct greedy.
    + destruct (if below cnt hi then _ else None) eqn:E.
      * intros H. apply Hmore. rewrite <- H. reflexivity.
      * exact Hstop.
    + destruct (if lo <=? cnt then k s else None) eqn:E.
      * intros H. apply Hstop. rewrite <- H. reflexivity.
      * exact Hmore.
Qed.

(** A match of [r] followed by a successful continuation consumed a text of
    [lang r] before the continuation took over. *)
Lemma rmatch_sound (fl : flags) (r : regex) :
  forall k s e,
    rmatch fl r k s = Some e ->
    exists w s', lang fl r w /\ consumed w s s' /\ k s' = Some e.
Proof.
  induction r as [|c|neg items| |a IHa b IHb|a IHa b IHb|greedy lo hi a IHa
                  |n a IHa|a IHa|items| |]; intros k s e; simpl.
  - intros H. exists [], s. split; [reflexivity|]. split; [apply consumed_refl | exact H].
  - destruct (m_rest s) as [|x rest] eqn:E; [discriminate|].
    destruct (lit_match fl c x) eqn:Ex; [|discriminate].
    intros H. exists [x], (eat x rest s). split; [exists x; auto|]. split; [apply consumed_eat; exact E | exact H].
  - destruct (m_rest s) as [|x rest] eqn:E; [discriminate|].
    destruct (cls_match fl neg items x) eqn:Ex; [|discriminate].
    intros H. exists [x], (eat x rest s). split; [exists x; auto|]. split; [apply consumed_eat; exact E | exact H].
  - destruct (m_rest s) as [|x rest] eqn:E; [discriminate|].
    destruct (dot_match fl x) eqn:Ex; [|discriminate].
    intros H. exists [x], (eat x rest s). split; [exists x; auto|]. split; [apply consumed_eat; exact E | exact H].
  - intros H. apply IHa in H as (w1 & s1 & Hw1 & Hc1 & H).
    apply IHb in H as (w2 & s2 & Hw2 & Hc2 & H).
    exists (w1 ++ w2), s2. split; [eauto|].
    split; [eapply consumed_trans; eassumption | exact H].
  - destruct (rmatch fl a k s) eqn:E.
    + intros H. rewrite <- H in *. apply IHa in E as (w & s' & Hw & Hc & Hk).
      exists w, s'. auto.
    + intros H. apply IHb in H as (w & s' & Hw & Hc & Hk). exists w, s'. auto.
  - intros H.
    apply (@rep_rounds_sound fl a greedy lo hi k IHa) in H.
    destruct H as (ws & s' & Hws & Hlo & Hc & Hk).
    exists (concat ws), s'. split; [exists ws; auto|]. auto.
  - intros H. apply IHa in H as (w & s' & Hw & Hc & Hk).
    exists w, (set_cap n (firstn (m_pos s' - m_pos s) (m_rest s)) s').
    split; [exact Hw|]. split; [exact Hc | exact Hk].
  - destruct (rmatch fl a Some s) as [e'|]; [|discriminate].
    intros H. exists [], (with_caps (m_caps e') s).
    split; [reflexivity|]. split; [split; simpl; [reflexivity | lia] | exact H].
  - destruct (m_prev s) as [p|]; [|discriminate].
    destruct (in_items fl items p); [|discriminate].
    intros H. exists [], s. split; [reflexivity|]. split; [apply consumed_refl | exact H].
  - destruct (xorb _ _); [|discriminate].
    intros H. exists [], s. split; [reflexivity|]. split; [apply consumed_refl | exact H].
  - assert (Hk : k s = Some e -> exists w s', w = [] /\ consumed w s s' /\ k s' = Some e)
      by (intros H; exists [], s; split; [reflexivity|]; split; [apply consumed_refl | exact H]).
    destruct (m_rest s) as [|x [|y rest]]; [exact Hk| |discriminate].
    destruct (x =? NL)%N; [exact Hk | discriminate].
Qed.

(** A match found at a position: its text is in [lang r], it starts there,
    and the text left is what follows it. *)
Lemma match_here_sound (fl : flags) (r : regex) (pos : nat) (prev : option char)
    (rest : str) (m : rmatched) :
  match_here fl r pos prev rest = Some m ->
  lang fl r (mt_text m) /\ mt_start m = pos /\
  mt_end m = pos + length (mt_text m) /\
  rest = mt_text m ++ skipn (length (mt_text m)) rest.
Proof.
  unfold match_here.
  destruct (rmatch fl r Some _) as [e|] eqn:E; [|discriminate].
  intros H. injection H as <-. simpl.
  apply rmatch_sound in E as (w & s' & Hw & [Hr Hp] & Hk).
  injection Hk as ->. simpl in Hr, Hp.
  assert (Htxt : firstn (m_pos e - pos) rest = w).
  { rewrite Hp. replace (pos + length w - pos) with (length w) by lia.
    rewrite Hr, firstn_app, Nat.sub_diag, firstn_all. simpl. apply app_nil_r. }
  assert (Hskip : skipn (length w) rest = m_rest e).
  { rewrite Hr, skipn_app, Nat.sub_diag, skipn_all. reflexivity. }
  rewrite Htxt, Hskip. auto.
Qed.

(** The leftmost match at or after a position splits the text into what
    comes before it, the match, and what comes after. *)
Lemma search_from_sound (fl : flags) (r : regex) (rest : str) :
  forall pos prev m,
    search_from fl r pos prev rest = Some m ->
    exists gap after,
      rest = gap ++ mt_text m ++ after /\ lang fl r (mt_text m) /\
      mt_start m = pos + length gap /\
      mt_end m = mt_start m + length (mt_text m).
Proof.
  induction rest as [|c rest IH]; intros pos prev m; simpl.
  - destruct (match_here fl r pos prev []) as [m'|] eqn:E; [|discriminate].
    intros H. injection H as ->.
    apply match_here_sound in E as (Hl & Hs & He & Hr).
    exists [], (skipn (length (mt_text m)) []). simpl.
    repeat split; try assumption; lia.
  - destruct (match_here fl r pos prev (c :: rest)) as [m'|] eqn:E.
    + intros H. injection H as ->.
      apply match_here_sound in E as (Hl & Hs & He & Hr).
      exists [], (skipn (length (mt_text m)) (c :: rest)). simpl.
      repeat split; try assumption; lia.
    + intros H. apply IH in H as (gap & after & Hr & Hl & Hs & He).
      exists (c :: gap), after. simpl. rewrite Hr.
      repeat split; try assumption; lia.
Qed.

(** A scan cuts the text into gaps and matches: what it returns, put
    together again, is the text, and every match is in [lang r]. *)
Lemma scan_from_sound (fl : flags) (r : regex) (fuel : nat) :
  forall pos prev rest pre ms tail,
    scan_from fuel fl r pos prev rest pre = (ms, tail) ->
    pre ++ rest = concat (map piece ms) ++ tail /\
    Forall (fun gm => lang fl r (mt_text (snd gm))) ms.
Proof.
  induction fuel as [|fuel IH]; intros pos prev rest pre ms tail; simpl.
  - intros H. injection H as <- <-. simpl. auto.
  - destruct (search_from fl r pos prev rest) as [m|] eqn:E.
    2: { intros H. injection H as <- <-. simpl. auto. }
    apply search_from_sound in E as (gap & after & Hr & Hl & Hs & He).
    assert (Hgap : firstn (mt_start m - pos) rest = gap).
    { rewrite Hs. replace (pos + length gap - pos) with (length gap) by lia.
      rewrite Hr, firstn_app, Nat.sub_diag, firstn_all. simpl. apply app_nil_r. }
    assert (Hafter : skipn (mt_end m - pos) rest = after).
    { rewrite He, Hs.
      replace (pos + length gap + length (mt_text m) - pos)
        with (length (gap ++ mt_text m)) by (rewrite length_app; lia).
      rewrite Hr, app_assoc, skipn_app, Nat.sub_diag, skipn_all. reflexivity. }
    rewrite Hgap, Hafter.
    destruct (mt_start m <? mt_end m) eqn:Elt.
    + destruct (scan_from fuel fl r (mt_end m) _ after []) as [ms' tail'] eqn:Es.
      intros H. injection H as <- <-.
      apply IH in Es as [Hc Hf]. simpl in Hc. split.
      * cbn [map concat]. unfold piece at 1. cbn [fst snd].
        rewrite <- !app_assoc, <- Hc, Hr. reflexivity.
      * constructor; assumption.
    + apply Nat.ltb_ge in Elt.
      assert (Hnil : mt_text m = []).
      { destruct (mt_text m); [reflexivity | simpl in He; lia]. }
      destruct after as [|c after'].
      * intros H. injection H as <- <-. split.
        -- cbn [map concat]. unfold piece. cbn [fst snd].
           rewrite <- !app_assoc, Hr, Hnil. reflexivity.
        -- constructor; [assumption | constructor].
      * destruct (scan_from fuel fl r (S (mt_end m)) (Some c) after' [c])
          as [ms' tail'] eqn:Es.
        intros H. injection H as <- <-.
        apply IH in Es as [Hc Hf]. split.
        -- cbn [map concat]. unfold piece at 1. cbn [fst snd].
           rewrite <- !app_assoc, <- Hc, Hr, Hnil. reflexivity.
        -- constructor; assumption.
Qed.

Lemma scan_sound (fl : flags) (r : regex) (s : str) :
  s = concat (map piece (fst (scan fl r s))) ++ snd (scan fl r s) /\
  Forall (fun gm => lang fl r (mt_text (snd gm))) (fst (scan fl r s)).
Proof.
  unfold scan. destruct (scan_from _ fl r 0 None s []) as [ms tail] eqn:E.
  apply scan_from_sound in E. exact E.
Qed.

(* ================================================================== *)
(** * The matcher: the bounds on rounds and scans are never reached *)
(* ================================================================== *)

Lemma consumed_length (w : str) (s s' : mstate) :
  consumed w s s' -> length (m_rest s) = length w + length (m_rest s').
Proof. intros [H _]. rewrite H, length_app. reflexivity. Qed.

Lemma rep_rounds_ext
    (step : (mstate -> option mstate) -> mstate -> option mstate)
    (greedy : bool) (lo : nat) (hi : option nat) (k k' : mstate -> option mstate) :
  (forall k1 k2 s, (forall w s', consumed w s s' -> k1 s' = k2 s') ->
                   step k1 s = step k2 s) ->
  forall fuel cnt s,
    (forall w s', consumed w s s' -> k s' = k' s') ->
    rep_rounds step greedy lo hi k fuel cnt s
    = rep_rounds step greedy lo hi k' fuel cnt s.
Proof.
  intros Hstep. induction fuel as [|fuel IH]; intros cnt s Hk.
  - simpl. rewrite (Hk [] s (consumed_refl s)). reflexivity.
  - simpl. rewrite (Hk [] s (consumed_refl s)).
    rewrite (Hstep
               (fun s' => if m_pos s <? m_pos s'
                          then rep_rounds step greedy lo hi k fuel (S cnt) s'
                          else None)
               (fun s' => if m_pos s <? m_pos s'
                          then rep_rounds step greedy lo hi k' fuel (S cnt) s'
                          else None)); [reflexivity|].
    intros w s' Hc. destruct (m_pos s <? m_pos s'); [|reflexivity].
    apply IH. intros w2 s2 Hc2. apply (Hk (w ++ w2)).
    eapply consumed_trans; eassumption.
Qed.

(** The matcher only looks at its continuation on states it can reach by
    consuming text. *)
Lemma rmatch_ext (fl : flags) (r : regex) :
  forall k k' s,
    (forall w s', consumed w s s' -> k s' = k' s') ->
    rmatch fl r k s = rmatch fl r k' s.
Proof.
  induction r as [|c|neg items| |a IHa b IHb|a IHa b IHb|greedy lo hi a IHa
                  |n a IHa|a IHa|items| |]; intros k k' s Hk; simpl.
  - apply (Hk [] s), consumed_refl.
  - destruct (m_rest s) as [|x rest] eqn:E; [reflexivity|].
    destruct (lit_match fl c x); [|reflexivity].
    apply (Hk [x]), consumed_eat, E.
  - destruct (m_rest s) as [|x rest] eqn:E; [reflexivity|].
    destruct (cls_match fl neg items x); [|reflexivity].
    apply (Hk [x]), consumed_eat, E.
  - destruct (m_rest s) as [|x rest] eqn:E; [reflexivity|].
    destruct (dot_match fl x); [|reflexivity].
    apply (Hk [x]), consumed_eat, E.
  - apply IHa. intros w1 s1 H1. apply IHb. intros w2 s2 H2.
    apply (Hk (w1 ++ w2)). eapply consumed_trans; eassumption.
  - rewrite (IHa k k' s Hk), (IHb k k' s Hk). reflexivity.
  - apply rep_rounds_ext; assumption.
  - apply IHa. intros w s' Hc. apply (Hk w). exact Hc.
  - destruct (rmatch fl a Some s) as [e|]; [|reflexivity].
    apply (Hk []). split; simpl; [reflexivity | lia].
  - rewrite (Hk [] s (consumed_refl s)). reflexivity.
  - rewrite (Hk [] s (consumed_refl s)). reflexivity.
  - rewrite (Hk [] s (consumed_refl s)). reflexivity.
Qed.

Lemma rmatch_never (fl : flags) (r : regex) (s : mstate) :
  rmatch fl r (fun _ => None) s = None.
Proof.
  destruct (rmatch fl r (fun _ => None) s) as [e|] eqn:E; [|reflexivity].
  apply rmatch_sound in E as (w & s' & _ & _ & H). discriminate H.
Qed.

Lemma rep_rounds_unfold
    (step : (mstate -> option mstate) -> mstate -> option mstate)
    (greedy : bool) (lo : nat) (hi : option nat) (k : mstate -> option mstate)
    (fuel cnt : nat) (s : mstate) :
  rep_rounds step greedy lo hi k fuel cnt s
  = let more :=
      match fuel with
      | 0 => None
      | S fuel' =>
          if below cnt hi
          then step (fun s' => if m_pos s <? m_pos s'
                               then rep_rounds step greedy lo hi k fuel' (S cnt) s'
                               else None) s
          else None
      end in
    let stop := if lo <=? cnt then k s else None in
    if greedy
    then match more with Some e => Some e | None => stop end
    else match stop with Some e => Some e | None => more end.
Proof. destruct fuel; reflexivity. Qed.

(** More rounds than the text has characters change nothing: the bound of a
    repetition is never what stops it. *)
Lemma rep_rounds_fuel (fl : flags) (a : regex) (greedy : bool) (lo : nat)
    (hi : option nat) (k : mstate -> option mstate) :
  forall fuel cnt s,
    length (m_rest s) <= fuel ->
    rep_rounds (rmatch fl a) greedy lo hi k (S fuel) cnt s
    = rep_rounds (rmatch fl a) greedy lo hi k fuel cnt s.
Proof.
  induction fuel as [|fuel IH]; intros cnt s Hlen.
  - assert (Hmore :
      rmatch fl a
        (fun s' => if m_pos s <? m_pos s'
                   then rep_rounds (rmatch fl a) greedy lo hi k 0 (S cnt) s'
                   else None) s = None).
    { transitivity (rmatch fl a (fun _ => None) s); [|apply rmatch_never].
      apply rmatch_ext. intros w s' Hc. pose proof (consumed_length Hc) as Hl.
      destruct Hc as [_ Hp].
      destruct (m_pos s <? m_pos s') eqn:E; [|reflexivity].
      apply Nat.ltb_lt in E. lia. }
    rewrite (rep_rounds_unfold _ _ _ _ _ 1), (rep_rounds_unfold _ _ _ _ _ 0).
    cbv zeta. rewrite Hmore. destruct (below cnt hi); reflexivity.
  - assert (Hmore :
      rmatch fl a
        (fun s' => if m_pos s <? m_pos s'
                   then rep_rounds (rmatch fl a) greedy lo hi k (S fuel) (S cnt) s'
                   else None) s
      = rmatch fl a
          (fun s' => if m_pos s <? m_pos s'
                     then rep_rounds (rmatch fl a) greedy lo hi k fuel (S cnt) s'
                     else None) s).
    { apply rmatch_ext. intros w s' Hc. pose proof (consumed_length Hc) as Hl.
      destruct Hc as [_ Hp].
      destruct (m_pos s <? m_pos s') eqn:E; [|reflexivity].
      apply Nat.ltb_lt in E. apply IH. lia. }
    rewrite (rep_rounds_unfold _ _ _ _ _ (S (S fuel))),
            (rep_rounds_unfold _ _ _ _ _ (S fuel)).
    cbv zeta. rewrite Hmore. reflexivity.
Qed.

Lemma rep_rounds_any_fuel (fl : flags) (a : regex) (greedy : bool) (lo : nat)
    (hi : option nat) (k : mstate -> option mstate) (s : mstate) (extra : nat) :
  rep_rounds (rmatch fl a) greedy lo hi k (length (m_rest s) + extra) 0 s
  = rmatch fl (Rep greedy lo hi a) k s.
Proof.
  induction extra as [|extra IH].
  - rewrite Nat.add_0_r. reflexivity.
  - rewrite Nat.add_succ_r, rep_rounds_fuel by lia. exact IH.
Qed.

(** One more step than the text has characters is enough for a scan: its
    bound is never what ends it. *)
Lemma scan_from_fuel (fl : flags) (r : regex) :
  forall fuel pos prev rest pre,
    length rest < fuel ->
    scan_from (S fuel) fl r pos prev rest pre = scan_from fuel fl r pos prev rest pre.
Proof.
  induction fuel as [|fuel IH]; intros pos prev rest pre Hlen; [lia|].
  change (scan_from (S (S fuel)) fl r pos prev rest pre)
    with (match search_from fl r pos prev rest with
          | None => ([], pre ++ rest)
          | Some m =>
              let gap := pre ++ firstn (mt_start m - pos) rest in
              let upto := firstn (mt_end m - pos) rest in
              let after := skipn (mt_end m - pos) rest in
              if mt_start m <? mt_end m then
                let '(ms, tail) :=
                  scan_from (S fuel) fl r (mt_end m) (prev_after prev upto) after [] in
                ((gap, m) :: ms, tail)
              else
                match after with
                | [] => ([(gap, m)], [])
                | c :: after' =>
                    let '(ms, tail) :=
                      scan_from (S fuel) fl r (S (mt_end m)) (Some c) after' [c] in
                    ((gap, m) :: ms, tail)
                end
          end).
  change (scan_from (S fuel) fl r pos prev rest pre)
    with (match search_from fl r pos prev rest with
          | None => ([], pre ++ rest)
          | Some m =>
              let gap := pre ++ firstn (mt_start m - pos) rest in
              let upto := firstn (mt_end m - pos) rest in
              let after := skipn (mt_end m - pos) rest in
              if mt_start m <? mt_end m then
                let '(ms, tail) :=
                  scan_from fuel fl r (mt_end m) (prev_after prev upto) after [] in
                ((gap, m) :: ms, tail)
              else
                match after with
                | [] => ([(gap, m)], [])
                | c :: after' =>
                    let '(ms, tail) :=
                      scan_from fuel fl r (S (mt_end m)) (Some c) after' [c] in
                    ((gap, m) :: ms, tail)
                end
          end).
  destruct (search_from fl r pos prev rest) as [m|] eqn:E; [|reflexivity].
  apply search_from_sound in E as (gap & after & Hr & _ & Hs & He).
  cbv zeta.
  pose proof (length_skipn (mt_end m - pos) rest) as Hskip.
  apply (f_equal (@length char)) in Hr. rewrite !length_app in Hr.
  destruct (mt_start m <? mt_end m) eqn:Elt.
  - apply Nat.ltb_lt in Elt. rewrite IH by lia. reflexivity.
  - destruct (skipn (mt_end m - pos) rest) as [|c after'] eqn:Ea; [reflexivity|].
    simpl in Hskip. rewrite IH by lia. reflexivity.
Qed.

Lemma scan_any_fuel (fl : flags) (r : regex) (s : str) (extra : nat) :
  scan_from (S (length s) + extra) fl r 0 None s [] = scan fl r s.
Proof.
  induction extra as [|extra IH].
  - rewrite Nat.add_0_r. reflexivity.
  - rewrite Nat.add_succ_r, scan_from_fuel by lia. exact IH.
Qed.

(* ================================================================== *)
(** * Lines and blank text *)
(* ================================================================== *)

Lemma is_space_iff (c : char) :
  is_space c = true <->
  (9 <= c <= 13 \/ 28 <= c <= 32 \/ c = 133 \/ c = 160 \/ c = 5760
   \/ 8192 <= c <= 8202 \/ c = 8232 \/ c = 8233 \/ c = 8239 \/ c = 8287
   \/ c = 12288)%N.
Proof.
  unfold is_space, between.
  rewrite !orb_true_iff, !andb_true_iff, !N.leb_le, !N.eqb_eq. tauto.
Qed.

Lemma is_linebreak_iff (c : char) :
  is_linebreak c = true <->
  (10 <= c <= 13 \/ 28 <= c <= 30 \/ c = 133 \/ c = 8232 \/ c = 8233)%N.
Proof.
  unfold is_linebreak, between.
  rewrite !orb_true_iff, !andb_true_iff, !N.leb_le, !N.eqb_eq. tauto.
Qed.

Lemma linebreak_is_space (c : char) : is_linebreak c = true -> is_space c = true.
Proof. rewrite is_linebreak_iff, is_space_iff. lia. Qed.

Lemma dropwhile_all (p : char -> bool) (s : str) :
  Forall (fun c => p c = true) s -> dropwhile p s = [].
Proof. induction 1 as [|c s Hc _ IH]; simpl; [|rewrite Hc]; auto. Qed.

Lemma dropwhile_some (p : char -> bool) (s : str) :
  Exists (fun c => p c = false) s ->
  exists c s', dropwhile p s = c :: s' /\ p c = false.
Proof.
  induction s as [|c s IH]; intros H; [inversion H|]. simpl.
  destruct (p c) eqn:E; [|eauto].
  apply IH. inversion H; subst; [congruence | assumption].
Qed.

Lemma strip_blank (s : str) : blank s -> strip s = [].
Proof.
  intros H. unfold strip, strip_by, rstrip_by, lstrip_by.
  rewrite (dropwhile_all _ H). reflexivity.
Qed.

Lemma strip_has_text (s : str) : has_text s -> nonempty (strip s) = true.
Proof.
  intros H. unfold strip, strip_by, rstrip_by, lstrip_by.
  destruct (dropwhile_some _ H) as (c & s' & -> & Hc).
  destruct (@dropwhile_some is_space (rev (c :: s'))) as (c' & s'' & -> & _).
  - apply Exists_exists. exists c. split; [|exact Hc].
    apply in_rev. rewrite rev_involutive. left. reflexivity.
  - destruct (rev (c' :: s'')) eqn:E; [|reflexivity].
    apply (f_equal (@length _)) in E. rewrite length_rev in E. discriminate.
Qed.

Lemma splitlines_from_cons (cur : str) (c : char) (rest : str) :
  splitlines_from cur (c :: rest)
  = if is_linebreak c then rev cur :: splitlines_from [] (after_break c rest)
    else splitlines_from (c :: cur) rest.
Proof.
  simpl. destruct (is_linebreak c); [|reflexivity].
  unfold after_break. destruct rest as [|d rest']; [reflexivity|].
  destruct ((c =? CR) && (d =? NL))%N; reflexivity.
Qed.

Lemma after_break_length (c : char) (rest : str) :
  length (after_break c rest) <= length rest.
Proof.
  unfold after_break. destruct rest as [|d rest']; [lia|].
  destruct ((c =? CR) && (d =? NL))%N; simpl; lia.
Qed.

Lemma after_break_app (c : char) (a b : str) :
  a <> [] -> after_break c (a ++ b) = after_break c a ++ b.
Proof.
  destruct a as [|d a]; [contradiction|]. intros _. simpl.
  destruct ((c =? CR) && (d =? NL))%N; reflexivity.
Qed.

(** Induction along the way [splitlines] reads a text. *)
Lemma splitlines_ind (P : str -> Prop) :
  P [] ->
  (forall c rest, is_linebreak c = true -> P (after_break c rest) -> P (c :: rest)) ->
  (forall c rest, is_linebreak c = false -> P rest -> P (c :: rest)) ->
  forall s, P s.
Proof.
  intros Hnil Hbreak Hchar s.
  assert (H : forall n s, length s <= n -> P s).
  { induction n as [|n IH]; intros [|c rest] Hlen; try exact Hnil.
    - simpl in Hlen. lia.
    - simpl in Hlen. destruct (is_linebreak c) eqn:E.
      + apply Hbreak; [exact E|]. apply IH.
        pose proof (after_break_length c rest). lia.
      + apply Hchar; [exact E|]. apply IH. lia. }
  apply (H (length s)). lia.
Qed.

Lemma after_break_not_cr (c : char) (rest : str) :
  c <> CR -> after_break c rest = rest.
Proof.
  intros H. unfold after_break. destruct rest as [|d rest']; [reflexivity|].
  destruct (c =? CR)%N eqn:E; [apply N.eqb_eq in E; contradiction | reflexivity].
Qed.

Lemma after_break_nl_singleton (c : char) (b : str) :
  after_break c (NL :: b) = if (c =? CR)%N then b else NL :: b.
Proof. unfold after_break. rewrite N.eqb_refl, andb_true_r. reflexivity. Qed.

Lemma splitlines_from_nl (cur b : str) :
  splitlines_from cur (NL :: b) = rev cur :: splitlines_from [] b.
Proof.
  rewrite splitlines_from_cons. change (is_linebreak NL) with true. cbv iota.
  rewrite after_break_not_cr; [reflexivity | discriminate].
Qed.

(** A line feed ends the line being read, whatever comes before it. *)
Lemma splitlines_from_app_nl (b a : str) :
  forall cur,
    splitlines_from cur (a ++ NL :: b)
    = splitlines_from cur (a ++ [NL]) ++ splitlines_from [] b.
Proof.
  induction a as [|c rest Hc IH|c rest Hc IH] using splitlines_ind; intros cur.
  - cbn [app]. rewrite !splitlines_from_nl. reflexivity.
  - cbn [app]. rewrite !splitlines_from_cons, Hc.
    destruct rest as [|d rest].
    + cbn [app]. rewrite !after_break_nl_singleton.
      destruct (c =? CR)%N; [reflexivity|].
      cbn [app]. f_equal. apply (IH []).
    + rewrite !after_break_app by discriminate.
      cbn [app]. f_equal. apply IH.
  - cbn [app]. rewrite !splitlines_from_cons, Hc. apply IH.
Qed.

Lemma nonblank_nil : nonempty (strip []) = false.
Proof. reflexivity. Qed.

(** A final line feed adds no non-blank line. *)
Lemma splitlines_from_final_nl (a : str) :
  forall cur,
    filter (fun l => nonempty (strip l)) (splitlines_from cur (a ++ [NL]))
    = filter (fun l => nonempty (strip l)) (splitlines_from cur a).
Proof.
  induction a as [|c rest Hc IH|c rest Hc IH] using splitlines_ind; intros cur.
  - cbn [app]. rewrite splitlines_from_nl. destruct cur; reflexivity.
  - cbn [app]. rewrite !splitlines_from_cons, Hc.
    destruct rest as [|d rest].
    + change (after_break c []) with (@nil char) in IH |- *.
      cbn [app] in IH |- *. rewrite after_break_nl_singleton.
      destruct (c =? CR)%N; [reflexivity|].
      cbn [filter]. rewrite (IH []). reflexivity.
    + rewrite after_break_app by discriminate.
      cbn [filter]. rewrite IH. reflexivity.
  - cbn [app]. rewrite !splitlines_from_cons, Hc. apply IH.
Qed.

Lemma blank_rev (s : str) : blank s -> blank (rev s).
Proof. unfold blank. rewrite !Forall_forall. intros H c Hc. apply H, in_rev, Hc. Qed.

Lemma after_break_blank (c : char) (rest : str) :
  blank rest -> blank (after_break c rest).
Proof.
  unfold after_break. destruct rest as [|d rest']; [auto|].
  destruct ((c =? CR) && (d =? NL))%N; [|auto].
  intros H. inversion H. assumption.
Qed.

(** A blank text has no non-blank line. *)
Lemma splitlines_from_blank (s : str) :
  blank s -> forall cur, blank cur ->
  filter (fun l => nonempty (strip l)) (splitlines_from cur s) = [].
Proof.
  induction s as [|c rest Hc IH|c rest Hc IH] using splitlines_ind;
    intros Hs cur Hcur.
  - simpl. destruct cur as [|x cur]; [reflexivity|].
    cbn [filter]. rewrite (strip_blank (blank_rev Hcur)). reflexivity.
  - rewrite splitlines_from_cons, Hc. cbn [filter].
    rewrite (strip_blank (blank_rev Hcur)). cbn [nonempty].
    inversion Hs; subst. apply IH; [apply after_break_blank; assumption | constructor].
  - rewrite splitlines_from_cons, Hc. inversion Hs; subst.
    apply IH; [assumption | constructor; assumption].
Qed.

Lemma has_text_app (a b : str) : has_text (a ++ b) <-> has_text a \/ has_text b.
Proof. apply Exists_app. Qed.

Lemma has_text_rev (s : str) : has_text s -> has_text (rev s).
Proof.
  unfold has_text. rewrite !Exists_exists. intros (c & Hc & H).
  exists c. split; [apply in_rev; rewrite rev_involutive|]; assumption.
Qed.

Lemma after_break_has_text (c : char) (rest : str) :
  has_text rest -> has_text (after_break c rest).
Proof.
  unfold after_break. destruct rest as [|d rest']; [auto|].
  destruct ((c =? CR) && (d =? NL))%N eqn:E; [|auto].
  apply andb_true_iff in E as [_ E]. apply N.eqb_eq in E. subst d.
  intros H. inversion H as [? ? Hd|]; subst; [discriminate Hd | assumption].
Qed.

(** A text with a non-space character has a non-blank line. *)
Lemma splitlines_from_has_text (s : str) :
  forall cur, has_text (rev cur ++ s) ->
  filter (fun l => nonempty (strip l)) (splitlines_from cur s) <> [].
Proof.
  induction s as [|c rest Hc IH|c rest Hc IH] using splitlines_ind; intros cur H.
  - rewrite app_nil_r in H. simpl.
    destruct cur as [|x cur]; [inversion H|].
    cbn [filter]. rewrite (strip_has_text H). discriminate.
  - rewrite splitlines_from_cons, Hc. cbn [filter].
    apply has_text_app in H as [H|H].
    + rewrite (strip_has_text H). discriminate.
    + inversion H as [? ? Hsp|]; subst.
      * apply linebreak_is_space in Hc. congruence.
      * destruct (nonempty (strip (rev cur))); [discriminate|].
        apply (IH []). simpl. apply after_break_has_text. assumption.
  - rewrite splitlines_from_cons, Hc. apply IH.
    simpl. rewrite <- app_assoc. exact H.
Qed.

Lemma nonblank_lines_has_text (s : str) : has_text s -> nonblank_lines s <> [].
Proof. intros H. apply (@splitlines_from_has_text s []). exact H. Qed.

(** The non-blank lines on either side of a blank run between two line
    feeds. *)
Lemma nonblank_lines_separator (g ws rest : str) :
  blank ws ->
  nonblank_lines (g ++ (NL :: ws ++ [NL]) ++ rest)
  = nonblank_lines g ++ nonblank_lines rest.
Proof.
  intros Hws. unfold nonblank_lines, splitlines.
  replace (g ++ (NL :: ws ++ [NL]) ++ rest) with (g ++ NL :: (ws ++ NL :: rest))
    by (simpl; rewrite <- app_assoc; reflexivity).
  rewrite splitlines_from_app_nl, filter_app, splitlines_from_final_nl.
  rewrite splitlines_from_app_nl, filter_app, splitlines_from_final_nl.
  rewrite (splitlines_from_blank Hws); [reflexivity | constructor].
Qed.

(** What the chunk separator [\n\s*\n] consumes. *)
Lemma chunk_separator_shape (w : str) :
  lang NOFLAGS CHUNK_SPLIT_RE w -> exists ws, w = NL :: ws ++ [NL] /\ blank ws.
Proof.
  unfold CHUNK_SPLIT_RE. cbn [cats lang star].
  intros (w1 & w2 & -> & (x & -> & Hx) & w3 & w4 & -> & (wss & -> & Hwss & _)
          & (y & -> & Hy)).
  unfold lit_match in Hx, Hy. simpl in Hx, Hy.
  apply N.eqb_eq in Hx, Hy. subst x y.
  exists (concat wss). split; [reflexivity|].
  induction Hwss as [|w wss (z & -> & Hz) _ IH]; [constructor|].
  simpl. constructor; [|exact IH].
  unfold cls_match, in_items in Hz. simpl in Hz.
  rewrite orb_false_r in Hz. exact Hz.
Qed.

Lemma nonblank_lines_pieces (ms : list (str * rmatched)) (tail : str) :
  Forall (fun gm => lang NOFLAGS CHUNK_SPLIT_RE (mt_text (snd gm))) ms ->
  nonblank_lines (concat (map piece ms) ++ tail)
  = flat_map nonblank_lines (map fst ms ++ [tail]).
Proof.
  induction 1 as [|[g m] ms Hm _ IH]; cbn [map concat flat_map app fst].
  - rewrite app_nil_r. reflexivity.
  - apply chunk_separator_shape in Hm as (ws & Hw & Hws). cbn [snd] in Hw.
    rewrite <- IH. unfold piece at 1. cbn [fst snd].
    rewrite <- !app_assoc. rewrite Hw.
    apply nonblank_lines_separator. exact Hws.
Qed.

(** The non-blank lines of a block are those of its chunks, in order. *)
Lemma nonblank_lines_chunks (block : str) :
  nonblank_lines block = flat_map nonblank_lines (chunks_of block).
Proof.
  unfold chunks_of, re_split. cbv zeta.
  destruct (scan_sound NOFLAGS CHUNK_SPLIT_RE block) as [Hb Hf].
  rewrite Hb at 1. apply nonblank_lines_pieces. exact Hf.
Qed.

(* ================================================================== *)
(** * Experience: every chunk with a line gives an entry *)
(* ================================================================== *)

Lemma search_from_is_match_here (fl : flags) (r : regex) (rest : str) :
  forall pos prev m,
    search_from fl r pos prev rest = Some m ->
    exists pos' prev' rest', match_here fl r pos' prev' rest' = Some m.
Proof.
  induction rest as [|c rest IH]; intros pos prev m; simpl.
  - destruct (match_here fl r pos prev []) eqn:E; [|discriminate].
    intros H. injection H as <-. eauto.
  - destruct (match_here fl r pos prev (c :: rest)) eqn:E.
    + intros H. injection H as <-. eauto.
    + apply IH.
Qed.

Lemma rmatch_cat_sound (fl : flags) (a b : regex) (k : mstate -> option mstate)
    (s e : mstate) :
  rmatch fl (Cat a b) k s = Some e -> exists s1, rmatch fl b k s1 = Some e.
Proof.
  change (rmatch fl (Cat a b) k s) with (rmatch fl a (rmatch fl b k) s).
  intros H. apply rmatch_sound in H as (w & s1 & _ & _ & H). eauto.
Qed.

Lemma rmatch_grp_cap (fl : flags) (n : nat) (c : regex) (s e : mstate) :
  rmatch fl (Grp n c) Some s = Some e ->
  exists g, cap_lookup n (m_caps e) = Some g.
Proof.
  change (rmatch fl (Grp n c) Some s)
    with (rmatch fl c
            (fun s' => Some (set_cap n (firstn (m_pos s' - m_pos s) (m_rest s)) s')) s).
  intros H. apply rmatch_sound in H as (w & s1 & _ & _ & H).
  injection H as <-. simpl. rewrite Nat.eqb_refl. eauto.
Qed.

(** A match of the "at Company" pattern has its group 1. *)
Lemma at_match_has_group (chunk : str) (m : rmatched) :
  re_search NOFLAGS AT_RE chunk = Some m -> exists g, group 1 m = Some g.
Proof.
  unfold re_search. intros H.
  apply search_from_is_match_here in H as (pos & prev & rest & H).
  unfold match_here in H.
  destruct (rmatch NOFLAGS AT_RE Some _) as [e|] eqn:E; [|discriminate].
  injection H as <-. unfold group. cbn [mt_caps].
  unfold AT_RE in E. cbn [cats] in E.
  apply rmatch_cat_sound in E as [s1 E].
  apply rmatch_cat_sound in E as [s2 E].
  apply rmatch_grp_cap in E. exact E.
Qed.

(** A greedy [*] followed by nothing never fails. *)
Lemma star_some (fl : flags) (a : regex) (s : mstate) :
  rmatch fl (star a) Some s <> None.
Proof.
  unfold star. cbn [rmatch]. rewrite rep_rounds_unfold. cbv zeta.
  destruct (match length (m_rest s) with 0 => None | S _ => _ end); [discriminate|].
  cbn [Nat.leb]. discriminate.
Qed.

(** The separator pattern matches where a hyphen or pipe stands. *)
Lemma role_split_at_separator (c : char) (t : str) (pos : nat) (prev : option char) :
  (c =? ch "-")%N || (c =? ch "|")%N = true ->
  match_here NOFLAGS ROLE_SPLIT_RE pos prev (c :: t) <> None.
Proof.
  intros Hc.
  assert (Hrm : rmatch NOFLAGS ROLE_SPLIT_RE Some
                  {| m_pos := pos; m_prev := prev; m_rest := c :: t; m_caps := [] |}
                <> None).
  { unfold ROLE_SPLIT_RE. cbn [cats]. 
    change (rmatch NOFLAGS (Cat (star SPACE_) ?r) Some ?s) with (rmatch NOFLAGS (star SPACE_) (rmatch NOFLAGS r Some) s).
    unfold star at 1. cbn [rmatch]. rewrite rep_rounds_unfold. cbv zeta.
    cbn [m_rest length below].
    assert (Hsp : cls_match NOFLAGS false [CSpace] c = false).
    { apply orb_true_iff in Hc as [E|E]; apply N.eqb_eq in E; subst c; vm_compute; reflexivity. }
    unfold SPACE_ at 1. cbn [rmatch m_rest]. rewrite Hsp.
    assert (Hsep : cls_match NOFLAGS false (chars_of "-|") c = true).
    { apply orb_true_iff in Hc as [E|E]; apply N.eqb_eq in E; subst c; vm_compute; reflexivity. }
    change (0 <=? 0) with true. cbv iota. rewrite Hsep. apply star_some. }
  unfold match_here.
  destruct (rmatch NOFLAGS ROLE_SPLIT_RE Some _); [discriminate | contradiction].
Qed.

(** A search finds a match when the pattern matches somewhere. *)
Lemma search_from_complete (fl : flags) (r : regex) (gap rest : str) :
  (forall pos prev, match_here fl r pos prev rest <> None) ->
  forall pos prev, search_from fl r pos prev (gap ++ rest) <> None.
Proof.
  intros H. induction gap as [|c gap IH]; intros pos prev.
  - cbn [app]. destruct rest; cbn [search_from];
      (destruct (match_here fl r pos prev _) eqn:E; [discriminate | exfalso; exact (H _ _ E)]).
  - cbn [app search_from]. destruct (match_here fl r pos prev _); [discriminate|]. apply IH.
Qed.

Lemma mem_split (c : char) (s : str) :
  mem c s = true -> exists a b, s = a ++ c :: b.
Proof.
  unfold mem. intros H. apply existsb_exists in H as (x & Hin & E).
  apply N.eqb_eq in E. subst x. apply in_split in Hin. exact Hin.
Qed.

Lemma scan_from_found (fuel : nat) (fl : flags) (r : regex) (pos : nat)
    (prev : option char) (rest pre : str) :
  search_from fl r pos prev rest <> None ->
  fst (scan_from (S fuel) fl r pos prev rest pre) <> [].
Proof.
  intros H. cbn [scan_from].
  destruct (search_from fl r pos prev rest) as [m|]; [|contradiction].
  cbv zeta. destruct (mt_start m <? mt_end m).
  - destruct (scan_from fuel fl r _ _ _ _). discriminate.
  - destruct (skipn _ rest); [discriminate|].
    destruct (scan_from fuel fl r _ _ _ _). discriminate.
Qed.

(** A line with a hyphen or pipe splits into at least two parts. *)
Lemma role_split_parts (first : str) :
  mem (ch "-") first || mem (ch "|") first = true ->
  (1 <? length (re_split NOFLAGS ROLE_SPLIT_RE first)) = true.
Proof.
  intros Hm.
  assert (Hs : search_from NOFLAGS ROLE_SPLIT_RE 0 None first <> None).
  { apply orb_true_iff in Hm as [Hm|Hm]; apply mem_split in Hm as (a & b & ->);
      apply search_from_complete; intros pos prev;
      apply role_split_at_separator; vm_compute; reflexivity. }
  unfold re_split, scan. cbv zeta.
  pose proof (@scan_from_found (length first) NOFLAGS ROLE_SPLIT_RE 0 None first [] Hs) as Hne.
  rewrite length_app, length_map. cbn [length].
  destruct (fst (scan_from _ _ _ _ _ _ _)); [contradiction|].
  cbn [length]. apply Nat.ltb_lt. lia.
Qed.

(** The role and company a chunk gives: the role is [role_of]. *)
Lemma exp_role_company_ok (chunk first : str) :
  exists company,
    exp_role_company chunk first = Ok (role_of chunk first, company).
Proof.
  unfold exp_role_company, role_of.
  destruct (re_search NOFLAGS AT_RE chunk) as [m|] eqn:E.
  - destruct (at_match_has_group _ E) as [g Hg].
    unfold group_str. rewrite Hg. cbn [bind]. eauto.
  - destruct (mem (ch "-") first || mem (ch "|") first) eqn:Em; [|eauto].
    cbv zeta. pose proof (role_split_parts _ Em) as Hp.
    destruct (re_split NOFLAGS ROLE_SPLIT_RE first) as [|p0 [|p1 ps]];
      try discriminate Hp.
    cbn [length Nat.ltb Nat.leb index nth_error bind hd]. eauto.
Qed.

Lemma exp_next_line_company_ok (lines : list str) (company : pyval) :
  exists c, exp_next_line_company lines company = Ok c.
Proof.
  unfold exp_next_line_company.
  destruct (negb (truthy company)); [|eauto].
  destruct lines as [|l0 [|l1 ls]]; cbn [length Nat.ltb Nat.leb]; eauto.
  cbn [index nth_error bind].
  destruct (re_found NOFLAGS CAPITALIZED_RE l1); [|eauto].
  destruct (_ && _); eauto.
Qed.

Lemma exp_dates_ok (chunk : str) : exists se, exp_dates chunk = Ok se.
Proof.
  unfold exp_dates. cbv zeta.
  destruct (re_findall1 RE_I DATE_RE chunk) as [|d0 [|d1 ds]];
    cbn [nonempty length Nat.ltb Nat.leb index nth_error bind]; eauto.
Qed.

(** A chunk without a non-blank line adds nothing; any other chunk adds one
    entry, whose role is read from the chunk's first non-blank line. *)
Lemma exp_entry_spec (chunk : str) :
  (chunk_lines EXP_MARKERS chunk = [] /\ exp_entry chunk = Ok None) \/
  (exists first rest d,
      chunk_lines EXP_MARKERS chunk = first :: rest /\
      exp_entry chunk = Ok (Some (PDict d)) /\ role_from chunk first d).
Proof.
  unfold exp_entry. cbv zeta.
  destruct (chunk_lines EXP_MARKERS chunk) as [|first rest] eqn:El.
  - left. auto.
  - right. exists first, rest.
    cbn [nonempty negb index nth_error bind].
    destruct (exp_role_company_ok chunk first) as (company & ->).
    cbn [bind fst snd].
    destruct (exp_next_line_company_ok (first :: rest) company) as [c ->].
    cbn [bind].
    destruct (exp_dates_ok chunk) as [se ->]. cbn [bind].
    eexists. split; [reflexivity|]. split; [reflexivity|].
    unfold role_from.
    assert (Hget : forall r c1 c2 c3 c4 c5,
               dict_get (u "role")
                 [(u "role", PStr r); (u "company", c1); (u "start_date", c2);
                  (u "end_date", c3); (u "location", c4);
                  (u "responsibilities", c5)] = Some (PStr r))
      by (intros; vm_compute; reflexivity).
    apply Hget.
Qed.

Lemma exp_entry_ok (chunk : str) : exists r, exp_entry chunk = Ok r.
Proof.
  destruct (exp_entry_spec chunk) as [[_ ->]|(f & r & d & _ & -> & _)]; eauto.
Qed.

Lemma collect_flat_map {A} (xs : list A) (body : A -> exc (option pyval))
    (acc : list pyval) :
  (forall x, In x xs -> exists r, body x = Ok r) ->
  fst (collect xs body acc)
  = acc ++ flat_map (fun x => match body x with Ok (Some e) => [e] | _ => [] end) xs.
Proof.
  revert acc. induction xs as [|x xs IH]; intros acc Hb; simpl.
  - rewrite app_nil_r. reflexivity.
  - destruct (Hb x (or_introl eq_refl)) as [[v|] ->].
    + rewrite IH by (intros; apply Hb; right; assumption).
      rewrite <- app_assoc. reflexivity.
    + apply IH. intros. apply Hb. right. assumption.
Qed.

(** [extract_experience] returns the entries of the chunks, in order. *)
Lemma extract_experience_eq (text : str) :
  extract_experience text = Ok (flat_map exp_entry_of (experience_chunks text)).
Proof.
  unfold extract_experience. rewrite returning_fst.
  rewrite collect_flat_map by (intros; apply exp_entry_ok). reflexivity.
Qed.

Lemma chunk_lines_nonblank (chars chunk : str) :
  chunk_lines chars chunk = map (strip_chars chars) (nonblank_lines chunk).
Proof. reflexivity. Qed.

Lemma map_flat_map_lines {A B C} (f : B -> C) (g : A -> list B) (l : list A) :
  map f (flat_map g l) = flat_map (fun x => map f (g x)) l.
Proof.
  induction l as [|x l IH]; simpl; [reflexivity|].
  rewrite map_app, IH. reflexivity.
Qed.

(** The lines of a block, markers stripped, are those of its chunks. *)
Lemma chunk_lines_chunks (chars block : str) :
  chunk_lines chars block = flat_map (chunk_lines chars) (chunks_of block).
Proof.
  rewrite chunk_lines_nonblank, nonblank_lines_chunks, map_flat_map_lines.
  reflexivity.
Qed.

Lemma exp_entries_length (chunks : list str) :
  length (flat_map exp_entry_of chunks)
  = length (filter (fun c => nonempty (chunk_lines EXP_MARKERS c)) chunks).
Proof.
  induction chunks as [|c chunks IH]; [reflexivity|].
  cbn [flat_map filter]. rewrite length_app, IH. unfold exp_entry_of at 1.
  destruct (exp_entry_spec c) as [[-> ->]|(f & r & d & -> & -> & _)]; reflexivity.
Qed.

(** The first entry comes from the first chunk that has a line, and from its
    first line. *)
Lemma exp_entries_first (chunks : list str) (first : str) (rest : list str) :
  flat_map (chunk_lines EXP_MARKERS) chunks = first :: rest ->
  exists d chunk,
    hd_error (flat_map exp_entry_of chunks) = Some (PDict d) /\
    hd_error (filter (fun c => nonempty (chunk_lines EXP_MARKERS c)) chunks)
    = Some chunk /\
    hd_error (chunk_lines EXP_MARKERS chunk) = Some first /\
    role_from chunk first d.
Proof.
  induction chunks as [|c chunks IH]; [discriminate|].
  cbn [flat_map filter]. unfold exp_entry_of at 1.
  destruct (exp_entry_spec c) as [[E ->]|(f & r & d & E & -> & Hrole)]; rewrite E.
  - exact IH.
  - cbn [app nonempty hd_error]. intros H. injection H as -> _.
    exists d, c. rewrite E. auto.
Qed.

(* ================================================================== *)
(** * Experience: the block has text when the document has *)
(* ================================================================== *)

Lemma is_alpha_iff (c : char) :
  is_ascii_alpha c = true <-> (65 <= c <= 90 \/ 97 <= c <= 122)%N.
Proof.
  unfold is_ascii_alpha, is_ascii_upper, is_ascii_lower, between.
  rewrite !orb_true_iff, !andb_true_iff, !N.leb_le. tauto.
Qed.

Lemma not_space_of_bounds (x : char) :
  (65 <= x <= 90 \/ 97 <= x <= 122 \/ x = 304 \/ x = 305 \/ x = 383 \/ x = 8490)%N ->
  is_space x = false.
Proof.
  intros H. apply not_true_is_false. rewrite is_space_iff. lia.
Qed.

(** A character that matches a letter of the pattern is not white space. *)
Lemma lit_match_letter (fl : flags) (c x : char) :
  is_ascii_alpha c = true -> lit_match fl c x = true -> is_space x = false.
Proof.
  intros Hc. apply is_alpha_iff in Hc. unfold lit_match, case_variants.
  destruct (icase fl).
  - destruct (is_ascii_upper x) eqn:Eu.
    { intros _. unfold is_ascii_upper, between in Eu.
      apply andb_true_iff in Eu as [H1 H2]. apply N.leb_le in H1, H2.
      apply not_space_of_bounds. lia. }
    destruct (is_ascii_lower x) eqn:El.
    { intros _. unfold is_ascii_lower, between in El.
      apply andb_true_iff in El as [H1 H2]. apply N.leb_le in H1, H2.
      apply not_space_of_bounds. lia. }
    destruct ((x =? 304) || (x =? 305))%N eqn:E1.
    { intros _. apply orb_true_iff in E1 as [E|E]; apply N.eqb_eq in E;
        apply not_space_of_bounds; lia. }
    destruct (x =? 383)%N eqn:E2.
    { intros _. apply N.eqb_eq in E2. apply not_space_of_bounds. lia. }
    destruct (x =? 8490)%N eqn:E3.
    { intros _. apply N.eqb_eq in E3. apply not_space_of_bounds. lia. }
    simpl. rewrite orb_false_r. intros H. apply N.eqb_eq in H. subst x.
    apply not_space_of_bounds. lia.
  - intros H. apply N.eqb_eq in H. subst x. apply not_space_of_bounds. lia.
Qed.

Lemma lang_lits_head (fl : flags) (c : char) (s w : str) :
  lang fl (lits (c :: s)) w -> exists x w', w = x :: w' /\ lit_match fl c x = true.
Proof.
  destruct s as [|c' s]; cbn [lits lang].
  - intros (x & -> & Hx). eauto.
  - intros (w1 & w2 & -> & (x & -> & Hx) & _). simpl. eauto.
Qed.

Lemma lang_word_has_text (fl : flags) (h : string) (w : str) :
  starts_with_letter h -> lang fl (word h) w -> has_text w.
Proof.
  intros (c & s & Hu & Hc). unfold word. rewrite Hu. intros H.
  apply lang_lits_head in H as (x & w' & -> & Hx).
  constructor. eapply lit_match_letter; eassumption.
Qed.

Lemma lang_words_has_text (fl : flags) (hs : list string) (w : str) :
  hs <> [] -> Forall starts_with_letter hs -> lang fl (words hs) w -> has_text w.
Proof.
  unfold words. intros Hne Hall. induction Hall as [|h hs Hh Hhs IH].
  - contradiction.
  - destruct hs as [|h' hs]; cbn [map alts lang].
    + apply lang_word_has_text. exact Hh.
    + intros [H|H]; [eapply lang_word_has_text; eassumption|].
      apply IH; [discriminate | exact H].
Qed.

(** A section block starts with its header, so it has text. *)
Lemma section_block_has_text (hs ts : list string) (text : str) (m : rmatched) :
  hs <> [] -> Forall starts_with_letter hs ->
  re_search RE_S_I (section_re hs ts) text = Some m -> has_text (group0 m).
Proof.
  intros Hne Hall H. unfold re_search in H.
  apply search_from_sound in H as (gap & after & _ & Hl & _).
  unfold section_re in Hl. cbn [cats] in Hl.
  destruct Hl as (w1 & w2 & Hw & Hw1 & _).
  unfold group0. rewrite Hw. apply has_text_app. left.
  eapply lang_words_has_text; eassumption.
Qed.

Lemma exp_headers_letters : Forall starts_with_letter EXP_HEADERS.
Proof.
  unfold EXP_HEADERS. repeat constructor;
    (eexists _, _; split; [vm_compute; reflexivity | reflexivity]).
Qed.

Lemma experience_block_nonblank (text : str) :
  nonblank_lines text <> [] ->
  nonblank_lines (block_or text EXP_SECTION_RE text) <> [].
Proof.
  intros H. unfold block_or.
  destruct (re_search RE_S_I EXP_SECTION_RE text) as [m|] eqn:E; [|exact H].
  apply nonblank_lines_has_text. unfold EXP_SECTION_RE in E.
  eapply (@section_block_has_text EXP_HEADERS);
    [discriminate | apply exp_headers_letters | exact E].
Qed.

(** C9 (as amended). For every text with at least one non-blank line,
    [extract_experience] returns a non-empty list with one entry for each
    blank-line-delimited chunk that has a non-blank line, with no further
    test. In a text with no experience header the first entry comes from the
    first chunk that has a non-blank line, and its role is read from the
    first non-blank line of the text, markers stripped: when nothing in that
    chunk reads as "at Company" and the line has a hyphen or pipe, the role
    is the text before the line's first such separator, stripped; in every
    other case the role is the line. *)
Theorem extract_experience_nonempty :
  forall text,
    (exists l, In l (splitlines text) /\ nonempty (strip l) = true) ->
    exists ex,
      extract_experience text = Ok ex /\ ex <> [] /\
      length ex
      = length (filter (fun c => nonempty (chunk_lines EXP_MARKERS c))
                       (experience_chunks text)) /\
      (re_found RE_S_I (words EXP_HEADERS) text = false ->
       exists d chunk first,
         hd_error ex = Some (PDict d) /\
         hd_error (filter (fun c => nonempty (chunk_lines EXP_MARKERS c))
                          (experience_chunks text)) = Some chunk /\
         hd_error (chunk_lines EXP_MARKERS chunk) = Some first /\
         hd_error (chunk_lines EXP_MARKERS text) = Some first /\
         dict_get (u "role") d
         = Some (PStr (match re_search NOFLAGS AT_RE chunk with
                       | Some _ => first
                       | None =>
                           if mem (ch "-") first || mem (ch "|") first
                           then strip (hd [] (re_split NOFLAGS ROLE_SPLIT_RE
                                                       first))
                           else first
                       end))).
Proof.
  intros text (l & Hl & Hnb).
  assert (Htext : nonblank_lines text <> []).
  { intros Hnil. assert (Hin : In l (nonblank_lines text)).
    { unfold nonblank_lines. apply filter_In. auto. }
    rewrite Hnil in Hin. contradiction. }
  exists (flat_map exp_entry_of (experience_chunks text)).
  split; [apply extract_experience_eq|].
  split; [|split; [apply exp_entries_length|]].
  - pose proof (@experience_block_nonblank text Htext) as Hblock.
    destruct (chunk_lines EXP_MARKERS (block_or text EXP_SECTION_RE text))
      as [|first rest] eqn:El.
    + rewrite chunk_lines_nonblank in El.
      destruct (nonblank_lines (block_or text EXP_SECTION_RE text));
        [contradiction | discriminate].
    + rewrite chunk_lines_chunks in El.
      apply exp_entries_first in El as (d & c & Hd & _).
      unfold experience_chunks. intros Hnil. rewrite Hnil in Hd. discriminate.
  - intros Hnohdr.
    assert (Hb : block_or text EXP_SECTION_RE text = text).
    { unfold EXP_SECTION_RE. apply block_or_no_header. exact Hnohdr. }
    unfold experience_chunks. rewrite Hb.
    destruct (chunk_lines EXP_MARKERS text) as [|first rest] eqn:El.
    + rewrite chunk_lines_nonblank in El.
      destruct (nonblank_lines text); [contradiction | discriminate].
    + rewrite chunk_lines_chunks in El.
      apply exp_entries_first in El as (d & c & Hd & Hc & Hf & Hrole).
      exists d, c, first. auto.
Qed.


(* ================================================================== *)
(** * Personal information *)
(* ================================================================== *)

Lemma personal_info_get (n e p : pyval) :
  dict_get (u "name") [(u "name", n); (u "email", e); (u "phone", p)] = Some n /\
  dict_get (u "email") [(u "name", n); (u "email", e); (u "phone", p)] = Some e /\
  dict_get (u "phone") [(u "name", n); (u "email", e); (u "phone", p)] = Some p.
Proof. repeat split; vm_compute; reflexivity. Qed.

(** The dict [extract_personal_info] returns: the handler's when finding the
    name raised, else the name with the first email and phone matches. *)
Lemma extract_personal_info_cases
    (nlp : str -> exc (list (str * str))) (text : str) :
  (exists e, first_person_name nlp text = Raise e /\
             extract_personal_info nlp text = Ok ALL_ABSENT) \/
  (exists name, first_person_name nlp text = Ok name /\
                extract_personal_info nlp text
                = Ok [(u "name", name);
                      (u "email",
                       opt_str (option_map group0 (re_search NOFLAGS EMAIL_RE text)));
                      (u "phone",
                       opt_str (option_map group0 (re_search NOFLAGS PHONE_RE text)))]).
Proof.
  unfold extract_personal_info.
  destruct (first_person_name nlp text) as [name|e].
  - right. exists name. split; reflexivity.
  - left. exists e. split; reflexivity.
Qed.

(** X1. When the first non-blank line of the text has at most four words and
    starts with an upper-case character ([str.isupper], of any script), the
    name is that line, whatever the entity recogniser would do: it is not
    consulted. *)
Theorem name_is_short_capitalized_first_line :
  forall nlp text first rest c cs,
    stripped_lines text = first :: rest ->
    length (split_ws first) <= 4 ->
    first = c :: cs -> isupper c = true ->
    first_person_name nlp text = Ok (PStr first) /\
    exists d, extract_personal_info nlp text = Ok d /\
              dict_get (u "name") d = Some (PStr first).
Proof.
  intros nlp text first rest c cs Hl Hw Hf Hu.
  assert (Hn : first_person_name nlp text = Ok (PStr first)).
  { unfold first_person_name. rewrite Hl. cbv zeta.
    cbn [nonempty negb index nth_error bind].
    apply Nat.leb_le in Hw. rewrite Hw.
    rewrite Hf at 1. cbn [index nth_error bind]. rewrite Hu. reflexivity. }
  split; [exact Hn|].
  destruct (extract_personal_info_cases nlp text)
    as [(e & He & _)|(name & Hname & ->)]; [congruence|].
  eexists. split; [reflexivity|].
  rewrite Hn in Hname. injection Hname as <-. apply personal_info_get.
Qed.

(** X2. When the first non-blank line is not name-like (more than four
    words, or not starting with an upper-case character, [str.isupper], of
    any script) and the entity recogniser raises, the handler of
    [extract_personal_info] returns name, email and phone all [None]: an
    email or phone present in the text is not reported. *)
Theorem personal_info_lost_when_recogniser_fails :
  forall nlp text first rest e,
    stripped_lines text = first :: rest ->
    (4 < length (split_ws first) \/
     exists c cs, first = c :: cs /\ isupper c = false) ->
    nlp (join (u " ") (firstn 6 (first :: rest))) = Raise e ->
    extract_personal_info nlp text
    = Ok [(u "name", PNone); (u "email", PNone); (u "phone", PNone)].
Proof.
  intros nlp text first rest e Hl Hshape Hnlp.
  assert (Hn : first_person_name nlp text = Raise e).
  { unfold first_person_name. rewrite Hl. cbv zeta.
    cbn [nonempty negb index nth_error bind]. rewrite Hnlp.
    destruct Hshape as [Hw|(c & cs & Hf & Hu)].
    - apply Nat.leb_gt in Hw. rewrite Hw. reflexivity.
    - destruct (length (split_ws first) <=? 4); [|reflexivity].
      rewrite Hf at 1. cbn [index nth_error bind]. rewrite Hu. reflexivity. }
  destruct (extract_personal_info_cases nlp text)
    as [(e' & _ & ->)|(name & Hname & _)]; [reflexivity | congruence].
Qed.

Lemma ok_inj {A} (a b : A) : Ok a = Ok b -> a = b.
Proof. congruence. Qed.

Lemma re_search_sound (fl : flags) (r : regex) (s : str) (m : rmatched) :
  re_search fl r s = Some m ->
  lang fl r (group0 m) /\ exists before after, s = before ++ group0 m ++ after.
Proof.
  unfold re_search. intros H.
  apply search_from_sound in H as (gap & after & Hs & Hl & _).
  split; [exact Hl|]. exists gap, after. exact Hs.
Qed.

(** What a repeated character class consumes. *)
Lemma lang_rep_cls (fl : flags) (greedy : bool) (lo : nat) (hi : option nat)
    (neg : bool) (items : list citem) (w : str) :
  lang fl (Rep greedy lo hi (Cls neg items)) w ->
  Forall (fun x => cls_match fl neg items x = true) w /\ lo <= length w.
Proof.
  cbn [lang]. intros (ws & -> & Hws & Hlo).
  revert lo Hlo. induction Hws as [|w ws (x & -> & Hx) _ IH]; intros lo Hlo.
  - split; [constructor | exact Hlo].
  - destruct (IH (pred lo)) as [H1 H2]; [simpl in Hlo; lia|].
    simpl. split; [constructor; assumption | lia].
Qed.

Lemma lit_match_noflags (c x : char) : lit_match NOFLAGS c x = true -> x = c.
Proof. unfold lit_match. simpl. apply N.eqb_eq. Qed.

Lemma email_local_items :
  [az; AZ; d09] ++ chars_of ".+_-"
  = [CRange 97 122; CRange 65 90; CRange 48 57;
     CChar 46; CChar 43; CChar 95; CChar 45]%N.
Proof. vm_compute. reflexivity. Qed.

Lemma email_domain_items :
  [az; AZ; d09] ++ chars_of "._-"
  = [CRange 97 122; CRange 65 90; CRange 48 57; CChar 46; CChar 95; CChar 45]%N.
Proof. vm_compute. reflexivity. Qed.

Lemma email_local_char (x : char) :
  cls_match NOFLAGS false ([az; AZ; d09] ++ chars_of ".+_-") x = true ->
  x <> ch "@" /\ is_space x = false.
Proof.
  rewrite email_local_items. unfold cls_match, in_items.
  cbn [icase NOFLAGS xorb existsb citem_in]. unfold between.
  rewrite !orb_true_iff, !andb_true_iff, !N.leb_le, !N.eqb_eq. intros H.
  split.
  - change (ch "@") with 64%N. lia.
  - apply not_true_is_false. rewrite is_space_iff. lia.
Qed.

Lemma email_domain_char (x : char) :
  cls_match NOFLAGS false ([az; AZ; d09] ++ chars_of "._-") x = true ->
  x <> ch "@" /\ is_space x = false.
Proof.
  rewrite email_domain_items. unfold cls_match, in_items.
  cbn [icase NOFLAGS xorb existsb citem_in]. unfold between.
  rewrite !orb_true_iff, !andb_true_iff, !N.leb_le, !N.eqb_eq. intros H.
  split.
  - change (ch "@") with 64%N. lia.
  - apply not_true_is_false. rewrite is_space_iff. lia.
Qed.

Lemma email_tld_char (x : char) :
  cls_match NOFLAGS false [az; AZ] x = true -> is_ascii_alpha x = true.
Proof.
  change [az; AZ] with [CRange 97 122; CRange 65 90]%N.
  unfold cls_match, in_items. cbn [icase NOFLAGS xorb existsb citem_in].
  unfold is_ascii_alpha, is_ascii_upper, is_ascii_lower.
  rewrite !orb_true_iff. intuition discriminate.
Qed.

Lemma nonempty_of_length {A} (l : list A) : 1 <= length l -> l <> [].
Proof. destruct l; simpl; [lia | discriminate]. Qed.

Lemma lang_email_form (e : str) : lang NOFLAGS EMAIL_RE e -> email_form e.
Proof.
  unfold EMAIL_RE. cbn [cats]. unfold plus, at_least.
  intros (w1 & r1 & -> & H1 & w2 & r2 & -> & (x2 & -> & Hx2)
          & w3 & r3 & -> & H3 & w4 & w5 & -> & (x4 & -> & Hx4) & H5).
  apply lang_rep_cls in H1 as [H1 L1].
  apply lang_rep_cls in H3 as [H3 L3].
  apply lang_rep_cls in H5 as [H5 L5].
  apply lit_match_noflags in Hx2, Hx4. subst x2 x4.
  assert (S1 : Forall (fun c => c <> ch "@" /\ is_space c = false) w1).
  { eapply Forall_impl; [|exact H1]. intros c. apply email_local_char. }
  assert (S3 : Forall (fun c => c <> ch "@" /\ is_space c = false) w3).
  { eapply Forall_impl; [|exact H3]. intros c. apply email_domain_char. }
  assert (S5 : Forall (fun c => is_ascii_alpha c = true) w5).
  { eapply Forall_impl; [|exact H5]. intros c. apply email_tld_char. }
  exists w1, w3, w5. split; [reflexivity|].
  split; [apply nonempty_of_length; exact L1|].
  split; [apply nonempty_of_length; exact L3|].
  split; [exact L5|]. split; [exact S5|].
  rewrite Forall_forall in S1, S3.
  split; [intros Hin; apply S1 in Hin; tauto|].
  split; [intros Hin; apply S3 in Hin; tauto|].
  rewrite !Forall_app. repeat split.
  - apply Forall_forall. intros c Hc. apply S1, Hc.
  - repeat constructor.
  - apply Forall_forall. intros c Hc. apply S3, Hc.
  - repeat constructor.
  - eapply Forall_impl; [|exact S5]. intros c Hc. apply is_alpha_iff in Hc.
    apply not_space_of_bounds. lia.
Qed.

(** X3. An email that [extract_personal_info] reports is a piece of the
    text of the form local@domain.tld: non-empty local part and domain
    without an at sign, a top level of at least two ASCII letters, and no
    white space anywhere. *)
Theorem reported_email_is_an_address_of_the_text :
  forall nlp text d e,
    extract_personal_info nlp text = Ok d ->
    dict_get (u "email") d = Some (PStr e) ->
    (exists before after, text = before ++ e ++ after) /\ email_form e.
Proof.
  intros nlp text d e Hd He.
  destruct (extract_personal_info_cases nlp text)
    as [(ex & _ & H)|(name & _ & H)]; rewrite H in Hd; apply ok_inj in Hd;
    subst d.
  - vm_compute in He. discriminate He.
  - destruct (personal_info_get name
                (opt_str (option_map group0 (re_search NOFLAGS EMAIL_RE text)))
                (opt_str (option_map group0 (re_search NOFLAGS PHONE_RE text))))
      as (_ & Hget & _).
    rewrite Hget in He.
    destruct (re_search NOFLAGS EMAIL_RE text) as [m|] eqn:E; [|discriminate].
    injection He as <-.
    apply re_search_sound in E as [Hl Hsub].
    split; [exact Hsub | apply lang_email_form; exact Hl].
Qed.

(** X4. A text without an at sign has no email: whatever the recogniser
    does, the email field is [None]. *)
Theorem no_at_sign_no_email :
  forall nlp text d,
    ~ In (ch "@") text ->
    extract_personal_info nlp text = Ok d ->
    dict_get (u "email") d = Some PNone.
Proof.
  intros nlp text d Hat Hd.
  destruct (extract_personal_info_cases nlp text)
    as [(ex & _ & H)|(name & _ & H)]; rewrite H in Hd; apply ok_inj in Hd;
    subst d.
  - vm_compute. reflexivity.
  - destruct (personal_info_get name
                (opt_str (option_map group0 (re_search NOFLAGS EMAIL_RE text)))
                (opt_str (option_map group0 (re_search NOFLAGS PHONE_RE text))))
      as (_ & Hget & _).
    rewrite Hget.
    destruct (re_search NOFLAGS EMAIL_RE text) as [m|] eqn:E; [|reflexivity].
    exfalso. apply Hat.
    apply re_search_sound in E as [Hl (before & after & Hs)].
    apply lang_email_form in Hl as (l & dm & t & He & _).
    rewrite Hs, He. apply in_or_app. right. apply in_or_app. left.
    apply in_or_app. right. left. reflexivity.
Qed.

(* ================================================================== *)
(** * Dicts: assignment and lookup *)
(* ================================================================== *)

Lemma dict_get_set_same (k : str) (v : pyval) (d : dict) :
  dict_get k (dict_set k v d) = Some v.
Proof.
  induction d as [|[k0 v0] d IH]; simpl.
  - rewrite str_eqb_refl. reflexivity.
  - destruct (str_eqb k0 k) eqn:E; simpl; rewrite E; [reflexivity | exact IH].
Qed.

Lemma dict_has_In (k : str) (d : dict) : dict_has k d = true <-> In k (keys d).
Proof.
  unfold dict_has. induction d as [|[k0 v0] d IH]; simpl.
  - split; [discriminate | contradiction].
  - destruct (str_eqb k0 k) eqn:E.
    + apply str_eqb_eq in E. split; auto.
    + apply str_eqb_neq in E. rewrite IH. split; [auto|]. intros [H|H]; tauto.
Qed.

Lemma dict_has_set (k k' : str) (v : pyval) (d : dict) :
  dict_has k (dict_set k' v d) = true <-> k = k' \/ dict_has k d = true.
Proof.
  unfold dict_has. destruct (str_eqb k k') eqn:E.
  - apply str_eqb_eq in E. subst k'. rewrite dict_get_set_same. tauto.
  - apply str_eqb_neq in E. rewrite dict_get_set_other by exact E.
    split; [auto|]. intros [H|H]; [contradiction | exact H].
Qed.

(** Assigning keeps the keys where they are and adds a new key at the end. *)
Lemma keys_dict_set (k : str) (v : pyval) (d : dict) :
  keys (dict_set k v d) = if dict_has k d then keys d else keys d ++ [k].
Proof.
  unfold dict_has, keys. induction d as [|[k0 v0] d IH]; simpl; [reflexivity|].
  destruct (str_eqb k0 k) eqn:E; simpl; [reflexivity|].
  rewrite IH. destruct (dict_get k d); reflexivity.
Qed.

Lemma dict_set_NoDup (k : str) (v : pyval) (d : dict) :
  NoDup (keys d) -> NoDup (keys (dict_set k v d)).
Proof.
  intros H. rewrite keys_dict_set. destruct (dict_has k d) eqn:E; [exact H|].
  assert (Hk : ~ In k (keys d)).
  { intros Hin. apply dict_has_In in Hin. congruence. }
  apply NoDup_rev in H. rewrite <- (rev_involutive (keys d ++ [k])).
  apply NoDup_rev. rewrite rev_app_distr. simpl. constructor; [|exact H].
  rewrite <- in_rev. exact Hk.
Qed.

Lemma dict_set_incl (ks : list str) (k : str) (v : pyval) (d : dict) :
  In k ks -> incl (keys d) ks -> incl (keys (dict_set k v d)) ks.
Proof.
  intros Hk H. rewrite keys_dict_set. destruct (dict_has k d); [exact H|].
  apply incl_app; [exact H|]. intros x [<-|[]]. exact Hk.
Qed.

Lemma record_of_nil (ks : list str) : record_of ks [].
Proof.
  split; [constructor|]. split; [intros x []|]. intros k v [].
Qed.

Lemma record_of_set (ks : list str) (k s : str) (d : dict) :
  In k ks -> record_of ks d -> record_of ks (dict_set k (PStr s) d).
Proof.
  intros Hk (H1 & H2 & H3). split; [apply dict_set_NoDup; exact H1|].
  split; [apply dict_set_incl; assumption|].
  intros k0 v0 Hin. apply dict_set_In in Hin as [[_ ->]|Hin]; eauto.
Qed.

Lemma dates_ordered_set_other (k : str) (v : pyval) (d : dict) :
  k <> u "start_date" -> k <> u "end_date" ->
  dates_ordered d -> dates_ordered (dict_set k v d).
Proof.
  unfold dates_ordered. intros H1 H2 H. rewrite !dict_has_set.
  intros [E|E]; [congruence|]. right. apply H. exact E.
Qed.

Lemma dates_ordered_set_start (v : pyval) (d : dict) :
  dates_ordered (dict_set (u "start_date") v d).
Proof. unfold dates_ordered. intros _. apply dict_has_set. left. reflexivity. Qed.

Lemma dates_ordered_set_end (v : pyval) (d : dict) :
  dict_has (u "start_date") d = true -> dates_ordered (dict_set (u "end_date") v d).
Proof.
  unfold dates_ordered. intros H _. apply dict_has_set. right. exact H.
Qed.

(* ================================================================== *)
(** * Education: what an entry looks like *)
(* ================================================================== *)

Ltac in_keys := cbn [In]; repeat (first [left; reflexivity | right]).

Lemma extends_refl (d : dict) : extends d d.
Proof. intros k v H. exact H. Qed.

Lemma extends_trans (d1 d2 d3 : dict) :
  extends d1 d2 -> extends d2 d3 -> extends d1 d3.
Proof. intros H1 H2 k v H. apply H2, H1, H. Qed.

Lemma extends_set_absent (k : str) (v : pyval) (d : dict) :
  dict_has k d = false -> extends d (dict_set k v d).
Proof.
  intros Hk k0 v0 H. rewrite dict_get_set_other; [exact H|].
  intros ->. apply dict_get_has in H. congruence.
Qed.

Lemma extends_has (d d' : dict) (k : str) :
  extends d d' -> dict_has k d = true -> dict_has k d' = true.
Proof.
  unfold dict_has. intros H. destruct (dict_get k d) as [v|] eqn:E; [|discriminate].
  rewrite (H k v E). reflexivity.
Qed.

(** The assignment [d[k] = l[n]] guarded by a test and by [k not in d]. *)
Lemma fill_absent (b : bool) (l : list str) (n : nat) (k : str) (d : dict) :
  (b = true -> n < length l) ->
  exists d',
    (if b && negb (dict_has k d)
     then x <- index l n ;; Ok (dict_set k (PStr x) d) else Ok d) = Ok d' /\
    ((d' = d /\ (b = true -> dict_has k d = true)) \/
     (b = true /\ dict_has k d = false /\ exists x, d' = dict_set k (PStr x) d)).
Proof.
  intros Hb. destruct b; [|exists d; split; [reflexivity | left; split; [reflexivity | discriminate]]].
  destruct (dict_has k d) eqn:E.
  - exists d. split; [reflexivity|]. left. auto.
  - destruct (@index_lt _ l n (Hb eq_refl)) as (x & Hx & _).
    exists (dict_set k (PStr x) d). cbn [andb negb]. rewrite Hx. cbn [bind].
    split; [reflexivity|]. right. eauto.
Qed.

(** A match of either CGPA pattern with a group has its group 1. *)
Lemma cgpa_match_has_group (s : str) (m : rmatched) :
  re_search RE_I CGPA_RE s = Some m -> exists g, group 1 m = Some g.
Proof.
  unfold re_search. intros H.
  apply search_from_is_match_here in H as (pos & prev & rest & H).
  unfold match_here in H.
  destruct (rmatch RE_I CGPA_RE Some _) as [e|] eqn:E; [|discriminate].
  injection H as <-. unfold group. cbn [mt_caps].
  unfold CGPA_RE, CGPA_HEAD in E. cbn [app cats] in E.
  apply rmatch_cat_sound in E as [s1 E].
  apply rmatch_cat_sound in E as [s2 E].
  apply rmatch_cat_sound in E as [s3 E].
  apply rmatch_cat_sound in E as [s4 E].
  apply rmatch_grp_cap in E. exact E.
Qed.

Lemma cgpa_loose_match_has_group (s : str) (m : rmatched) :
  re_search RE_I CGPA_LOOSE_RE s = Some m -> exists g, group 1 m = Some g.
Proof.
  unfold re_search. intros H.
  apply search_from_is_match_here in H as (pos & prev & rest & H).
  unfold match_here in H.
  destruct (rmatch RE_I CGPA_LOOSE_RE Some _) as [e|] eqn:E; [|discriminate].
  injection H as <-. unfold group. cbn [mt_caps].
  unfold CGPA_LOOSE_RE in E. cbn [cats] in E.
  apply rmatch_cat_sound in E as [s1 E].
  apply rmatch_cat_sound in E as [s2 E].
  apply rmatch_cat_sound in E as [s3 E].
  apply rmatch_cat_sound in E as [s4 E].
  apply rmatch_grp_cap in E. exact E.
Qed.

Lemma first_some_inv {A B} (xs : list A) (f : A -> exc (option B)) (b : B) :
  first_some xs f = Ok (Some b) -> exists x, In x xs /\ f x = Ok (Some b).
Proof.
  induction xs as [|x xs IH]; simpl; [discriminate|].
  destruct (f x) as [[b'|]|e] eqn:E; simpl; [| |discriminate].
  - intros H. injection H as <-. exists x. auto.
  - intros H. apply IH in H as (x' & Hx & H). exists x'. auto.
Qed.

(** Whatever [edu_find_cgpa] finds is a match of the CGPA pattern. *)
Lemma edu_find_cgpa_is_match (lines : list str) (i : nat) (line : str)
    (parts : list str) (m : rmatched) :
  edu_find_cgpa lines i line parts = Ok (Some m) ->
  exists s, re_search RE_I CGPA_RE s = Some m.
Proof.
  unfold edu_find_cgpa.
  destruct (re_search RE_I CGPA_RE line) as [m0|] eqn:E0; cbn [bind].
  - intros H. injection H as <-. eauto.
  - destruct (first_some parts (fun p => Ok (re_search RE_I CGPA_RE p)))
      as [[m1|]|e] eqn:E1; cbn [bind]; [| |discriminate].
    + intros H. injection H as <-.
      apply first_some_inv in E1 as (p & _ & Hp). injection Hp as Hp. eauto.
    + intros H. apply first_some_inv in H as (j & _ & Hj).
      destruct (index lines j) as [l|e]; cbn [bind] in Hj; [|discriminate].
      injection Hj as Hj. eauto.
Qed.

Lemma edu_split_fields_record (parts : list str) :
  exists d,
    edu_split_fields parts = Ok d /\ record_of EDU_KEYS d /\
    dict_has (u "start_date") d = false /\ dict_has (u "end_date") d = false /\
    (forall p0 ps, parts = p0 :: ps ->
                   dict_get (u "degree") d = Some (PStr (strip p0))).
Proof.
  unfold edu_split_fields. cbv zeta.
  destruct parts as [|p0 [|p1 [|p2 ps]]];
    cbn [nonempty length Nat.ltb Nat.leb index nth_error bind];
    (eexists; split; [reflexivity|]);
    (split; [repeat (apply record_of_set; [unfold EDU_KEYS; in_keys|]);
             apply record_of_nil|]);
    (split; [vm_compute; reflexivity|]);
    (split; [vm_compute; reflexivity|]);
    intros q0 qs Hq; try discriminate; injection Hq as <- _;
    vm_compute; reflexivity.
Qed.

Lemma edu_record_set_other (k s : str) (d : dict) :
  In k EDU_KEYS -> k <> u "start_date" -> k <> u "end_date" ->
  edu_record d -> edu_record (dict_set k (PStr s) d).
Proof.
  intros Hk H1 H2 [Hr Ho]. split.
  - apply record_of_set; assumption.
  - apply dates_ordered_set_other; assumption.
Qed.

Lemma edu_store_cgpa_record (line : str) (cm : option rmatched) (d : dict) :
  (forall m, cm = Some m -> exists g, group 1 m = Some g) ->
  edu_record d -> edu_record (edu_store_cgpa line cm d).
Proof.
  intros Hcm Hd. unfold edu_store_cgpa. destruct cm as [m|].
  - destruct (Hcm m eq_refl) as [g ->]. cbn [opt_str]. cbv zeta.
    assert (H1 : edu_record (dict_set (u "cgpa") (PStr g) d)).
    { apply edu_record_set_other; [unfold EDU_KEYS; in_keys | key_neq | key_neq | exact Hd]. }
    destruct (dict_get (u "extra") (dict_set (u "cgpa") (PStr g) d)) as [[|extra| |]|];
      try exact H1.
    apply edu_record_set_other; [unfold EDU_KEYS; in_keys | key_neq | key_neq | exact H1].
  - destruct (re_search NOFLAGS CGPA_BARE_RE line) as [m2|].
    + apply edu_record_set_other; [unfold EDU_KEYS; in_keys | key_neq | key_neq | exact Hd].
    + destruct (re_search RE_I CGPA_LOOSE_RE line) as [m3|] eqn:E; [|exact Hd].
      destruct (cgpa_loose_match_has_group _ E) as [g ->]. cbn [opt_str].
      apply edu_record_set_other; [unfold EDU_KEYS; in_keys | key_neq | key_neq | exact Hd].
Qed.

Lemma edu_line_dates_record (line : str) (d : dict) :
  edu_record d -> exists d', edu_line_dates line d = Ok d' /\ edu_record d'.
Proof.
  intros [Hr Ho]. unfold edu_line_dates. cbv zeta.
  destruct (re_findall1 RE_I DATE_RE line) as [|d0 [|d1 ds]];
    cbn [nonempty length Nat.ltb Nat.leb index nth_error bind].
  - exists d. split; [reflexivity | split; assumption].
  - eexists. split; [reflexivity|]. split.
    + apply record_of_set; [unfold EDU_KEYS; in_keys | exact Hr].
    + apply dates_ordered_set_start.
  - eexists. split; [reflexivity|]. split.
    + apply record_of_set; [unfold EDU_KEYS; in_keys|].
      apply record_of_set; [unfold EDU_KEYS; in_keys | exact Hr].
    + apply dates_ordered_set_end. apply dict_has_set. left. reflexivity.
Qed.

(** The two date assignments of a lookahead line: they fill what is missing
    and keep the dates ordered. *)
Lemma fill_dates (dates : list str) (d : dict) :
  edu_record d ->
  exists d1 d2,
    (if nonempty dates && negb (dict_has (u "start_date") d)
     then x <- index dates 0 ;; Ok (dict_set (u "start_date") (PStr x) d)
     else Ok d) = Ok d1 /\
    (if (1 <? length dates) && negb (dict_has (u "end_date") d1)
     then x <- index dates 1 ;; Ok (dict_set (u "end_date") (PStr x) d1)
     else Ok d1) = Ok d2 /\
    edu_record d2 /\ extends d d2.
Proof.
  intros [Hr Ho].
  destruct (@fill_absent (nonempty dates) dates 0 (u "start_date") d)
    as (d1 & E1 & H1); [guard_lt|].
  destruct (@fill_absent (1 <? length dates) dates 1 (u "end_date") d1)
    as (d2 & E2 & H2); [guard_lt|].
  exists d1, d2. split; [exact E1|]. split; [exact E2|].
  assert (R1 : edu_record d1 /\ extends d d1 /\
               (nonempty dates = true -> dict_has (u "start_date") d1 = true)).
  { destruct H1 as [[-> Hs]|(Hb & Habs & x & ->)].
    - split; [split; assumption|]. split; [apply extends_refl | exact Hs].
    - split; [split; [apply record_of_set; [unfold EDU_KEYS; in_keys | exact Hr]
                     | apply dates_ordered_set_start]|].
      split; [apply extends_set_absent; exact Habs|].
      intros _. apply dict_has_set. left. reflexivity. }
  destruct R1 as ([Hr1 Ho1] & Hx1 & Hs1).
  destruct H2 as [[-> _]|(Hb & Habs & x & ->)].
  - split; [split; assumption | exact Hx1].
  - split; [split|].
    + apply record_of_set; [unfold EDU_KEYS; in_keys | exact Hr1].
    + apply dates_ordered_set_end. apply Hs1.
      destruct dates as [|a [|b ds]]; [discriminate Hb | discriminate Hb | reflexivity].
    + eapply extends_trans; [exact Hx1 | apply extends_set_absent; exact Habs].
Qed.

(** A lookahead line of the main loop fills what is missing: it keeps the
    entry a record and overwrites nothing. *)
Lemma edu_lookahead_line_record (lines : list str) (j : nat) (d : dict) :
  j < length lines -> edu_record d ->
  exists d', edu_lookahead_line lines j d = Ok d' /\ edu_record d' /\ extends d d'.
Proof.
  intros Hj Hd. unfold edu_lookahead_line.
  destruct (@index_lt _ lines j Hj) as (nxt & -> & _). cbn [bind]. cbv zeta.
  set (d0 := if re_found RE_I INSTITUTION_RE nxt && negb (dict_has (u "institution") d)
             then dict_set (u "institution") (PStr nxt) d else d).
  assert (H0 : edu_record d0 /\ extends d d0).
  { subst d0. destruct (re_found RE_I INSTITUTION_RE nxt);
      [|split; [exact Hd | apply extends_refl]].
    destruct (dict_has (u "institution") d) eqn:E;
      [split; [exact Hd | apply extends_refl]|].
    cbn [andb negb]. split.
    - apply edu_record_set_other; [unfold EDU_KEYS; in_keys | key_neq | key_neq | exact Hd].
    - apply extends_set_absent. exact E. }
  destruct H0 as [Hr0 Hx0].
  destruct (fill_dates (re_findall1 RE_I DATE_RE nxt) Hr0)
    as (d1 & d2 & -> & E2 & Hr2 & Hx2). cbn [bind]. rewrite E2. cbn [bind].
  eexists. split; [reflexivity|].
  destruct (dict_has (u "cgpa") d2) eqn:Ec; cbn [negb].
  - split; [exact Hr2 | eapply extends_trans; eassumption].
  - destruct (re_search RE_I CGPA_RE nxt) as [m|] eqn:Em.
    + destruct (cgpa_match_has_group _ Em) as [g ->]. cbn [opt_str]. split.
      * apply edu_record_set_other; [unfold EDU_KEYS; in_keys | key_neq | key_neq | exact Hr2].
      * eapply extends_trans; [exact Hx0|].
        eapply extends_trans; [exact Hx2 | apply extends_set_absent; exact Ec].
    + split; [exact Hr2 | eapply extends_trans; eassumption].
Qed.

Lemma edu_lookahead_record (lines : list str) (i : nat) (d : dict) :
  edu_record d ->
  exists d',
    for_in (lookahead i lines) (edu_lookahead_line lines) d = Ok d' /\
    edu_record d' /\ extends d d'.
Proof.
  intros Hd.
  apply (@for_in_invariant _ _ (fun d' => edu_record d' /\ extends d d')).
  - split; [exact Hd | apply extends_refl].
  - intros j s Hj [Hs Hx]. apply lookahead_lt in Hj.
    destruct (@edu_lookahead_line_record lines j s Hj Hs) as (s' & -> & Hs' & Hx').
    exists s'. split; [reflexivity|]. split; [exact Hs'|].
    eapply extends_trans; eassumption.
Qed.

Lemma edu_line_fields_record (lines : list str) (i : nat) (line : str) :
  exists d, edu_line_fields lines i line = Ok d /\ edu_record d.
Proof.
  unfold edu_line_fields. cbv zeta.
  destruct (edu_split_fields_record (re_split NOFLAGS EDU_SPLIT_RE line))
    as (d0 & -> & Hr0 & Hs & He & _). cbn [bind].
  destruct (edu_find_cgpa lines i line (re_split NOFLAGS EDU_SPLIT_RE line))
    as [cm|e] eqn:Ec.
  2: { destruct (edu_find_cgpa_ok lines i line (re_split NOFLAGS EDU_SPLIT_RE line))
         as [o Ho]. congruence. }
  cbn [bind]. apply edu_line_dates_record. apply edu_store_cgpa_record.
  - intros m ->. apply edu_find_cgpa_is_match in Ec as [s Hs'].
    eapply cgpa_match_has_group. exact Hs'.
  - split; [exact Hr0|]. unfold dates_ordered. rewrite He. discriminate.
Qed.

(** An entry of the main loop is a record that qualifies by its degree or
    institution, and holds every value its degree line gave. *)
Lemma edu_entry_record (lines : list str) (i : nat) (line : str) (e : pyval) :
  edu_entry lines i line = Ok (Some e) ->
  exists d0 d,
    edu_line_fields lines i line = Ok d0 /\ e = PDict d /\ edu_record d /\
    extends d0 d /\
    get_truthy (u "degree") d || get_truthy (u "institution") d = true.
Proof.
  unfold edu_entry. destruct (negb (re_found RE_I DEGREE_RE line)); [discriminate|].
  destruct (edu_line_fields_record lines i line) as (d0 & -> & Hr0). cbn [bind].
  destruct (edu_lookahead_record lines i Hr0) as (d & -> & Hr & Hx). cbn [bind].
  destruct (get_truthy (u "degree") d || get_truthy (u "institution") d) eqn:E;
    [|discriminate].
  intros H. injection H as <-. exists d0, d. auto.
Qed.
Lemma stripped_lines_nonempty (s l : str) :
  In l (stripped_lines s) -> nonempty l = true.
Proof.
  unfold stripped_lines. intros H. apply in_map_iff in H as (l0 & <- & H).
  apply filter_In in H as [_ H]. exact H.
Qed.

Lemma combine_seq_nth {A} (l : list A) (a i : nat) (x : A) :
  In (i, x) (combine (seq a (length l)) l) ->
  a <= i /\ nth_error l (i - a) = Some x.
Proof.
  revert a. induction l as [|y l IH]; intros a; cbn [length seq combine In]; [intros []|].
  intros [H|H].
  - injection H as <- <-. rewrite Nat.sub_diag. split; [lia | reflexivity].
  - apply IH in H as [Hle Hn]. split; [lia|].
    replace (i - a) with (S (i - S a)) by lia. exact Hn.
Qed.

Lemma enumerate_nth {A} (l : list A) (i : nat) (x : A) :
  In (i, x) (enumerate l) -> nth_error l i = Some x.
Proof.
  unfold enumerate. intros H. apply combine_seq_nth in H as [_ H].
  rewrite Nat.sub_0_r in H. exact H.
Qed.

Lemma collect_all_none {A} (xs : list A) (body : A -> exc (option pyval))
    (acc : list pyval) :
  (forall x, In x xs -> body x = Ok None) -> collect xs body acc = (acc, None).
Proof.
  induction xs as [|x xs IH]; intros H; cbn [collect]; [reflexivity|].
  rewrite (H x (or_introl eq_refl)). apply IH. intros y Hy. apply H. right. exact Hy.
Qed.

(** A lookahead line of the fallback loop keeps the entry a record and
    leaves its degree alone. *)
Lemma edu_fallback_lookahead_line_record (lines : list str) (j : nat) (d : dict)
    (line : str) :
  j < length lines -> edu_record d ->
  dict_get (u "degree") d = Some (PStr line) ->
  exists d', edu_fallback_lookahead_line lines j d = Ok d' /\ edu_record d' /\
             dict_get (u "degree") d' = Some (PStr line).
Proof.
  intros Hj Hd Hdeg.
  destruct (@edu_fallback_lookahead_line_keeps lines j d Hj) as (d' & E & Hk).
  exists d'. split; [exact E|]. split.
  2: { apply Hk; [|exact Hdeg]. unfold FALLBACK_KEYS. cbn [In].
       intros [H|[H|[H|[H|[]]]]]; vm_compute in H; discriminate H. }
  revert E. unfold edu_fallback_lookahead_line.
  destruct (@index_lt _ lines j Hj) as (nxt & -> & _). cbn [bind]. cbv zeta.
  set (d0 := if re_found RE_I INSTITUTION_RE nxt
             then dict_set (u "institution") (PStr nxt) d else d).
  assert (H0 : edu_record d0).
  { subst d0. destruct (re_found RE_I INSTITUTION_RE nxt); [|exact Hd].
    apply edu_record_set_other; [unfold EDU_KEYS; in_keys | key_neq | key_neq | exact Hd]. }
  destruct (fill_dates (re_findall1 RE_I DATE_RE nxt) H0)
    as (d1 & d2 & -> & E2 & Hr2 & _). cbn [bind]. rewrite E2. cbn [bind].
  intros E. apply ok_inj in E. subst d'.
  destruct (re_search RE_I CGPA_RE nxt) as [m|] eqn:Em; [|exact Hr2].
  destruct (cgpa_match_has_group _ Em) as [g ->]. cbn [opt_str].
  apply edu_record_set_other; [unfold EDU_KEYS; in_keys | key_neq | key_neq | exact Hr2].
Qed.

Lemma edu_fallback_entry_record (lines : list str) (i : nat) (line : str)
    (e : pyval) :
  edu_fallback_entry lines i line = Ok (Some e) ->
  exists d, e = PDict d /\ edu_record d /\
            dict_get (u "degree") d = Some (PStr line).
Proof.
  unfold edu_fallback_entry.
  destruct (negb (re_found RE_I DEGREE_RE line)); [discriminate|]. cbv zeta.
  destruct (@for_in_invariant _ _
              (fun d => edu_record d /\ dict_get (u "degree") d = Some (PStr line))
              (lookahead i lines) (edu_fallback_lookahead_line lines)
              [(u "degree", PStr line)])
    as (d & -> & Hr & Hdeg).
  - split.
    + split.
      * apply (@record_of_set EDU_KEYS (u "degree") line []);
          [unfold EDU_KEYS; in_keys | apply record_of_nil].
      * unfold dates_ordered. vm_compute. discriminate.
    + vm_compute. reflexivity.
  - intros j s Hj [Hs Hdeg]. apply lookahead_lt in Hj.
    destruct (@edu_fallback_lookahead_line_record lines j s line Hj Hs Hdeg)
      as (s' & -> & Hs' & Hdeg').
    exists s'. auto.
  - cbn [bind]. intros H. injection H as <-. exists d. auto.
Qed.

(** The entries of the main loop: each comes from a line with a degree
    keyword and is a record that qualifies by degree or institution. *)
Lemma education_main_entries (text : str) (e : pyval) :
  In e (fst (education_main text)) ->
  exists i line, nth_error (education_lines text) i = Some line /\
                 edu_entry (education_lines text) i line = Ok (Some e).
Proof.
  unfold education_main. cbv zeta. intros H.
  apply collect_In in H as [[]|([i line] & Hin & H)].
  exists i, line. split; [apply enumerate_nth; exact Hin | exact H].
Qed.

(** X5. Every entry [extract_education] returns is a dict whose keys are
    distinct and among degree, field, extra, cgpa, start_date, end_date and
    institution, whose values are all strings, which has no end date unless
    it has a start date, and whose degree or institution is a non-empty
    string. *)
Theorem education_entries_are_records :
  forall text,
    exists ed,
      extract_education text = Ok ed /\
      forall e, In e ed ->
        exists d, e = PDict d /\ record_of EDU_KEYS d /\ dates_ordered d /\
                  get_truthy (u "degree") d || get_truthy (u "institution") d = true.
Proof.
  intros text. rewrite extract_education_eq. eexists. split; [reflexivity|].
  assert (Hmain : forall e, In e (fst (education_main text)) ->
            exists d, e = PDict d /\ record_of EDU_KEYS d /\ dates_ordered d /\
                      get_truthy (u "degree") d || get_truthy (u "institution") d = true).
  { intros e He. apply education_main_entries in He as (i & line & _ & He).
    apply edu_entry_record in He as (d0 & d & _ & -> & [Hr Ho] & _ & Ht).
    exists d. auto. }
  intros e. unfold education_fallback.
  destruct (negb (nonempty (fst (education_main text)))); [|apply Hmain].
  cbv zeta. intros He. apply collect_In in He as [He|([i line] & Hin & He)];
    [apply Hmain; exact He|].
  cbn [fst snd] in He. apply enumerate_In_snd in Hin.
  apply edu_fallback_entry_record in He as (d & -> & [Hr Ho] & Hdeg).
  exists d. split; [reflexivity|]. split; [exact Hr|]. split; [exact Ho|].
  unfold get_truthy. rewrite Hdeg. cbn [truthy].
  rewrite (stripped_lines_nonempty _ _ Hin). reflexivity.
Qed.

(** X6. When no line of the education block and no line of the text has a
    degree keyword, [extract_education] returns the empty list: a school
    named under an education header is not reported on its own. *)
Theorem education_empty_without_degree_keyword :
  forall text,
    (forall l, In l (education_lines text) -> re_found RE_I DEGREE_RE l = false) ->
    (forall l, In l (stripped_lines text) -> re_found RE_I DEGREE_RE l = false) ->
    extract_education text = Ok [].
Proof.
  intros text Hblock Htext. rewrite extract_education_eq. f_equal.
  assert (Hmain : education_main text = ([], None)).
  { unfold education_main. cbv zeta. apply collect_all_none. intros [i l] Hin.
    cbn [fst snd]. unfold edu_entry.
    rewrite (Hblock l (enumerate_In_snd _ _ _ Hin)). reflexivity. }
  rewrite Hmain. cbn [fst]. unfold education_fallback. cbn [nonempty negb]. cbv zeta.
  rewrite collect_all_none; [reflexivity|]. intros [i l] Hin.
  cbn [fst snd]. unfold edu_fallback_entry.
  rewrite (Htext l (enumerate_In_snd _ _ _ Hin)). reflexivity.
Qed.

(** X7. When some line of the text has a degree keyword, [extract_education]
    returns at least one entry, header or no header, and wherever in the text
    the line stands. *)
Theorem education_nonempty_with_degree_keyword :
  forall text line,
    In line (stripped_lines text) ->
    re_found RE_I DEGREE_RE line = true ->
    exists ed, extract_education text = Ok ed /\ ed <> [].
Proof.
  intros text line Hin Hdeg. rewrite extract_education_eq. eexists.
  split; [reflexivity|].
  unfold education_fallback.
  destruct (fst (education_main text)) as [|e0 es] eqn:Em;
    cbn [nonempty negb]; [|cbn [fst]; discriminate].
  cbv zeta. destruct (enumerate_In _ _ Hin) as [i Hi].
  destruct (@edu_fallback_entry_degree (stripped_lines text) i line Hdeg)
    as (d & Hd & _).
  intros Hnil.
  assert (H : In (PDict d)
                 (fst (collect (enumerate (stripped_lines text))
                         (fun il => edu_fallback_entry (stripped_lines text)
                                      (fst il) (snd il)) []))).
  { apply (@collect_appends _ _ _ _ (i, line)); [|exact Hi|exact Hd].
    intros [j l] _. cbn [fst snd].
    destruct (edu_fallback_entry_inv (stripped_lines text) j l)
      as [[-> _]|(_ & d' & -> & _)]; eauto. }
  rewrite Hnil in H. destruct H.
Qed.

Lemma seq_nth_error {A} (l : list A) (a n : nat) :
  a + n <= length l ->
  map (nth_error l) (seq a n) = map Some (firstn n (skipn a l)).
Proof.
  revert a. induction n as [|n IH]; intros a Hn; [reflexivity|].
  cbn [seq map]. rewrite IH by lia.
  destruct (skipn a l) as [|x r] eqn:E.
  - apply (f_equal (@length A)) in E. rewrite length_skipn in E. cbn in E. lia.
  - assert (Hx : nth_error l a = Some x).
    { pose proof (nth_error_skipn a l 0) as H. rewrite E, Nat.add_0_r in H.
      symmetry. exact H. }
    assert (Hr : skipn (S a) l = r).
    { change (S a) with (1 + a). rewrite <- skipn_skipn. rewrite E. reflexivity. }
    rewrite Hx, Hr. reflexivity.
Qed.

Lemma lookahead_next_lines (i : nat) (lines : list str) :
  map (nth_error lines) (lookahead i lines) = map Some (next_lines i lines).
Proof.
  unfold lookahead, range, next_lines.
  replace (i + 1) with (S i) by lia.
  destruct (Nat.le_gt_cases (S i) (length lines)) as [Hi|Hi].
  - rewrite seq_nth_error by lia. f_equal.
    destruct (Nat.le_gt_cases (i + 4) (length lines)) as [H|H].
    + f_equal. lia.
    + rewrite !firstn_all2; [reflexivity | |]; rewrite length_skipn; lia.
  - replace (Nat.min (i + 4) (length lines) - S i) with 0 by lia.
    rewrite skipn_all2 by lia. reflexivity.
Qed.

Lemma find_app {A} (f : A -> bool) (a b : list A) :
  find f (a ++ b) = match find f a with Some x => Some x | None => find f b end.
Proof.
  induction a as [|x a IH]; [reflexivity|]. cbn [app find].
  destruct (f x); [reflexivity | exact IH].
Qed.

(** A guarded assignment of another key leaves [k] as it was. *)
Lemma guarded_set_other (b : bool) (l : list str) (n : nat) (k k' : str)
    (d d' : dict) :
  k <> k' ->
  (if b then x <- index l n ;; Ok (dict_set k' (PStr x) d) else Ok d) = Ok d' ->
  dict_get k d' = dict_get k d.
Proof.
  intros Hk. destruct b.
  - destruct (index l n) as [x|e]; cbn [bind]; [|discriminate].
    intros H. apply ok_inj in H. subst d'. apply dict_get_set_other. exact Hk.
  - intros H. apply ok_inj in H. subst d'. reflexivity.
Qed.

Lemma nth_error_index {A} (l : list A) (n : nat) (x : A) :
  nth_error l n = Some x -> index l n = Ok x.
Proof. unfold index. intros ->. reflexivity. Qed.

Lemma re_split_cons (fl : flags) (r : regex) (s : str) :
  exists p ps, re_split fl r s = p :: ps.
Proof.
  unfold re_split. cbv zeta. destruct (map fst (fst (scan fl r s))) as [|p ps].
  - eexists _, _. reflexivity.
  - eexists _, _. reflexivity.
Qed.

(** ** Where the values of a main-loop entry come from *)

Lemma edu_store_cgpa_other (k line : str) (cm : option rmatched) (d : dict) :
  k <> u "cgpa" -> k <> u "extra" ->
  dict_get k (edu_store_cgpa line cm d) = dict_get k d.
Proof.
  intros H1 H2. unfold edu_store_cgpa. destruct cm as [m|].
  - cbv zeta.
    destruct (dict_get (u "extra") (dict_set (u "cgpa") (opt_str (group 1 m)) d))
      as [[|extra| |]|]; rewrite ?(dict_get_set_other _ _ H2);
      apply dict_get_set_other; exact H1.
  - destruct (re_search NOFLAGS CGPA_BARE_RE line) as [m2|];
      [apply dict_get_set_other; exact H1|].
    destruct (re_search RE_I CGPA_LOOSE_RE line) as [m3|];
      [apply dict_get_set_other; exact H1 | reflexivity].
Qed.

Lemma edu_store_cgpa_found (line : str) (m : rmatched) (d : dict) :
  dict_get (u "cgpa") (edu_store_cgpa line (Some m) d)
  = Some (opt_str (group 1 m)).
Proof.
  unfold edu_store_cgpa. cbv zeta.
  destruct (dict_get (u "extra") (dict_set (u "cgpa") (opt_str (group 1 m)) d))
    as [[|extra| |]|]; try apply dict_get_set_same.
  rewrite dict_get_set_other by key_neq. apply dict_get_set_same.
Qed.

Lemma edu_line_dates_other (k line : str) (d d' : dict) :
  k <> u "start_date" -> k <> u "end_date" ->
  edu_line_dates line d = Ok d' -> dict_get k d' = dict_get k d.
Proof.
  intros H1 H2. unfold edu_line_dates. cbv zeta.
  destruct (re_findall1 RE_I DATE_RE line) as [|a [|b ds]];
    cbn [nonempty length Nat.ltb Nat.leb index nth_error bind];
    intros H; apply ok_inj in H; subst d'; [reflexivity| |].
  - apply dict_get_set_other; exact H1.
  - rewrite (dict_get_set_other _ _ H2). apply dict_get_set_other; exact H1.
Qed.

Lemma edu_line_dates_found (line : str) (d d' : dict) (a : str) (ds : list str) :
  re_findall1 RE_I DATE_RE line = a :: ds ->
  edu_line_dates line d = Ok d' ->
  dict_get (u "start_date") d' = Some (PStr a) /\
  (forall b ds', ds = b :: ds' -> dict_get (u "end_date") d' = Some (PStr b)).
Proof.
  intros Hf. unfold edu_line_dates. cbv zeta. rewrite Hf.
  destruct ds as [|b ds];
    cbn [nonempty length Nat.ltb Nat.leb index nth_error bind];
    intros H; apply ok_inj in H; subst d'.
  - split; [apply dict_get_set_same | discriminate].
  - split.
    + rewrite dict_get_set_other by key_neq. apply dict_get_set_same.
    + intros b' ds' E. injection E as <- _. apply dict_get_set_same.
Qed.

Lemma edu_line_fields_values (lines : list str) (i : nat) (line : str) (d0 : dict) :
  edu_line_fields lines i line = Ok d0 ->
  from_degree_line line d0 /\ dict_get (u "institution") d0 = None.
Proof.
  unfold edu_line_fields. cbv zeta.
  destruct (edu_split_fields_record (re_split NOFLAGS EDU_SPLIT_RE line))
    as (d1 & E1 & Hr1 & _ & _ & Hdeg). rewrite E1. cbn [bind].
  assert (Hinst : dict_get (u "institution") d1 = None).
  { revert E1. unfold edu_split_fields. cbv zeta.
    destruct (re_split NOFLAGS EDU_SPLIT_RE line) as [|p0 [|p1 [|p2 ps]]];
      cbn [nonempty length Nat.ltb Nat.leb index nth_error bind];
      intros E; apply ok_inj in E; subst d1; vm_compute; reflexivity. }
  destruct (edu_find_cgpa lines i line (re_split NOFLAGS EDU_SPLIT_RE line))
    as [cm|e] eqn:Ec; cbn [bind]; [|discriminate].
  intros Hd.
  assert (Kd : forall k, k <> u "start_date" -> k <> u "end_date" ->
                         dict_get k d0 = dict_get k (edu_store_cgpa line cm d1)).
  { intros k K1 K2. exact (@edu_line_dates_other k line _ d0 K1 K2 Hd). }
  repeat split.
  - rewrite Kd by key_neq.
    rewrite edu_store_cgpa_other by key_neq.
    destruct (re_split_cons NOFLAGS EDU_SPLIT_RE line) as (p & ps & Hp).
    rewrite Hp. cbn [hd]. apply (Hdeg p ps). exact Hp.
  - intros m Hm.
    rewrite Kd by key_neq.
    unfold edu_find_cgpa in Ec. cbv zeta in Ec. rewrite Hm in Ec. cbn [bind] in Ec.
    apply ok_inj in Ec. subst cm. apply edu_store_cgpa_found.
  - destruct (@edu_line_dates_found line _ d0 a ds H Hd) as [Hs _]. exact Hs.
  - intros b ds' E. destruct (@edu_line_dates_found line _ d0 a ds H Hd) as [_ He].
    apply (He b ds'). exact E.
  - rewrite Kd by key_neq.
    rewrite edu_store_cgpa_other by key_neq. exact Hinst.
Qed.

Lemma from_degree_line_extends (line : str) (d0 d : dict) :
  extends d0 d -> from_degree_line line d0 -> from_degree_line line d.
Proof.
  intros Hx (Hdeg & Hc & Hdt). repeat split.
  - apply Hx. exact Hdeg.
  - intros m Hm. apply Hx. apply Hc. exact Hm.
  - apply Hx. destruct (Hdt a ds H) as [Hs _]. exact Hs.
  - intros b ds' E. apply Hx. destruct (Hdt a ds H) as [_ He]. apply (He b ds'). exact E.
Qed.

(** One lookahead line of the main loop sets the institution only when the
    entry has none. *)
Lemma edu_lookahead_line_institution (lines : list str) (j : nat) (nxt : str)
    (d d' : dict) :
  nth_error lines j = Some nxt ->
  edu_lookahead_line lines j d = Ok d' ->
  dict_get (u "institution") d'
  = match dict_get (u "institution") d with
    | Some v => Some v
    | None => if names_institution nxt then Some (PStr nxt) else None
    end.
Proof.
  intros Hn. unfold edu_lookahead_line. rewrite (nth_error_index _ _ Hn).
  cbn [bind]. cbv zeta.
  set (d0 := if re_found RE_I INSTITUTION_RE nxt && negb (dict_has (u "institution") d)
             then dict_set (u "institution") (PStr nxt) d else d).
  assert (H0 : dict_get (u "institution") d0
               = match dict_get (u "institution") d with
                 | Some v => Some v
                 | None => if names_institution nxt then Some (PStr nxt) else None
                 end).
  { subst d0. unfold names_institution, dict_has.
    destruct (dict_get (u "institution") d) as [v|] eqn:E;
      destruct (re_found RE_I INSTITUTION_RE nxt); cbn [andb negb];
      try exact E. apply dict_get_set_same. }
  clearbody d0.
  match goal with
  | |- bind ?m1 _ = _ -> _ => destruct m1 as [d1|e] eqn:E1; cbn [bind]; [|discriminate]
  end.
  match goal with
  | |- bind ?m2 _ = _ -> _ => destruct m2 as [d2|e] eqn:E2; cbn [bind]; [|discriminate]
  end.
  intros H. apply ok_inj in H. subst d'.
  assert (H2 : dict_get (u "institution") d2 = dict_get (u "institution") d0).
  { assert (Ns : u "institution" <> u "start_date") by key_neq.
    assert (Ne : u "institution" <> u "end_date") by key_neq.
    rewrite (@guarded_set_other _ _ _ _ _ _ _ Ne E2).
    apply (@guarded_set_other _ _ _ _ _ _ _ Ns E1). }
  rewrite <- H0, <- H2.
  destruct (negb (dict_has (u "cgpa") d2)); [|reflexivity].
  destruct (re_search RE_I CGPA_RE nxt); [|reflexivity].
  apply dict_get_set_other. key_neq.
Qed.

Lemma edu_lookahead_institution (lines : list str) (js : list nat) (ls : list str)
    (d d' : dict) :
  map (nth_error lines) js = map Some ls ->
  for_in js (edu_lookahead_line lines) d = Ok d' ->
  dict_get (u "institution") d'
  = match dict_get (u "institution") d with
    | Some v => Some v
    | None => option_map PStr (find names_institution ls)
    end.
Proof.
  revert ls d. induction js as [|j js IH]; intros [|l ls] d Hm; try discriminate.
  - cbn [for_in]. intros H. apply ok_inj in H. subst d'.
    destruct (dict_get (u "institution") d); reflexivity.
  - cbn [map] in Hm. injection Hm as Hj Hm. cbn [for_in].
    destruct (edu_lookahead_line lines j d) as [d1|e] eqn:E1; cbn [bind]; [|discriminate].
    intros H. rewrite (IH ls d1 Hm H).
    rewrite (@edu_lookahead_line_institution lines j l d d1 Hj E1).
    destruct (dict_get (u "institution") d) as [v|]; [reflexivity|].
    cbn [find]. destruct (names_institution l); reflexivity.
Qed.

(** One lookahead line of the fallback loop sets the institution whenever
    the line names one. *)
Lemma edu_fallback_lookahead_line_institution (lines : list str) (j : nat)
    (nxt : str) (d d' : dict) :
  nth_error lines j = Some nxt ->
  edu_fallback_lookahead_line lines j d = Ok d' ->
  dict_get (u "institution") d'
  = if names_institution nxt then Some (PStr nxt)
    else dict_get (u "institution") d.
Proof.
  intros Hn. unfold edu_fallback_lookahead_line. rewrite (nth_error_index _ _ Hn).
  cbn [bind]. cbv zeta.
  set (d0 := if re_found RE_I INSTITUTION_RE nxt
             then dict_set (u "institution") (PStr nxt) d else d).
  assert (H0 : dict_get (u "institution") d0
               = if names_institution nxt then Some (PStr nxt)
                 else dict_get (u "institution") d).
  { subst d0. unfold names_institution.
    destruct (re_found RE_I INSTITUTION_RE nxt); [apply dict_get_set_same | reflexivity]. }
  clearbody d0.
  match goal with
  | |- bind ?m1 _ = _ -> _ => destruct m1 as [d1|e] eqn:E1; cbn [bind]; [|discriminate]
  end.
  match goal with
  | |- bind ?m2 _ = _ -> _ => destruct m2 as [d2|e] eqn:E2; cbn [bind]; [|discriminate]
  end.
  intros H. apply ok_inj in H. subst d'.
  assert (H2 : dict_get (u "institution") d2 = dict_get (u "institution") d0).
  { assert (Ns : u "institution" <> u "start_date") by key_neq.
    assert (Ne : u "institution" <> u "end_date") by key_neq.
    rewrite (@guarded_set_other _ _ _ _ _ _ _ Ne E2).
    apply (@guarded_set_other _ _ _ _ _ _ _ Ns E1). }
  rewrite <- H0, <- H2.
  destruct (re_search RE_I CGPA_RE nxt); [|reflexivity].
  apply dict_get_set_other. key_neq.
Qed.

Lemma edu_fallback_lookahead_institution (lines : list str) (js : list nat)
    (ls : list str) (d d' : dict) :
  map (nth_error lines) js = map Some ls ->
  for_in js (edu_fallback_lookahead_line lines) d = Ok d' ->
  dict_get (u "institution") d'
  = match find names_institution (rev ls) with
    | Some l => Some (PStr l)
    | None => dict_get (u "institution") d
    end.
Proof.
  revert ls d. induction js as [|j js IH]; intros [|l ls] d Hm; try discriminate.
  - cbn [for_in]. intros H. apply ok_inj in H. subst d'. reflexivity.
  - cbn [map] in Hm. injection Hm as Hj Hm. cbn [for_in].
    destruct (edu_fallback_lookahead_line lines j d) as [d1|e] eqn:E1; cbn [bind];
      [|discriminate].
    intros H. rewrite (IH ls d1 Hm H).
    rewrite (@edu_fallback_lookahead_line_institution lines j l d d1 Hj E1).
    cbn [rev]. rewrite find_app.
    destruct (find names_institution (rev ls)); [reflexivity|].
    cbn [find]. destruct (names_institution l); reflexivity.
Qed.

Lemma education_main_entry_provenance (text : str) (e : pyval) :
  In e (fst (education_main text)) ->
  exists i line d,
    nth_error (education_lines text) i = Some line /\
    re_found RE_I DEGREE_RE line = true /\
    e = PDict d /\ from_degree_line line d /\
    dict_get (u "institution") d
    = option_map PStr (find names_institution (next_lines i (education_lines text))).
Proof.
  intros He. apply education_main_entries in He as (i & line & Hn & He).
  exists i, line.
  destruct (edu_entry_record _ _ _ He) as (d0 & d & E0 & -> & _ & Hx & _).
  exists d. split; [exact Hn|]. split.
  { revert He. unfold edu_entry. destruct (re_found RE_I DEGREE_RE line);
      [reflexivity | discriminate]. }
  split; [reflexivity|].
  destruct (edu_line_fields_values _ _ _ E0) as [Hv Hi].
  split; [apply (from_degree_line_extends Hx Hv)|].
  revert He. unfold edu_entry.
  destruct (negb (re_found RE_I DEGREE_RE line)); [discriminate|].
  rewrite E0. cbn [bind].
  destruct (for_in (lookahead i (education_lines text))
              (edu_lookahead_line (education_lines text)) d0) as [d'|x] eqn:Ef;
    cbn [bind]; [|discriminate].
  pose proof (@edu_lookahead_institution (education_lines text) _ _ d0 d'
                (lookahead_next_lines i (education_lines text)) Ef) as Hinst.
  rewrite Hi in Hinst.
  destruct (get_truthy (u "degree") d' || get_truthy (u "institution") d');
    [|discriminate].
  intros H. injection H as <-. exact Hinst.
Qed.

(** X8. When the scan of the education block gives an entry, the result is
    what that scan gave, and every entry comes from a line of the block with
    a degree keyword: its degree is the first separator-delimited part of
    that line, its CGPA is the one on that line when the line has one, its
    start and end dates are the first two dates on that line when it has
    them, and its institution is the first of the next three lines that
    names one. The lines that follow never replace what the degree line
    gave. *)
Theorem education_block_entry_provenance :
  forall text,
    fst (education_main text) <> [] ->
    exists ed,
      extract_education text = Ok ed /\
      forall e, In e ed ->
        exists i line d,
          nth_error (education_lines text) i = Some line /\
          re_found RE_I DEGREE_RE line = true /\
          e = PDict d /\ from_degree_line line d /\
          dict_get (u "institution") d
          = option_map PStr
              (find names_institution (next_lines i (education_lines text))).
Proof.
  intros text Hne. rewrite extract_education_eq. eexists. split; [reflexivity|].
  unfold education_fallback.
  destruct (fst (education_main text)) as [|e0 es] eqn:Em; [contradiction|].
  cbn [nonempty negb fst]. rewrite <- Em. apply education_main_entry_provenance.
Qed.

Lemma count_flat_map_enumerate {A B} (f : nat * A -> list B) (p : A -> bool)
    (l : list A) (a : nat) :
  (forall i x, length (f (i, x)) = if p x then 1 else 0) ->
  length (flat_map f (combine (seq a (length l)) l)) = length (filter p l).
Proof.
  intros Hf. revert a. induction l as [|x l IH]; intros a; [reflexivity|].
  cbn [length seq combine flat_map filter]. rewrite length_app, IH, Hf.
  destruct (p x); reflexivity.
Qed.

(** X9. When the scan of the education block gives nothing, the whole text
    is scanned: every line of the text with a degree keyword gives one
    entry, whose degree is that whole line and whose institution is the last
    of the next three lines that names one. *)
Theorem education_fallback_entry_provenance :
  forall text,
    fst (education_main text) = [] ->
    exists ed,
      extract_education text = Ok ed /\
      length ed = length (filter (re_found RE_I DEGREE_RE) (stripped_lines text)) /\
      forall e, In e ed ->
        exists i line d,
          nth_error (stripped_lines text) i = Some line /\
          re_found RE_I DEGREE_RE line = true /\
          e = PDict d /\ dict_get (u "degree") d = Some (PStr line) /\
          dict_get (u "institution") d
          = option_map PStr
              (find names_institution (rev (next_lines i (stripped_lines text)))).
Proof.
  intros text Hmain. rewrite extract_education_eq, Hmain. eexists.
  split; [reflexivity|].
  unfold education_fallback. cbn [nonempty negb]. cbv zeta.
  set (lines := stripped_lines text).
  assert (Hok : forall x : nat * str, In x (enumerate lines) ->
                  exists r, edu_fallback_entry lines (fst x) (snd x) = Ok r).
  { intros [j l] _. cbn [fst snd].
    destruct (edu_fallback_entry_inv lines j l) as [[-> _]|(_ & d' & -> & _)]; eauto. }
  split.
  - rewrite (collect_flat_map _ _ [] Hok). cbn [app]. unfold enumerate.
    apply count_flat_map_enumerate. intros i x. cbn [fst snd].
    destruct (edu_fallback_entry_inv lines i x) as [[-> ->]|(-> & d' & -> & _)];
      reflexivity.
  - intros e He. apply collect_In in He as [[]|([i line] & Hin & He)].
    cbn [fst snd] in He. exists i, line.
    destruct (edu_fallback_entry_record _ _ _ He) as (d & -> & _ & Hdeg).
    exists d. split; [apply enumerate_nth; exact Hin|].
    revert He. unfold edu_fallback_entry.
    destruct (re_found RE_I DEGREE_RE line); cbn [negb]; [|discriminate].
    split; [reflexivity|]. split; [reflexivity|]. split; [exact Hdeg|].
    revert He. cbv zeta.
    destruct (for_in (lookahead i lines) (edu_fallback_lookahead_line lines)
                [(u "degree", PStr line)]) as [d'|x] eqn:Ef; cbn [bind]; [|discriminate].
    intros H. injection H as <-.
    rewrite (@edu_fallback_lookahead_institution lines _ _ _ d'
               (lookahead_next_lines i lines) Ef).
    destruct (find names_institution (rev (next_lines i lines))); reflexivity.
Qed.

(* ================================================================== *)
(** * Experience: what an entry looks like *)
(* ================================================================== *)

Lemma str_or_none_opt (o : option str) : str_or_none (opt_str o).
Proof. destruct o as [s|]; [right; eexists; reflexivity | left; reflexivity]. Qed.

Lemma exp_role_company_shape (chunk first role : str) (company : pyval) :
  exp_role_company chunk first = Ok (role, company) -> str_or_none company.
Proof.
  unfold exp_role_company. cbv zeta.
  destruct (re_search NOFLAGS AT_RE chunk) as [m|] eqn:Em.
  - destruct (at_match_has_group _ Em) as [g Hg]. unfold group_str. rewrite Hg.
    cbn [bind]. intros H. injection H as _ <-. right. eexists. reflexivity.
  - destruct (mem (ch "-") first || mem (ch "|") first).
    + destruct (1 <? length (re_split NOFLAGS ROLE_SPLIT_RE first)).
      * destruct (index (re_split NOFLAGS ROLE_SPLIT_RE first) 1) as [p1|x];
          cbn [bind]; [|discriminate].
        destruct (index (re_split NOFLAGS ROLE_SPLIT_RE first) 0) as [p0|x];
          cbn [bind]; [|discriminate].
        intros H. injection H as _ <-. right. eexists. reflexivity.
      * intros H. injection H as _ <-. left. reflexivity.
    + intros H. injection H as _ <-. left. reflexivity.
Qed.

Lemma exp_next_line_company_shape (lines : list str) (company c : pyval) :
  str_or_none company ->
  exp_next_line_company lines company = Ok c -> str_or_none c.
Proof.
  intros Hc. unfold exp_next_line_company.
  destruct (negb (truthy company)); [|intros H; injection H as <-; exact Hc].
  destruct (1 <? length lines); [|intros H; injection H as <-; exact Hc].
  destruct (index lines 1) as [l1|x]; cbn [bind]; [|discriminate].
  destruct (re_found NOFLAGS CAPITALIZED_RE l1);
    [|intros H; injection H as <-; exact Hc].
  destruct ((length (split_ws l1) <? 6) && re_found NOFLAGS LETTER_RE l1);
    intros H; injection H as <-; [right; eexists; reflexivity | exact Hc].
Qed.

Lemma exp_dates_shape (chunk : str) (start end_ : pyval) :
  exp_dates chunk = Ok (start, end_) ->
  str_or_none start /\ str_or_none end_ /\ (start = PNone -> end_ = PNone).
Proof.
  unfold exp_dates. cbv zeta.
  destruct (re_findall1 RE_I DATE_RE chunk) as [|a [|b ds]];
    cbn [nonempty length Nat.ltb Nat.leb index nth_error bind];
    intros H; injection H as <- <-.
  - split; [left; reflexivity|]. split; [left; reflexivity | reflexivity].
  - split; [right; eexists; reflexivity|]. split; [left; reflexivity | reflexivity].
  - split; [right; eexists; reflexivity|]. split; [right; eexists; reflexivity | discriminate].
Qed.

Lemma Forall_filter {A} (p : A -> bool) (l : list A) :
  Forall (fun x => p x = true) (filter p l).
Proof. apply Forall_forall. intros x H. apply filter_In in H as [_ H]. exact H. Qed.

Lemma exp_responsibilities_nonempty (chunk : str) (lines : list str) :
  Forall (fun r => nonempty r = true) (exp_responsibilities chunk lines).
Proof.
  unfold exp_responsibilities. cbv zeta.
  destruct (nonempty (re_findall1 NOFLAGS BULLET_RE chunk)); [apply Forall_filter|].
  match goal with
  | |- Forall _ (if ?b then _ else _) => destruct b
  end; [apply Forall_filter|].
  apply Forall_forall. intros x H. apply filter_In in H as [_ H].
  apply andb_true_iff in H as [H _]. exact H.
Qed.

Lemma exp_entry_record (chunk : str) (e : pyval) :
  exp_entry chunk = Ok (Some e) -> exp_record e.
Proof.
  unfold exp_entry. cbv zeta.
  destruct (negb (nonempty (chunk_lines EXP_MARKERS chunk))); [discriminate|].
  destruct (index (chunk_lines EXP_MARKERS chunk) 0) as [first|x]; cbn [bind];
    [|discriminate].
  destruct (exp_role_company chunk first) as [[role company]|x] eqn:Erc; cbn [bind];
    [|discriminate].
  cbn [fst snd].
  destruct (exp_next_line_company (chunk_lines EXP_MARKERS chunk) company)
    as [c|x] eqn:Ec; cbn [bind]; [|discriminate].
  destruct (exp_dates chunk) as [[start end_]|x] eqn:Ed; cbn [bind]; [|discriminate].
  cbn [fst snd]. intros H. injection H as <-.
  destruct (@exp_dates_shape chunk start end_ Ed) as (Hs & He & Hse).
  exists role, c, start, end_,
    (opt_str (option_map group0 (re_search RE_I LOCATION_RE chunk))),
    (exp_responsibilities chunk (chunk_lines EXP_MARKERS chunk)).
  split; [reflexivity|].
  split; [apply (@exp_next_line_company_shape _ company c (@exp_role_company_shape chunk first role company Erc) Ec)|].
  split; [exact Hs|]. split; [exact He|]. split; [apply str_or_none_opt|].
  split; [exact Hse | apply exp_responsibilities_nonempty].
Qed.

(** X10. Every entry [extract_experience] returns is a dict with exactly the
    keys role, company, start_date, end_date, location and responsibilities,
    in that order: the role is a string; company, dates and location are
    strings or None; there is no end date without a start date; and the
    responsibilities are a list of non-empty strings. *)
Theorem experience_entries_are_records :
  forall text,
    exists ex,
      extract_experience text = Ok ex /\ forall e, In e ex -> exp_record e.
Proof.
  intros text. unfold extract_experience. rewrite returning_fst. eexists.
  split; [reflexivity|]. intros e He.
  apply collect_In in He as [[]|(chunk & _ & He)].
  apply (@exp_entry_record chunk e He).
Qed.

(* ================================================================== *)
(** * Projects *)
(* ================================================================== *)

Lemma proj_entry_spec (chunk : str) :
  (chunk_lines PROJ_MARKERS chunk = [] /\ proj_entry chunk = Ok None) \/
  (exists first rest d,
      chunk_lines PROJ_MARKERS chunk = first :: rest /\
      proj_entry chunk = Ok (Some (PDict d)) /\ proj_record (PDict d) /\
      dict_get (u "title") d = Some (PStr first) /\
      dict_get (u "description") d = Some (PStr (join (u " ") rest))).
Proof.
  unfold proj_entry. cbv zeta.
  destruct (chunk_lines PROJ_MARKERS chunk) as [|first rest] eqn:El.
  - left. auto.
  - right. exists first, rest.
    cbn [nonempty negb index nth_error bind skipn].
    eexists. split; [reflexivity|]. split; [reflexivity|]. split.
    + eexists _, _, _, _. split; [reflexivity|].
      split; [apply fromkeys_NoDup | apply str_or_none_opt].
    + split; vm_compute; reflexivity.
Qed.

Lemma proj_entry_ok (chunk : str) : exists r, proj_entry chunk = Ok r.
Proof.
  destruct (proj_entry_spec chunk) as [[_ ->]|(f & r & d & _ & -> & _)]; eauto.
Qed.

Lemma extract_projects_eq (text : str) :
  extract_projects text = Ok (flat_map proj_entry_of (project_chunks text)).
Proof.
  unfold extract_projects. rewrite returning_fst.
  rewrite collect_flat_map by (intros; apply proj_entry_ok). reflexivity.
Qed.

Lemma proj_entries_length (chunks : list str) :
  length (flat_map proj_entry_of chunks)
  = length (filter (fun c => nonempty (chunk_lines PROJ_MARKERS c)) chunks).
Proof.
  induction chunks as [|c chunks IH]; [reflexivity|].
  cbn [flat_map filter]. rewrite length_app, IH. unfold proj_entry_of at 1.
  destruct (proj_entry_spec c) as [[-> ->]|(f & r & d & -> & -> & _)]; reflexivity.
Qed.

Lemma proj_entries_first (chunks : list str) (first : str) (rest : list str) :
  flat_map (chunk_lines PROJ_MARKERS) chunks = first :: rest ->
  exists d, hd_error (flat_map proj_entry_of chunks) = Some (PDict d)
            /\ dict_get (u "title") d = Some (PStr first).
Proof.
  induction chunks as [|c chunks IH]; [discriminate|].
  cbn [flat_map]. unfold proj_entry_of at 1.
  destruct (proj_entry_spec c) as [[-> ->]|(f & r & d & -> & -> & _ & Ht & _)].
  - exact IH.
  - cbn [app]. intros H. injection H as -> _. exists d. split; [reflexivity | exact Ht].
Qed.

Lemma proj_headers_letters : Forall starts_with_letter PROJ_HEADERS.
Proof.
  unfold PROJ_HEADERS. repeat constructor;
    (eexists _, _; split; [vm_compute; reflexivity | reflexivity]).
Qed.

Lemma project_block_nonblank (text : str) :
  nonblank_lines text <> [] ->
  nonblank_lines (block_or text PROJ_SECTION_RE text) <> [].
Proof.
  intros H. unfold block_or.
  destruct (re_search RE_S_I PROJ_SECTION_RE text) as [m|] eqn:E; [|exact H].
  apply nonblank_lines_has_text. unfold PROJ_SECTION_RE in E.
  eapply (@section_block_has_text PROJ_HEADERS);
    [discriminate | apply proj_headers_letters | exact E].
Qed.

(** X11. Every entry [extract_projects] returns is a dict with exactly the
    keys title, tech, date and description, in that order: title and
    description are strings, tech is a list of strings without repetition,
    and the date is a string or None. *)
Theorem project_entries_are_records :
  forall text,
    exists pr,
      extract_projects text = Ok pr /\ forall e, In e pr -> proj_record e.
Proof.
  intros text. unfold extract_projects. rewrite returning_fst. eexists.
  split; [reflexivity|]. intros e He.
  apply collect_In in He as [[]|(chunk & _ & He)].
  destruct (proj_entry_spec chunk) as [[_ E]|(f & r & d & _ & E & Hr & _)];
    rewrite E in He; [discriminate|].
  injection He as <-. exact Hr.
Qed.

(** X12. For every text with at least one non-blank line, projects header or
    not, [extract_projects] returns a non-empty list: one entry for each
    chunk of the block that has a non-blank line, and the title of the first
    entry is the first non-blank line of the block with the markers stripped
    from its ends. A text that describes no project at all still yields
    one. *)
Theorem extract_projects_nonempty :
  forall text,
    (exists l, In l (splitlines text) /\ nonempty (strip l) = true) ->
    exists pr,
      extract_projects text = Ok pr /\ pr <> [] /\
      length pr
      = length (filter (fun c => nonempty (chunk_lines PROJ_MARKERS c))
                       (project_chunks text)) /\
      exists d first,
        hd_error pr = Some (PDict d) /\
        hd_error (chunk_lines PROJ_MARKERS (block_or text PROJ_SECTION_RE text))
        = Some first /\
        dict_get (u "title") d = Some (PStr first).
Proof.
  intros text (l & Hl & Hnb).
  assert (Htext : nonblank_lines text <> []).
  { intros Hnil. assert (Hin : In l (nonblank_lines text)).
    { unfold nonblank_lines. apply filter_In. auto. }
    rewrite Hnil in Hin. contradiction. }
  exists (flat_map proj_entry_of (project_chunks text)).
  split; [apply extract_projects_eq|].
  pose proof (@project_block_nonblank text Htext) as Hblock.
  destruct (chunk_lines PROJ_MARKERS (block_or text PROJ_SECTION_RE text))
    as [|first rest] eqn:El.
  { rewrite chunk_lines_nonblank in El.
    destruct (nonblank_lines (block_or text PROJ_SECTION_RE text));
      [contradiction | discriminate]. }
  rewrite chunk_lines_chunks in El.
  apply proj_entries_first in El as (d & Hd & Ht).
  split; [|split; [apply proj_entries_length|]].
  - unfold project_chunks. intros Hnil. rewrite Hnil in Hd. discriminate.
  - exists d, first. auto.
Qed.

(* ================================================================== *)
(** * Certifications *)
(* ================================================================== *)

Lemma dropwhile_hd (p : char -> bool) (s : str) (x : char) :
  hd_error (dropwhile p s) = Some x -> p x = false.
Proof.
  induction s as [|c s IH]; cbn [dropwhile]; [discriminate|].
  destruct (p c) eqn:E; [exact IH|]. cbn [hd_error]. intros H. injection H as <-. exact E.
Qed.

Lemma dropwhile_app_last (p : char -> bool) (a : str) (c : char) :
  p c = false -> exists a', dropwhile p (a ++ [c]) = a' ++ [c].
Proof.
  intros Hc. induction a as [|x a IH]; cbn [app dropwhile].
  - rewrite Hc. exists []. reflexivity.
  - destruct (p x); [exact IH|]. exists (x :: a). reflexivity.
Qed.

Lemma strip_by_ends (p : char -> bool) (s : str) :
  (forall x, hd_error (strip_by p s) = Some x -> p x = false) /\
  (forall x, hd_error (rev (strip_by p s)) = Some x -> p x = false).
Proof.
  unfold strip_by, rstrip_by, lstrip_by. split.
  - destruct (dropwhile p s) as [|c t] eqn:E; [discriminate|].
    assert (Hc : p c = false) by (apply (@dropwhile_hd p s c); rewrite E; reflexivity).
    cbn [rev]. destruct (@dropwhile_app_last p (rev t) c Hc) as [a' ->].
    rewrite rev_app_distr. cbn [rev app hd_error]. intros x H. injection H as <-. exact Hc.
  - rewrite rev_involutive. intros x. apply dropwhile_hd.
Qed.

Lemma cert_entry_inv (line : str) (e : pyval) :
  cert_entry line = Ok (Some e) ->
  e = PStr (strip_chars PROJ_MARKERS line) /\
  nonempty (strip_chars PROJ_MARKERS line) = true /\
  re_found RE_I CERT_WORD_RE (strip_chars PROJ_MARKERS line) = false.
Proof.
  unfold cert_entry. cbv zeta.
  destruct (nonempty (strip_chars PROJ_MARKERS line)); [|discriminate].
  destruct (re_found RE_I CERT_WORD_RE (strip_chars PROJ_MARKERS line));
    [discriminate|].
  cbn [andb negb]. intros H. injection H as <-. auto.
Qed.

Lemma cert_entry_ok (line : str) : exists r, cert_entry line = Ok r.
Proof.
  unfold cert_entry. cbv zeta.
  destruct (nonempty (strip_chars PROJ_MARKERS line)
            && negb (re_found RE_I CERT_WORD_RE (strip_chars PROJ_MARKERS line)));
    eauto.
Qed.

(** X13. The items [extract_certifications] returns are exactly the lines of
    the certifications block that, with the markers stripped from their
    ends, are non-empty and do not have the word certification in any letter
    case; each is returned stripped, so it begins and ends with no hyphen,
    bullet, asterisk operator or space. A line that mentions the word, the
    header line among them, is never returned. *)
Theorem certifications_are_clean_lines :
  forall text,
    exists ce,
      extract_certifications text = Ok ce /\
      (forall e, In e ce <->
         exists line,
           In line (splitlines (certification_block text)) /\
           e = PStr (strip_chars PROJ_MARKERS line) /\
           nonempty (strip_chars PROJ_MARKERS line) = true /\
           re_found RE_I CERT_WORD_RE (strip_chars PROJ_MARKERS line) = false) /\
      (forall s, In (PStr s) ce -> clean_ends PROJ_MARKERS s).
Proof.
  intros text. unfold extract_certifications. rewrite returning_fst. eexists.
  split; [reflexivity|]. split.
  - intros e. split.
    + intros He. apply collect_In in He as [[]|(line & Hin & He)].
      apply cert_entry_inv in He as (-> & Hne & Hw).
      exists line. auto.
    + intros (line & Hin & -> & Hne & Hw).
      apply (@collect_appends _ _ cert_entry [] line);
        [intros x _; apply cert_entry_ok | exact Hin |].
      unfold cert_entry. cbv zeta. rewrite Hne, Hw. reflexivity.
  - intros s He. apply collect_In in He as [[]|(line & _ & He)].
    apply cert_entry_inv in He as (E & _ & _). injection E as ->.
    unfold clean_ends, strip_chars.
    apply (strip_by_ends (fun c => mem c PROJ_MARKERS) line).
Qed.

(* ================================================================== *)
(** * Skills *)
(* ================================================================== *)

Lemma title_nonempty (s : str) : nonempty (title s) = nonempty s.
Proof.
  destruct s as [|c s]; [reflexivity|]. unfold title. cbn [title_from nonempty].
  unfold to_title_full. destruct (is_tabled c); reflexivity.
Qed.

Lemma titled_nonempty (items : list str) :
  Forall (fun s => nonempty s = true) items ->
  Forall (fun s => nonempty s = true) (map title items).
Proof.
  intros H. apply Forall_forall. intros x Hx.
  apply in_map_iff in Hx as (i & <- & Hi). rewrite title_nonempty.
  rewrite Forall_forall in H. apply H. exact Hi.
Qed.

Lemma skill_items_nonempty (vals : str) :
  Forall (fun s => nonempty s = true) (skill_items vals).
Proof. unfold skill_items. apply Forall_filter. Qed.

Lemma bullet_names_nonempty (block : str) :
  Forall (fun s => nonempty s = true) (bullet_names block).
Proof.
  unfold bullet_names. cbv zeta. apply Forall_forall. intros x Hx.
  apply in_flat_map in Hx as (tup & _ & Hx).
  apply in_flat_map in Hx as (val & _ & Hx).
  destruct (nonempty val && (1 <? length (strip val))); [|destruct Hx].
  pose proof (skill_items_nonempty val) as H. rewrite Forall_forall in H.
  apply H. exact Hx.
Qed.

(** The list stored for a category: sorted, every name once. *)
Lemma sorted_names_category (k : str) (names : list str) :
  nonempty k = true -> NoDup names ->
  Forall (fun s => nonempty s = true) names ->
  skill_category k (strs (sorted names)).
Proof.
  intros Hk Hnd Hne. split; [exact Hk|]. exists (sorted names).
  split; [reflexivity|]. split.
  - apply (Permutation_NoDup (sorted_perm names)). exact Hnd.
  - apply Forall_forall. intros x Hx. apply (proj1 (sorted_In x names)) in Hx.
    rewrite Forall_forall in Hne. apply Hne. exact Hx.
Qed.

Lemma fromkeys_nonempty (names : list str) :
  Forall (fun s => nonempty s = true) names ->
  Forall (fun s => nonempty s = true) (fromkeys names).
Proof.
  intros H. apply Forall_forall. intros x Hx. apply (proj1 (fromkeys_In names x)) in Hx.
  rewrite Forall_forall in H. apply H. exact Hx.
Qed.

Lemma letter_has_text (cat : str) :
  re_found NOFLAGS LETTER_RE cat = true -> has_text cat.
Proof.
  unfold re_found. destruct (re_search NOFLAGS LETTER_RE cat) as [m|] eqn:E;
    [|discriminate].
  intros _. apply re_search_sound in E as [Hl (before & after & ->)].
  unfold LETTER_RE in Hl. cbn [lang] in Hl. destruct Hl as (x & -> & Hx).
  apply has_text_app. right. apply has_text_app. left.
  constructor. apply not_space_of_bounds.
  revert Hx. change [AZ; az] with [CRange 65 90; CRange 97 122]%N.
  unfold cls_match, in_items. cbn [icase NOFLAGS xorb existsb citem_in].
  unfold between. rewrite !orb_true_iff, !andb_true_iff, !N.leb_le.
  intros [H|[H|H]]; [left; exact H | right; left; exact H | discriminate].
Qed.

Lemma skill_line_category (line k : str) (v : pyval) :
  skill_line line = Ok (Some (k, v)) -> skill_category k v.
Proof.
  unfold skill_line.
  destruct (mem (ch ":") line && (length line <? 250)); [|discriminate].
  destruct (unpack2 (split1 (ch ":") line)) as [[cat vals]|e]; cbn [bind fst snd];
    [|discriminate].
  cbv zeta.
  destruct (re_found NOFLAGS LETTER_RE cat) eqn:El; [|discriminate].
  destruct (nonempty (skill_items vals)); [|discriminate].
  intros H. injection H as <- <-.
  apply sorted_names_category.
  - apply strip_has_text, letter_has_text. exact El.
  - apply fromkeys_NoDup.
  - apply fromkeys_nonempty, titled_nonempty, skill_items_nonempty.
Qed.

Lemma collect_items_NoDup {A} (xs : list A)
    (body : A -> exc (option (str * pyval))) (acc : dict) :
  NoDup (keys acc) -> NoDup (keys (fst (collect_items xs body acc))).
Proof.
  revert acc. induction xs as [|x xs IH]; intros acc Hacc; cbn [collect_items];
    [exact Hacc|].
  destruct (body x) as [[[k v]|]|e]; [| |exact Hacc].
  - apply IH. apply dict_set_NoDup. exact Hacc.
  - apply IH. exact Hacc.
Qed.

Lemma categories_set_general (names : list str) (sk : dict) :
  NoDup names -> Forall (fun s => nonempty s = true) names ->
  categories sk ->
  categories (dict_set (u "General") (strs (sorted names)) sk).
Proof.
  intros Hnd Hne [Hk Hv]. split; [apply dict_set_NoDup; exact Hk|].
  intros k v H. apply dict_set_In in H as [[-> ->]|H]; [|apply Hv; exact H].
  apply sorted_names_category; [reflexivity | exact Hnd | exact Hne].
Qed.

Lemma Forall_filter_keep {A} (P : A -> Prop) (p : A -> bool) (l : list A) :
  Forall P l -> Forall P (filter p l).
Proof.
  intros H. apply Forall_forall. intros x Hx. apply filter_In in Hx as [Hx _].
  rewrite Forall_forall in H. apply H. exact Hx.
Qed.

Lemma keywords_nonempty : Forall (fun s => nonempty s = true) (map u SKILL_KEYWORDS).
Proof. vm_compute. repeat constructor. Qed.

(** X14. In the dict [extract_skills] returns, whichever of its three steps
    filled it, the keys are distinct non-empty strings and every value is a
    list of non-empty strings in which no name occurs twice. *)
Theorem skills_are_named_lists :
  forall (set_iter : list str -> list str) text,
    (forall l, Permutation (set_iter l) l) ->
    exists sk,
      extract_skills set_iter text = Ok sk /\
      NoDup (keys sk) /\
      forall k v, In (k, v) sk -> skill_category k v.
Proof.
  intros set_iter text Hperm. unfold extract_skills. cbv zeta.
  rewrite returning_fst. eexists. split; [reflexivity|].
  match goal with
  | |- NoDup (keys ?sk) /\ _ => change (categories sk)
  end.
  apply (@and_then_invariant _ categories).
  - apply (@and_then_invariant _ categories).
    + split.
      * apply collect_items_NoDup. constructor.
      * apply (@collect_items_invariant _ skill_category).
        -- intros line k v _ H. apply (@skill_line_category line k v H).
        -- intros k v [].
    + intros acc Hacc. unfold skills_bullets.
      match goal with
      | |- categories (fst (if ?b then _ else _)) => destruct b
      end; [|exact Hacc].
      cbv zeta.
      match goal with
      | |- categories (fst (if ?b then _ else _)) => destruct b
      end; [|exact Hacc].
      cbn [fst]. apply categories_set_general; [apply fromkeys_NoDup | | exact Hacc].
      apply fromkeys_nonempty, titled_nonempty, Forall_filter_keep,
        bullet_names_nonempty.
  - intros acc Hacc. unfold skills_keywords.
    destruct (negb (nonempty acc)); [|exact Hacc].
    cbv zeta. destruct (nonempty (keywords_found text)); [|exact Hacc].
    cbn [fst]. destruct (keywords_found_spec text) as [Hnd Hin].
    apply categories_set_general; [| | exact Hacc].
    + apply (Permutation_NoDup (Permutation_sym (Hperm (keywords_found text)))).
      exact Hnd.
    + apply Forall_forall. intros x Hx.
      apply (Permutation_in _ (Hperm (keywords_found text))) in Hx.
      apply (proj1 (Hin x)) in Hx. revert x Hx. apply Forall_forall.
      apply titled_nonempty. unfold matched_keywords.
      apply Forall_filter_keep, keywords_nonempty.
Qed.

Lemma split1_from_mem (sep : char) (cur s : str) :
  mem sep s = true -> exists a b, split1_from sep cur s = [a; b].
Proof.
  revert cur. induction s as [|c s IH]; intros cur; cbn [mem existsb split1_from];
    [discriminate|].
  rewrite (N.eqb_sym sep c). destruct (c =? sep)%N; cbn [orb].
  - intros _. eexists _, _. reflexivity.
  - apply IH.
Qed.

Lemma skill_line_ok (line : str) : exists r, skill_line line = Ok r.
Proof.
  unfold skill_line.
  destruct (mem (ch ":") line) eqn:Em; cbn [andb]; [|eauto].
  destruct (length line <? 250); [|eauto].
  destruct (@split1_from_mem (ch ":") [] line Em) as (a & b & E).
  unfold split1. rewrite E. cbn [unpack2 bind fst snd]. cbv zeta.
  destruct (re_found NOFLAGS LETTER_RE a); [|eauto].
  destruct (nonempty (skill_items b)); eauto.
Qed.

Lemma collect_items_no_raise {A} (xs : list A)
    (body : A -> exc (option (str * pyval))) (acc : dict) :
  (forall x, In x xs -> exists r, body x = Ok r) ->
  snd (collect_items xs body acc) = None.
Proof.
  revert acc. induction xs as [|x xs IH]; intros acc H; cbn [collect_items];
    [reflexivity|].
  destruct (H x (or_introl eq_refl)) as [[[k v]|] ->];
    apply IH; intros y Hy; apply H; right; exact Hy.
Qed.

Lemma and_then_no_raise {S} (run : S * option exn) (next : S -> S * option exn) :
  snd run = None -> (forall acc, snd (next acc) = None) ->
  snd (and_then run next) = None.
Proof.
  destruct run as [acc [e|]]; cbn [snd and_then]; [discriminate|]. intros _ H. apply H.
Qed.

(** X15. The [try] blocks of the five section extractors never raise: every
    index is in range, every unpacking has its two parts and every group
    that is read took part in its match. Their [except] branches are never
    entered, so no extractor returns a list or dict cut short by an
    exception. *)
Theorem section_extractors_never_raise :
  forall (set_iter : list str -> list str) text,
    snd (and_then (education_main text) (education_fallback text)) = None /\
    snd (collect (experience_chunks text) exp_entry []) = None /\
    snd (and_then
           (and_then
              (collect_items (splitlines (block_or text SKILLS_SECTION_RE text))
                 skill_line [])
              (skills_bullets
                 (match re_search RE_S_I SKILLS_SECTION_RE text with
                  | Some _ => true
                  | None => false
                  end)
                 (block_or text SKILLS_SECTION_RE text)))
           (skills_keywords set_iter text)) = None /\
    snd (collect (project_chunks text) proj_entry []) = None /\
    snd (collect (splitlines (certification_block text)) cert_entry []) = None.
Proof.
  intros set_iter text. repeat split.
  - apply and_then_no_raise; [apply education_main_no_raise|].
    intros acc. apply education_fallback_no_raise.
  - apply collect_no_raise. intros chunk _. apply exp_entry_ok.
  - apply and_then_no_raise; [apply and_then_no_raise|].
    + apply collect_items_no_raise. intros line _. apply skill_line_ok.
    + intros acc. unfold skills_bullets.
      match goal with |- snd (if ?b then _ else _) = _ => destruct b end;
        [|reflexivity].
      cbv zeta.
      match goal with |- snd (if ?b then _ else _) = _ => destruct b end;
        reflexivity.
    + intros acc. unfold skills_keywords.
      destruct (negb (nonempty acc)); [|reflexivity].
      cbv zeta. destruct (nonempty (keywords_found text)); reflexivity.
  - apply collect_no_raise. intros chunk _. apply proj_entry_ok.
  - apply collect_no_raise. intros line _. apply cert_entry_ok.
Qed.

Lemma collect_items_app {A} (xs ys : list A)
    (body : A -> exc (option (str * pyval))) (acc : dict) :
  (forall x, In x xs -> exists r, body x = Ok r) ->
  collect_items (xs ++ ys) body acc
  = collect_items ys body (fst (collect_items xs body acc)).
Proof.
  revert acc. induction xs as [|x xs IH]; intros acc H; [reflexivity|].
  cbn [app collect_items].
  destruct (H x (or_introl eq_refl)) as [[[k v]|] ->];
    apply IH; intros y Hy; apply H; right; exact Hy.
Qed.

Lemma collect_items_other {A} (xs : list A)
    (body : A -> exc (option (str * pyval))) (acc : dict) (k : str) :
  (forall x v, In x xs -> body x <> Ok (Some (k, v))) ->
  dict_get k (fst (collect_items xs body acc)) = dict_get k acc.
Proof.
  revert acc. induction xs as [|x xs IH]; intros acc H; [reflexivity|].
  cbn [collect_items].
  assert (Hxs : forall y v, In y xs -> body y <> Ok (Some (k, v)))
    by (intros y v Hy; apply H; right; exact Hy).
  destruct (body x) as [[[k' v']|]|e] eqn:E; [| |reflexivity].
  - rewrite (IH _ Hxs). apply dict_get_set_other. intros ->.
    apply (H x v' (or_introl eq_refl)). exact E.
  - apply (IH _ Hxs).
Qed.

Lemma dict_get_nonempty (k : str) (d : dict) (v : pyval) :
  dict_get k d = Some v -> nonempty d = true.
Proof. destruct d; [discriminate | reflexivity]. Qed.

(** X16. When several category lines of the skills block have the same
    category, the last one wins: the dict binds the category to the list of
    that line alone, the earlier lines are overwritten, not merged; and once
    a category line is stored, neither the bullet scan nor the keyword scan
    adds anything. *)
Theorem skills_category_last_line_wins :
  forall (set_iter : list str -> list str) text before line after k v,
    splitlines (block_or text SKILLS_SECTION_RE text) = before ++ line :: after ->
    skill_line line = Ok (Some (k, v)) ->
    (forall l v', In l after -> skill_line l <> Ok (Some (k, v'))) ->
    exists sk,
      extract_skills set_iter text = Ok sk /\
      dict_get k sk = Some v /\
      sk = fst (collect_items (splitlines (block_or text SKILLS_SECTION_RE text))
                  skill_line []).
Proof.
  intros set_iter text before line after k v Hl Hline Hafter.
  unfold extract_skills. cbv zeta. rewrite returning_fst. eexists.
  split; [reflexivity|].
  set (lines := splitlines (block_or text SKILLS_SECTION_RE text)) in *.
  assert (Hget : dict_get k (fst (collect_items lines skill_line [])) = Some v).
  { rewrite Hl. rewrite collect_items_app by (intros x _; apply skill_line_ok).
    cbn [collect_items]. rewrite Hline.
    rewrite (collect_items_other _ _ _ Hafter). apply dict_get_set_same. }
  pose proof (@collect_items_no_raise _ lines skill_line []
                (fun x _ => skill_line_ok x)) as Hnone.
  destruct (collect_items lines skill_line []) as [sk r]. cbn [fst snd] in *.
  subst r. cbn [and_then]. unfold skills_bullets.
  rewrite (dict_get_nonempty _ _ Hget). cbn [negb andb and_then].
  unfold skills_keywords. rewrite (dict_get_nonempty _ _ Hget). cbn [negb fst].
  split; [exact Hget | reflexivity].
Qed.

(* ================================================================== *)
(** * The handlers of api.py *)
(* ================================================================== *)

Lemma startswith_app (p s : str) : startswith p (p ++ s) = true.
Proof.
  induction p as [|x p IH]; [reflexivity|]. cbn [app startswith].
  rewrite N.eqb_refl. exact IH.
Qed.

Lemma contains_app (a p b : str) : contains p (a ++ p ++ b) = true.
Proof.
  induction a as [|x a IH]; cbn [app].
  - destruct (p ++ b) eqn:E; cbn [contains]; rewrite <- E, startswith_app; reflexivity.
  - cbn [contains]. rewrite IH. apply orb_true_r.
Qed.

Lemma contains_inv (p s : str) :
  contains p s = true -> exists a b, s = a ++ p ++ b.
Proof.
  assert (Hs : forall p s, startswith p s = true -> exists b, s = p ++ b).
  { clear. induction p as [|x p IH]; intros s; [exists s; reflexivity|].
    destruct s as [|y s]; cbn [startswith]; [discriminate|].
    intros H. apply andb_true_iff in H as [Hxy H]. apply N.eqb_eq in Hxy. subst y.
    destruct (IH s H) as [b ->]. exists b. reflexivity. }
  induction s as [|y s IH]; cbn [contains]; intros H.
  - rewrite orb_false_r in H. apply Hs in H as [b ->]. exists [], b. reflexivity.
  - apply orb_true_iff in H as [H|H].
    + apply Hs in H as [b ->]. exists [], b. reflexivity.
    + destruct (IH H) as (a & b & ->). exists (y :: a), b. reflexivity.
Qed.

Lemma contains_within (p a s b : str) :
  contains p s = true -> contains p (a ++ s ++ b) = true.
Proof.
  intros H. apply contains_inv in H as (a' & b' & ->).
  replace (a ++ (a' ++ p ++ b') ++ b) with ((a ++ a') ++ p ++ (b' ++ b))
    by (rewrite <- !app_assoc; reflexivity).
  apply contains_app.
Qed.

Lemma join_In (sep x : str) (l : list str) :
  In x l -> exists a b, join sep l = a ++ x ++ b.
Proof.
  induction l as [|y l IH]; [intros []|].
  intros [->|H].
  - destruct l as [|z l]; cbn [join].
    + exists [], []. rewrite app_nil_r. reflexivity.
    + exists [], (sep ++ join sep (z :: l)). reflexivity.
  - destruct (IH H) as (a & b & E). destruct l as [|z l]; [destruct H|].
    cbn [join]. cbn [join] in E. rewrite E. exists (y ++ sep ++ a), b.
    rewrite <- !app_assoc. reflexivity.
Qed.

Lemma find_at_edge (p : str) (B : str) (dflt : bool) (f : char -> bool) :
  at_edge B -> f 32%N = dflt ->
  match find (fun c => negb (is_case_ignorable c)) (p ++ B) with
  | Some c => f c
  | None => dflt
  end
  = match find (fun c => negb (is_case_ignorable c)) p with
    | Some c => f c
    | None => dflt
    end.
Proof.
  intros HB Hf. rewrite find_app.
  destruct (find (fun c => negb (is_case_ignorable c)) p); [reflexivity|].
  destruct HB as [->|[B' ->]]; [reflexivity|]. cbn [find].
  change (negb (is_case_ignorable 32%N)) with true. cbv iota. exact Hf.
Qed.

Lemma final_sigma_at_edge (p q B post : str) :
  at_edge B -> at_edge post ->
  final_sigma (p ++ B) (q ++ post) = final_sigma p q.
Proof.
  intros HB Hpost. unfold final_sigma.
  rewrite (@find_at_edge p B false is_cased HB eq_refl).
  rewrite (@find_at_edge q post true (fun c => negb (is_cased c)) Hpost eq_refl).
  reflexivity.
Qed.

Lemma lower_from_at_edge (q : str) :
  forall p B post,
    at_edge B -> at_edge post ->
    lower_from (p ++ B) (q ++ post)
    = lower_from p q ++ lower_from (rev q ++ p ++ B) post.
Proof.
  induction q as [|c q IH]; intros p B post HB Hpost; [reflexivity|].
  cbn [app lower_from rev]. rewrite <- app_assoc. f_equal.
  - unfold lower_char. rewrite (final_sigma_at_edge p q HB Hpost). reflexivity.
  - pose proof (IH (c :: p) B post HB Hpost) as E. cbn [app] in E. rewrite E.
    rewrite <- !app_assoc. reflexivity.
Qed.

Lemma lower_from_prefix (pre : str) :
  forall B rest,
    exists a, lower_from B (pre ++ rest) = a ++ lower_from (rev pre ++ B) rest.
Proof.
  induction pre as [|c pre IH]; intros B rest; [exists []; reflexivity|].
  cbn [app lower_from rev]. destruct (IH (c :: B) rest) as [a ->].
  exists (lower_char B c (pre ++ rest) ++ a).
  rewrite <- !app_assoc. reflexivity.
Qed.

Lemma join_In_at_edge (x : str) (l : list str) :
  In x l ->
  exists pre post,
    join (u " ") l = pre ++ x ++ post /\ at_edge (rev pre) /\ at_edge post.
Proof.
  induction l as [|y l IH]; [intros []|].
  intros [->|H].
  - destruct l as [|z l]; cbn [join].
    + exists [], []. rewrite app_nil_r. repeat split; left; reflexivity.
    + exists [], (u " " ++ join (u " ") (z :: l)).
      split; [reflexivity|]. split; [left; reflexivity|].
      right. eexists. reflexivity.
  - destruct (IH H) as (pre & post & E & Hpre & Hpost).
    destruct l as [|z l]; [destruct H|].
    cbn [join]. cbn [join] in E. rewrite E.
    exists (y ++ u " " ++ pre), post.
    split; [rewrite <- !app_assoc; reflexivity|]. split; [|exact Hpost].
    rewrite !rev_app_distr. right.
    destruct Hpre as [->|[B' ->]]; eexists; reflexivity.
Qed.

(** The lower-cased names of a list occur in its lower-cased join. *)
Lemma lower_join_In (x : str) (l : list str) :
  In x l -> exists a b, lower (join (u " ") l) = a ++ lower x ++ b.
Proof.
  intros H. destruct (join_In_at_edge x l H) as (pre & post & -> & Hpre & Hpost).
  unfold lower. destruct (lower_from_prefix pre [] (x ++ post)) as [a ->].
  rewrite app_nil_r.
  pose proof (@lower_from_at_edge x [] (rev pre) post Hpre Hpost) as E.
  cbn [app] in E. rewrite E. eexists a, _. reflexivity.
Qed.

(** ** Searching a resume never fails *)

Lemma as_strs_strs (l : list str) : as_strs (map PStr l) = Done l.
Proof.
  induction l as [|s l IH]; [reflexivity|]. cbn [map as_strs]. rewrite IH. reflexivity.
Qed.

Lemma strs_inj (l l' : list str) : strs l = strs l' -> l = l'.
Proof.
  unfold strs. intros H. injection H as H. revert l' H.
  induction l as [|x l IH]; intros [|y l'] E; try discriminate; [reflexivity|].
  cbn [map] in E. injection E as -> E. f_equal. apply IH. exact E.
Qed.

Lemma sum_lists_strs (sk : dict) (acc : list str) :
  (forall k v, In (k, v) sk -> exists l, v = strs l) ->
  exists names,
    sum_lists (map PStr acc) (map snd sk) = Done (map PStr names) /\
    (forall s, In s acc -> In s names) /\
    (forall k l s, In (k, strs l) sk -> In s l -> In s names).
Proof.
  revert acc. induction sk as [|[k v] sk IH]; intros acc H.
  - exists acc. split; [reflexivity|]. split; [auto|]. intros k l s [].
  - destruct (H k v (or_introl eq_refl)) as [l ->].
    cbn [map snd sum_lists strs]. rewrite <- map_app.
    destruct (IH (acc ++ l)) as (names & E & Hacc & Hsk).
    { intros k' v' Hin. apply (H k' v'). right. exact Hin. }
    exists names. split; [exact E|]. split.
    + intros s Hs. apply Hacc, in_or_app. left. exact Hs.
    + intros k' l' s [Heq|Hin] Hs.
      * assert (Hl : strs l = strs l') by congruence.
        apply strs_inj in Hl. subst l'.
        apply Hacc, in_or_app. right. exact Hs.
      * apply (Hsk k' l' s Hin Hs).
Qed.

Lemma skill_matches_searchable (q : str) (r : pyval) :
  searchable r ->
  exists names,
    skill_matches q r = Done (contains (lower q) (lower (join (u " ") names))) /\
    forall d sk k l s,
      r = PDict d -> dict_get (u "skills") d = Some (PDict sk) ->
      In (k, strs l) sk -> In s l -> In s names.
Proof.
  intros (d & sk & ed & -> & Hsk & Hv & _).
  destruct (@sum_lists_strs sk [] Hv) as (names & E & _ & Hin).
  exists names. split.
  - unfold skill_matches, get_or. rewrite Hsk. cbn [and_so values].
    cbn [map] in E. rewrite E. cbn [and_so]. rewrite as_strs_strs. reflexivity.
  - intros d' sk' k l s Hd Hsk' Hl Hs. injection Hd as <-.
    rewrite Hsk in Hsk'. injection Hsk' as <-. apply (Hin k l s Hl Hs).
Qed.

Lemma degree_of_record (f : dict) :
  (forall k v, In (k, v) f -> exists s, v = PStr s) ->
  exists s, degree_of (PDict f) = Done (lower s) /\
            (forall g, dict_get (u "degree") f = Some (PStr g) -> s = g).
Proof.
  intros Hf. unfold degree_of, get_or. cbn [and_so].
  destruct (dict_get (u "degree") f) as [v|] eqn:E.
  - assert (Hin : In (u "degree", v) f).
    { clear -E. induction f as [|[k' v'] f IH]; [discriminate|].
      cbn [dict_get] in E. destruct (str_eqb k' (u "degree")) eqn:Ek.
      - apply str_eqb_eq in Ek. subst k'. injection E as ->. left. reflexivity.
      - right. apply IH. exact E. }
    destruct (Hf _ _ Hin) as [s ->]. cbn [truthy].
    destruct s as [|c s]; cbn [nonempty].
    + exists []. split; [reflexivity|]. intros g H. injection H as <-. reflexivity.
    + exists (c :: s). split; [reflexivity|]. intros g H. injection H as <-. reflexivity.
  - exists []. split; [reflexivity|]. intros g H. discriminate H.
Qed.

Lemma any_of_total {A} (f : A -> outcome bool) (l : list A) :
  (forall e, In e l -> exists b, f e = Done b) ->
  exists b, any_of f l = Done b /\
            (b = true <-> exists e, In e l /\ f e = Done true).
Proof.
  induction l as [|e l IH]; intros H.
  - exists false. split; [reflexivity|]. split; [discriminate|]. intros (e & [] & _).
  - cbn [any_of]. destruct (H e (or_introl eq_refl)) as [b Hb]. rewrite Hb.
    cbn [and_so]. destruct b.
    + exists true. split; [reflexivity|]. split; [|reflexivity].
      intros _. exists e. split; [left; reflexivity | exact Hb].
    + destruct IH as (b & E & Hiff); [intros e' He'; apply H; right; exact He'|].
      exists b. split; [exact E|]. rewrite Hiff. split.
      * intros (e' & He' & Hf). exists e'. split; [right; exact He' | exact Hf].
      * intros (e' & [<-|He'] & Hf); [congruence|]. exists e'. auto.
Qed.

Lemma degree_matches_searchable (q : str) (r : pyval) :
  searchable r ->
  exists b,
    degree_matches q r = Done b /\
    (forall d ed f g,
        r = PDict d -> dict_get (u "education") d = Some (PList ed) ->
        In (PDict f) ed -> dict_get (u "degree") f = Some (PStr g) ->
        contains (lower q) (lower g) = true -> b = true).
Proof.
  intros (d & sk & ed & -> & _ & _ & Hed & He).
  unfold degree_matches, get_or. rewrite Hed. cbn [and_so iterate].
  destruct (@any_of_total _
              (fun e => d0 <~ degree_of e ;; Done (contains (lower q) d0)) ed)
    as (b & E & Hb).
  { intros e Hin. destruct (He e Hin) as (f & -> & Hf).
    destruct (@degree_of_record f Hf) as (s & -> & _). cbn [and_so]. eauto. }
  exists b. split; [exact E|].
  intros d' ed' f g Hd Hed' Hin Hg Hc. injection Hd as <-.
  rewrite Hed in Hed'. injection Hed' as <-.
  apply Hb. exists (PDict f). split; [exact Hin|].
  destruct (He _ Hin) as (f' & Hf' & Hf). injection Hf' as <-.
  destruct (@degree_of_record f Hf) as (s & -> & Hs). cbn [and_so].
  rewrite (Hs g Hg). rewrite Hc. reflexivity.
Qed.

Lemma keep_total {A} (f : A -> outcome bool) (l : list A) :
  (forall r, In r l -> exists b, f r = Done b) ->
  exists res,
    keep f l = Done res /\
    (forall r, In r res <-> In r l /\ f r = Done true).
Proof.
  induction l as [|r l IH]; intros H.
  - exists []. split; [reflexivity|]. intros r. split; [intros [] | intros [[] _]].
  - cbn [keep]. destruct (H r (or_introl eq_refl)) as [b Hb]. rewrite Hb.
    cbn [and_so].
    destruct IH as (res & -> & Hres); [intros r' Hr'; apply H; right; exact Hr'|].
    cbn [and_so]. eexists. split; [reflexivity|].
    intros r'. destruct b; cbn [In]; rewrite Hres; split.
    + intros [<-|[Hin Hf]]; auto.
    + intros [[<-|Hin] Hf]; auto.
    + intros [Hin Hf]. auto.
    + intros [[<-|Hin] Hf]; [congruence | auto].
Qed.

(** ** What the upload handler stores *)

Lemma skills_values_are_lists (set_iter : list str -> list str) (text : str)
    (sk : dict) :
  extract_skills set_iter text = Ok sk ->
  forall k v, In (k, v) sk -> exists l, v = strs l.
Proof.
  unfold extract_skills. cbv zeta. rewrite returning_fst. intros H.
  apply ok_inj in H. subst sk.
  apply (@and_then_invariant _
           (fun sk => forall k v, In (k, v) sk -> exists l, v = strs l)).
  - apply (@and_then_invariant _
             (fun sk => forall k v, In (k, v) sk -> exists l, v = strs l)).
    + apply (@collect_items_invariant _ (fun _ v => exists l, v = strs l)).
      * intros line k v _ H. apply skill_line_inv in H as (cat & vals & _ & _ & ->). eauto.
      * intros k v [].
    + intros acc Hacc. unfold skills_bullets.
      match goal with
      | |- forall k v, In _ (fst (if ?b then _ else _)) -> _ => destruct b
      end; [|exact Hacc].
      cbv zeta.
      match goal with
      | |- forall k v, In _ (fst (if ?b then _ else _)) -> _ => destruct b
      end; [|exact Hacc].
      cbn [fst]. intros k v H. apply dict_set_In in H as [[_ ->]|H]; eauto.
  - intros acc Hacc. unfold skills_keywords.
    destruct (negb (nonempty acc)); [|exact Hacc].
    cbv zeta. destruct (nonempty (keywords_found text)); [|exact Hacc].
    cbn [fst]. intros k v H. apply dict_set_In in H as [[_ ->]|H]; eauto.
Qed.

Lemma education_values_are_strings (text : str) (ed : list pyval) :
  extract_education text = Ok ed ->
  forall e, In e ed ->
            exists f, e = PDict f /\ forall k v, In (k, v) f -> exists s, v = PStr s.
Proof.
  rewrite extract_education_eq. intros H. apply ok_inj in H. subst ed.
  assert (Hmain : forall e, In e (fst (education_main text)) ->
            exists f, e = PDict f /\ forall k v, In (k, v) f -> exists s, v = PStr s).
  { intros e He. apply education_main_entries in He as (i & line & _ & He).
    apply edu_entry_record in He as (d0 & d & _ & -> & [(_ & _ & Hv) _] & _).
    exists d. auto. }
  intros e. unfold education_fallback.
  destruct (negb (nonempty (fst (education_main text)))); [|apply Hmain].
  cbv zeta. intros He. apply collect_In in He as [He|([i line] & _ & He)];
    [apply Hmain; exact He|].
  cbn [fst snd] in He.
  apply edu_fallback_entry_record in He as (d & -> & [(_ & _ & Hv) _] & _).
  exists d. auto.
Qed.

Lemma stored_profile (pi : dict) (ed ex pr : list pyval) (sk : dict)
    (ce : list pyval) (fn : pyval) :
  exists d,
    set_item (u "filename") fn (profile pi ed ex pr sk ce) = Done (PDict d) /\
    keys d = STORED_KEYS /\
    dict_get (u "skills") d = Some (PDict sk) /\
    dict_get (u "education") d = Some (PList ed) /\
    dict_get (u "filename") d = Some fn.
Proof.
  unfold profile, set_item. eexists. split; [reflexivity|].
  split; [vm_compute; reflexivity|]. split; [vm_compute; reflexivity|].
  split; vm_compute; reflexivity.
Qed.

(** Parsing a text and naming the result never fails. *)
Lemma parse_and_name (nlp : str -> exc (list (str * str)))
    (set_iter : list str -> list str) (text : str) (fn : str) :
  exists d,
    (parsed <~ lift (parse_resume nlp set_iter text) ;;
     parsed <~ set_item (u "filename") (PStr fn) parsed ;;
     Done (Some parsed)) = Done (Some (PDict d)) /\
    keys d = STORED_KEYS /\
    dict_get (u "filename") d = Some (PStr fn) /\
    searchable (PDict d).
Proof.
  destruct (parse_resume_body_ok nlp set_iter text)
    as (pi & ed & ex & pr & sk & ce & _ & _ & Hed & _ & _ & Hsk & _ & Hbody).
  unfold parse_resume. rewrite Hbody. cbn [try_except lift and_so].
  destruct (stored_profile pi ed ex pr sk ce (PStr fn))
    as (d & -> & Hk & Hgs & Hge & Hfn).
  cbn [and_so]. exists d. split; [reflexivity|]. split; [exact Hk|].
  split; [exact Hfn|].
  exists d, sk, ed. split; [reflexivity|]. split; [exact Hgs|].
  split; [apply (skills_values_are_lists _ _ Hsk)|]. split; [exact Hge|].
  apply (education_values_are_strings _ Hed).
Qed.

(** The outcomes of the [try] block for one file. *)
Lemma upload_body_cases (rt : runtime) (file : upload) :
  (exists e, read file = Raise e /\ upload_body rt file = Failed (Core e)) \/
  (exists content,
      read file = Ok content /\
      ((endswith (u ".pdf") (lower (filename file))
        || endswith (u ".txt") (lower (filename file)) = false /\
        upload_body rt file = Done None) \/
       (endswith (u ".pdf") (lower (filename file)) = true /\
        exists e, pdf_text rt content = Raise e /\
                  upload_body rt file
                  = Failed (HTTPException 400
                              (u "Failed to read PDF " ++ filename file ++ u ": "
                               ++ error_text rt (Core e)))) \/
       (endswith (u ".pdf") (lower (filename file))
        || endswith (u ".txt") (lower (filename file)) = true /\
        exists text d,
          file_text rt file content = Done text /\
          parse_resume (rt_nlp rt) (rt_set_iter rt) text = Ok (PDict d) /\
          upload_body rt file
          = Done (Some (PDict (dict_set (u "filename") (PStr (filename file)) d))) /\
          keys (dict_set (u "filename") (PStr (filename file)) d) = STORED_KEYS /\
          searchable (PDict (dict_set (u "filename") (PStr (filename file)) d))))).
Proof.
  unfold upload_body. destruct (read file) as [content|e]; cbn [lift and_so].
  2: { left. exists e. auto. }
  right. exists content. split; [reflexivity|].
  destruct (endswith (u ".pdf") (lower (filename file))
            || endswith (u ".txt") (lower (filename file))) eqn:Ext; cbn [negb].
  2: { left. auto. }
  right.
  assert (Hparse : forall text,
            exists d,
              parse_resume (rt_nlp rt) (rt_set_iter rt) text = Ok (PDict d) /\
              (parsed <~ lift (parse_resume (rt_nlp rt) (rt_set_iter rt) text) ;;
               parsed <~ set_item (u "filename") (PStr (filename file)) parsed ;;
               Done (Some parsed))
              = Done (Some (PDict (dict_set (u "filename")
                                     (PStr (filename file)) d))) /\
              keys (dict_set (u "filename") (PStr (filename file)) d) = STORED_KEYS /\
              searchable (PDict (dict_set (u "filename") (PStr (filename file)) d))).
  { intros text.
    destruct (parse_and_name (rt_nlp rt) (rt_set_iter rt) text (filename file))
      as (d' & E & Hk & _ & Hs).
    destruct (parse_resume (rt_nlp rt) (rt_set_iter rt) text) as [[| | |d]|e];
      cbn [lift and_so set_item] in E; try discriminate E.
    exists d. split; [reflexivity|]. cbn [lift and_so set_item].
    injection E as <-. auto. }
  unfold file_text.
  destruct (endswith (u ".pdf") (lower (filename file))) eqn:Epdf.
  - destruct (pdf_text rt content) as [text|e] eqn:Et; cbn [and_so].
    + right. split; [reflexivity|]. destruct (Hparse text) as (d & Hp & Hb & Hk & Hs).
      exists text, d. auto.
    + left. split; [reflexivity|]. exists e. auto.
  - right. split; [reflexivity|].
    destruct (decode_utf8 rt content) as [text|e]; cbn [and_so].
    + destruct (Hparse text) as (d & Hp & Hb & Hk & Hs). exists text, d. auto.
    + destruct (Hparse (repr_bytes rt content)) as (d & Hp & Hb & Hk & Hs).
      exists (repr_bytes rt content), d. auto.
Qed.

Lemma upload_one_searchable (rt : runtime) (st : list pyval * list pyval)
    (file : upload) :
  Forall searchable (fst st) -> Forall searchable (fst (upload_one rt st file)).
Proof.
  destruct st as [RESUMES results]. cbn [fst]. intros H. unfold upload_one.
  destruct (upload_body_cases rt file)
    as [(e & _ & ->)|(content & _ & [[_ ->]|[(_ & e & _ & ->)|(_ & text & d & _ & _ & -> & _ & Hs)]])];
    cbn [fst]; try exact H.
  apply Forall_app. split; [exact H|]. constructor; [exact Hs | constructor].
Qed.

Lemma upload_resume_searchable (rt : runtime) (RESUMES : list pyval)
    (files : list upload) :
  Forall searchable RESUMES ->
  Forall searchable (fst (upload_resume rt RESUMES files)).
Proof.
  intros H. unfold upload_resume.
  assert (G : forall st, Forall searchable (fst st) ->
                         Forall searchable (fst (fold_left (upload_one rt) files st))).
  { induction files as [|f files IH]; intros st Hst; [exact Hst|].
    cbn [fold_left]. apply IH. apply upload_one_searchable. exact Hst. }
  specialize (G (RESUMES, []) H).
  destruct (fold_left (upload_one rt) files (RESUMES, [])) as [R' results].
  exact G.
Qed.

Lemma store_after_searchable (rt : runtime) (requests : list (list upload)) :
  Forall searchable (store_after rt requests).
Proof.
  unfold store_after.
  assert (G : forall st, Forall searchable st ->
                Forall searchable
                  (fold_left (fun RESUMES files => fst (upload_resume rt RESUMES files))
                     requests st)).
  { induction requests as [|files requests IH]; intros st Hst; [exact Hst|].
    cbn [fold_left]. apply IH. apply upload_resume_searchable. exact Hst. }
  apply G. constructor.
Qed.

Lemma get_resumes_searchable (RESUMES : list pyval) (skill degree : option str) :
  Forall searchable RESUMES ->
  exists results,
    get_resumes RESUMES skill degree = Done (PDict [(u "resumes", PList results)]) /\
    (forall r, In r results <->
               In r RESUMES /\
               (forall s, given skill = Some s -> skill_matches s r = Done true) /\
               (forall g, given degree = Some g -> degree_matches g r = Done true)).
Proof.
  intros H. rewrite Forall_forall in H. unfold get_resumes. cbv zeta.
  assert (H1 : exists res1,
             match given skill with
             | Some s => keep (skill_matches s) RESUMES
             | None => Done RESUMES
             end = Done res1 /\
             forall r, In r res1 <->
                       In r RESUMES /\
                       (forall s, given skill = Some s -> skill_matches s r = Done true)).
  { destruct (given skill) as [s|].
    - destruct (@keep_total _ (skill_matches s) RESUMES) as (res & E & Hres).
      { intros r Hr. destruct (@skill_matches_searchable s r (H r Hr)) as (n & -> & _).
        eauto. }
      exists res. split; [exact E|]. intros r. rewrite Hres. split.
      + intros [Hin Hm]. split; [exact Hin|]. intros s' Hs'. injection Hs' as <-. exact Hm.
      + intros [Hin Hm]. split; [exact Hin | apply Hm; reflexivity].
    - exists RESUMES. split; [reflexivity|]. intros r. split; [|tauto].
      intros Hin. split; [exact Hin|]. discriminate. }
  destruct H1 as (res1 & -> & Hres1). cbn [and_so].
  assert (H2 : exists res2,
             match given degree with
             | Some g => keep (degree_matches g) res1
             | None => Done res1
             end = Done res2 /\
             forall r, In r res2 <->
                       In r res1 /\
                       (forall g, given degree = Some g -> degree_matches g r = Done true)).
  { destruct (given degree) as [g|].
    - destruct (@keep_total _ (degree_matches g) res1) as (res & E & Hres).
      { intros r Hr. apply Hres1 in Hr as [Hr _].
        destruct (@degree_matches_searchable g r (H r Hr)) as (b & -> & _). eauto. }
      exists res. split; [exact E|]. intros r. rewrite Hres. split.
      + intros [Hin Hm]. split; [exact Hin|]. intros g' Hg'. injection Hg' as <-. exact Hm.
      + intros [Hin Hm]. split; [exact Hin | apply Hm; reflexivity].
    - exists res1. split; [reflexivity|]. intros r. split; [|tauto].
      intros Hin. split; [exact Hin|]. discriminate. }
  destruct H2 as (res2 & -> & Hres2). cbn [and_so].
  exists res2. split; [reflexivity|]. intros r. rewrite Hres2, Hres1. tauto.
Qed.

(** X17. After any series of upload requests, from the empty store, a query
    never fails, whatever its parameters: every stored resume has skills and
    education of the types the filters read. The answer holds exactly the
    stored resumes that pass each filter whose parameter is given and not
    empty, and the whole store when there is none. *)
Theorem queries_never_fail_after_uploads :
  forall rt requests skill degree,
    exists results,
      get_resumes (store_after rt requests) skill degree
      = Done (PDict [(u "resumes", PList results)]) /\
      (forall r, In r results <->
                 In r (store_after rt requests) /\
                 (forall s, given skill = Some s -> skill_matches s r = Done true) /\
                 (forall g, given degree = Some g -> degree_matches g r = Done true)) /\
      (given skill = None -> given degree = None ->
       results = store_after rt requests).
Proof.
  intros rt requests skill degree.
  destruct (@get_resumes_searchable (store_after rt requests) skill degree
              (store_after_searchable rt requests)) as (results & E & Hin).
  exists results. split; [exact E|]. split; [exact Hin|].
  intros Hs Hd. unfold get_resumes in E. cbv zeta in E. rewrite Hs in E.
  cbn [and_so] in E. rewrite Hd in E. cbn [and_so] in E.
  injection E as E. symmetry. exact E.
Qed.

(** X18. A stored resume is found by any part of any of its skill names, in
    any letter case: when the query, lower-cased, occurs in a lower-cased
    name of one of the resume's skills lists, the resume is in the answer. *)
Theorem skill_query_finds_resume :
  forall rt requests d sk k l name q,
    In (PDict d) (store_after rt requests) ->
    dict_get (u "skills") d = Some (PDict sk) ->
    In (k, strs l) sk -> In name l ->
    nonempty q = true ->
    contains (lower q) (lower name) = true ->
    exists results,
      get_resumes (store_after rt requests) (Some q) None
      = Done (PDict [(u "resumes", PList results)]) /\
      In (PDict d) results.
Proof.
  intros rt requests d sk k l name q Hin Hsk Hl Hname Hq Hc.
  pose proof (store_after_searchable rt requests) as Hall.
  destruct (@get_resumes_searchable (store_after rt requests) (Some q) None Hall)
    as (results & E & Hres).
  exists results. split; [exact E|]. apply Hres. split; [exact Hin|].
  split; [|discriminate].
  intros s Hs. cbn [given] in Hs. rewrite Hq in Hs. injection Hs as <-.
  rewrite Forall_forall in Hall.
  destruct (@skill_matches_searchable q (PDict d) (Hall _ Hin)) as (names & -> & Hn).
  f_equal. pose proof (Hn d sk k l name eq_refl Hsk Hl Hname) as Hnames.
  destruct (@lower_join_In name names Hnames) as (a & b & ->).
  apply contains_within. exact Hc.
Qed.

(** X19. A stored resume is found by any part of the degree of any of its
    education entries, in any letter case. *)
Theorem degree_query_finds_resume :
  forall rt requests d ed f g q,
    In (PDict d) (store_after rt requests) ->
    dict_get (u "education") d = Some (PList ed) ->
    In (PDict f) ed -> dict_get (u "degree") f = Some (PStr g) ->
    nonempty q = true ->
    contains (lower q) (lower g) = true ->
    exists results,
      get_resumes (store_after rt requests) None (Some q)
      = Done (PDict [(u "resumes", PList results)]) /\
      In (PDict d) results.
Proof.
  intros rt requests d ed f g q Hin Hed Hf Hg Hq Hc.
  pose proof (store_after_searchable rt requests) as Hall.
  destruct (@get_resumes_searchable (store_after rt requests) None (Some q) Hall)
    as (results & E & Hres).
  exists results. split; [exact E|]. apply Hres. split; [exact Hin|].
  split; [discriminate|].
  intros s Hs. cbn [given] in Hs. rewrite Hq in Hs. injection Hs as <-.
  rewrite Forall_forall in Hall.
  destruct (@degree_matches_searchable q (PDict d) (Hall _ Hin)) as (b & -> & Hb).
  f_equal. apply (Hb d ed f g eq_refl Hed Hf Hg Hc).
Qed.

(** ** What an upload does to the store *)

Lemma stored_is_no_error_entry (d : dict) :
  keys d = STORED_KEYS -> is_error_entry (PDict d) = false.
Proof.
  intros Hk. cbn [is_error_entry].
  destruct (dict_has (u "error") d) eqn:E; [|reflexivity].
  apply dict_has_In in E. rewrite Hk in E. unfold STORED_KEYS in E. cbn [In] in E.
  repeat (destruct E as [E|E]; [vm_compute in E; discriminate E|]). destruct E.
Qed.

(** X20. Each file of an upload is dealt with in one of three ways. A file
    that can be read and whose name, lower-cased, ends in neither .pdf nor
    .txt is skipped without a trace. A file that can be read, whose name,
    lower-cased, ends in .pdf or .txt and whose text is obtained is parsed
    and appended to the store and to the results as a dict with the six
    profile keys and its file name: parsing and storing never fail. Otherwise
    an error entry is appended to the results and the store is left alone,
    which happens only when reading the file fails or when a PDF cannot be
    read; the HTTP 400 built for such a PDF does not end the request but
    becomes the text of its error entry. *)
Theorem upload_one_outcomes :
  forall rt RESUMES results file,
    (exists content,
        read file = Ok content /\
        endswith (u ".pdf") (lower (filename file))
        || endswith (u ".txt") (lower (filename file)) = false /\
        upload_one rt (RESUMES, results) file = (RESUMES, results))
    \/
    (exists content text d,
        read file = Ok content /\
        endswith (u ".pdf") (lower (filename file))
        || endswith (u ".txt") (lower (filename file)) = true /\
        file_text rt file content = Done text /\
        parse_resume (rt_nlp rt) (rt_set_iter rt) text = Ok (PDict d) /\
        keys (dict_set (u "filename") (PStr (filename file)) d) = STORED_KEYS /\
        upload_one rt (RESUMES, results) file
        = (RESUMES ++ [PDict (dict_set (u "filename") (PStr (filename file)) d)],
           results ++ [PDict (dict_set (u "filename") (PStr (filename file)) d)]))
    \/
    (exists e,
        upload_one rt (RESUMES, results) file
        = (RESUMES, results ++ [error_entry rt file e]) /\
        ((exists e0, read file = Raise e0 /\ e = Core e0) \/
         (exists content e0,
             read file = Ok content /\
             endswith (u ".pdf") (lower (filename file)) = true /\
             pdf_text rt content = Raise e0 /\
             e = HTTPException 400
                   (u "Failed to read PDF " ++ filename file ++ u ": "
                    ++ error_text rt (Core e0))))).
Proof.
  intros rt RESUMES results file. unfold upload_one.
  destruct (upload_body_cases rt file)
    as [(e & Hr & ->)
       |(content & Hr & [[Hext ->]
                        |[(Hpdf & e & Ht & ->)
                         |(Hext & text & d & Ht & Hp & -> & Hk & _)]])].
  - right. right. exists (Core e). split; [reflexivity|]. left. eauto.
  - left. exists content. auto.
  - right. right. eexists. split; [reflexivity|]. right. exists content, e. auto.
  - right. left. exists content, text, d. auto 10.
Qed.

Lemma error_entry_is_error (fn msg : pyval) :
  is_error_entry (PDict [(u "filename", fn); (u "error", msg)]) = true.
Proof. vm_compute. reflexivity. Qed.

Lemma upload_one_stores_results (rt : runtime) (R0 : list pyval)
    (st : list pyval * list pyval) (file : upload) :
  fst st = R0 ++ filter (fun p => negb (is_error_entry p)) (snd st) ->
  fst (upload_one rt st file)
  = R0 ++ filter (fun p => negb (is_error_entry p)) (snd (upload_one rt st file)).
Proof.
  destruct st as [RESUMES results]. cbn [fst snd]. intros H. unfold upload_one.
  destruct (upload_body_cases rt file)
    as [(e & _ & ->)
       |(content & _ & [[_ ->]
                        |[(_ & e & _ & ->)
                         |(_ & text & d & _ & _ & -> & Hk & _)]])];
    cbn [fst snd]; rewrite ?filter_app; cbn [filter].
  - rewrite error_entry_is_error. cbn [negb]. rewrite app_nil_r. exact H.
  - exact H.
  - rewrite error_entry_is_error. cbn [negb]. rewrite app_nil_r. exact H.
  - rewrite (stored_is_no_error_entry _ Hk). cbn [negb]. rewrite H, app_assoc.
    reflexivity.
Qed.

(** X21. An upload request never removes or changes a stored resume: the
    store afterwards is the store before followed by the entries of the
    response that are not error entries, in their order. The response always
    carries the message Upload complete. *)
Theorem upload_appends_what_it_reports :
  forall rt RESUMES files,
    exists results,
      upload_resume rt RESUMES files
      = (RESUMES ++ filter (fun p => negb (is_error_entry p)) results,
         PDict [(u "message", PStr (u "Upload complete"));
                (u "resumes", PList results)]) /\
      length results <= length files.
Proof.
  intros rt RESUMES files. unfold upload_resume.
  assert (G : forall st,
             fst st = RESUMES ++ filter (fun p => negb (is_error_entry p)) (snd st) ->
             fst (fold_left (upload_one rt) files st)
             = RESUMES ++ filter (fun p => negb (is_error_entry p))
                            (snd (fold_left (upload_one rt) files st)) /\
             length (snd (fold_left (upload_one rt) files st))
             <= length (snd st) + length files).
  { induction files as [|f files IH]; intros st Hst.
    - cbn [fold_left length]. split; [exact Hst | lia].
    - cbn [fold_left length].
      destruct (IH (upload_one rt st f) (upload_one_stores_results rt RESUMES st f Hst))
        as [H1 H2].
      split; [exact H1|].
      assert (Hlen : length (snd (upload_one rt st f)) <= S (length (snd st))).
      { destruct st as [R results]. unfold upload_one.
        destruct (upload_body rt f) as [[p|]|e]; cbn [snd];
          rewrite ?length_app; cbn [length]; lia. }
      lia. }
  destruct (G (RESUMES, [])) as [H1 H2].
  { cbn [fst snd filter]. rewrite app_nil_r. reflexivity. }
  destruct (fold_left (upload_one rt) files (RESUMES, [])) as [R' results].
  cbn [fst snd] in H1, H2. exists results. subst R'. split; [reflexivity | exact H2].
Qed.

(* ================================================================== *)
(** * The keyword scan and the word boundary after C++ *)
(* ================================================================== *)

Lemma search_from_suffix (fl : flags) (r : regex) (rest : str) :
  forall pos prev m,
    search_from fl r pos prev rest = Some m ->
    exists gap rest' pos' prev',
      rest = gap ++ rest' /\ match_here fl r pos' prev' rest' = Some m.
Proof.
  induction rest as [|c rest IH]; intros pos prev m; cbn [search_from].
  - destruct (match_here fl r pos prev []) eqn:E; [|discriminate].
    intros H. injection H as <-. exists [], [], pos, prev. auto.
  - destruct (match_here fl r pos prev (c :: rest)) eqn:E.
    + intros H. injection H as <-. exists [], (c :: rest), pos, prev. auto.
    + intros H. apply IH in H as (gap & rest' & pos' & prev' & -> & H).
      exists (c :: gap), rest', pos', prev'. auto.
Qed.

(** Ignoring case, the letter c is matched by c and C only, and the plus
    sign by itself only. *)
Lemma lit_match_c (x : char) :
  lit_match RE_I 99%N x = true -> x = 99%N \/ x = 67%N.
Proof.
  unfold lit_match, case_variants. cbn [icase RE_I].
  destruct (is_ascii_upper x) eqn:Eu.
  { unfold is_ascii_upper, between in Eu. apply andb_true_iff in Eu as [H1 H2].
    apply N.leb_le in H1, H2. unfold ascii_to_lower, is_ascii_upper, between.
    replace ((65 <=? x)%N && (x <=? 90)%N) with true
      by (symmetry; apply andb_true_iff; split; apply N.leb_le; assumption).
    cbn [existsb]. rewrite orb_false_r. intros H.
    apply orb_true_iff in H as [H|H]; apply N.eqb_eq in H; lia. }
  destruct (is_ascii_lower x) eqn:El.
  { unfold is_ascii_lower, between in El. apply andb_true_iff in El as [H1 H2].
    apply N.leb_le in H1, H2. unfold ascii_to_upper, is_ascii_lower, between.
    replace ((97 <=? x)%N && (x <=? 122)%N) with true
      by (symmetry; apply andb_true_iff; split; apply N.leb_le; assumption).
    cbn [existsb]. rewrite orb_false_r. intros H.
    apply orb_true_iff in H as [H|H]; apply N.eqb_eq in H; lia. }
  destruct ((x =? 304) || (x =? 305))%N eqn:E1.
  { cbn [existsb]. rewrite orb_false_r. intros H.
    apply orb_true_iff in E1 as [E|E]; apply N.eqb_eq in E; subst x;
      vm_compute in H; discriminate H. }
  destruct (x =? 383)%N eqn:E2.
  { apply N.eqb_eq in E2. subst x. intros H. vm_compute in H. discriminate H. }
  destruct (x =? 8490)%N eqn:E3.
  { apply N.eqb_eq in E3. subst x. intros H. vm_compute in H. discriminate H. }
  cbn [existsb]. rewrite orb_false_r. intros H. apply N.eqb_eq in H. left. lia.
Qed.

Lemma lit_match_plus (x : char) : lit_match RE_I 43%N x = true -> x = 43%N.
Proof.
  unfold lit_match, case_variants. cbn [icase RE_I].
  destruct (is_ascii_upper x) eqn:Eu.
  { unfold is_ascii_upper, between in Eu. apply andb_true_iff in Eu as [H1 H2].
    apply N.leb_le in H1, H2. unfold ascii_to_lower, is_ascii_upper, between.
    replace ((65 <=? x)%N && (x <=? 90)%N) with true
      by (symmetry; apply andb_true_iff; split; apply N.leb_le; assumption).
    cbn [existsb]. rewrite orb_false_r. intros H.
    apply orb_true_iff in H as [H|H]; apply N.eqb_eq in H; lia. }
  destruct (is_ascii_lower x) eqn:El.
  { unfold is_ascii_lower, between in El. apply andb_true_iff in El as [H1 H2].
    apply N.leb_le in H1, H2. unfold ascii_to_upper, is_ascii_lower, between.
    replace ((97 <=? x)%N && (x <=? 122)%N) with true
      by (symmetry; apply andb_true_iff; split; apply N.leb_le; assumption).
    cbn [existsb]. rewrite orb_false_r. intros H.
    apply orb_true_iff in H as [H|H]; apply N.eqb_eq in H; lia. }
  destruct ((x =? 304) || (x =? 305))%N eqn:E1.
  { cbn [existsb]. rewrite orb_false_r. intros H.
    apply orb_true_iff in E1 as [E|E]; apply N.eqb_eq in E; subst x;
      vm_compute in H; discriminate H. }
  destruct (x =? 383)%N eqn:E2.
  { apply N.eqb_eq in E2. subst x. intros H. vm_compute in H. discriminate H. }
  destruct (x =? 8490)%N eqn:E3.
  { apply N.eqb_eq in E3. subst x. intros H. vm_compute in H. discriminate H. }
  cbn [existsb]. rewrite orb_false_r. intros H. apply N.eqb_eq in H. lia.
Qed.

(** A match of the pattern of the keyword c++ is followed by a word
    character: the boundary after a plus sign needs one. *)
Lemma cpp_match_here (pos : nat) (prev : option char) (rest : str) (m : rmatched) :
  match_here RE_I (keyword_re (u "c++")) pos prev rest = Some m ->
  exists w c rest',
    rest = w ++ c :: rest' /\ lower w = u "c++" /\ is_word c = true.
Proof.
  unfold match_here.
  change (keyword_re (u "c++"))
    with (Cat WordB (Cat (Cat (Lit 99%N) (Cat (Lit 43%N) (Lit 43%N))) WordB)).
  cbn [rmatch m_rest m_prev].
  destruct (xorb (word_opt prev) (word_opt (hd_error rest))); [|discriminate].
  destruct rest as [|x1 rest]; [discriminate|].
  destruct (lit_match RE_I 99%N x1) eqn:E1; [|discriminate].
  cbn [eat m_rest m_prev].
  destruct rest as [|x2 rest]; [discriminate|].
  destruct (lit_match RE_I 43%N x2) eqn:E2; [|discriminate].
  cbn [eat m_rest m_prev].
  destruct rest as [|x3 rest]; [discriminate|].
  destruct (lit_match RE_I 43%N x3) eqn:E3; [|discriminate].
  cbn [eat m_rest m_prev].
  apply lit_match_plus in E2, E3. subst x2 x3.
  change (word_opt (Some 43%N)) with false. cbn [xorb].
  destruct rest as [|c rest]; cbn [hd_error word_opt]; [discriminate|].
  destruct (is_word c) eqn:Ec; [|discriminate].
  intros _. exists [x1; 43%N; 43%N], c, rest. split; [reflexivity|].
  split; [|exact Ec].
  apply lit_match_c in E1 as [->| ->]; vm_compute; reflexivity.
Qed.

Lemma matched_keywords_eq (text : str) :
  matched_keywords text
  = filter (fun kw => re_found RE_I (keyword_re kw) (lower text)) (map u SKILL_KEYWORDS).
Proof. reflexivity. Qed.

(** The one keyword whose title-cased form is C++. *)
Lemma cpp_is_the_keyword (kw : str) :
  In kw (map u SKILL_KEYWORDS) -> title kw = u "C++" -> kw = u "c++".
Proof.
  assert (H : forallb (fun kw => implb (str_eqb (title kw) (u "C++"))
                                       (str_eqb kw (u "c++")))
                      (map u SKILL_KEYWORDS) = true)
    by (vm_compute; reflexivity).
  rewrite forallb_forall in H. intros Hin Ht. specialize (H kw Hin).
  rewrite Ht, str_eqb_refl in H. cbn [implb] in H. apply str_eqb_eq. exact H.
Qed.

(** X22. The keyword scan finds C++ only where the lower-cased text has c++
    directly followed by a word character (a letter or digit of any script,
    or an underscore), as in c++11: the pattern ends in a word boundary, and
    after a plus sign there is one only before a word character. C++ at the
    end of the text or before a space, comma or line break is not found by
    the scan. *)
Theorem cpp_keyword_needs_word_character_after :
  forall text,
    In (u "C++") (keywords_found text) ->
    exists before w c after,
      lower text = before ++ w ++ c :: after /\
      lower w = u "c++" /\ is_word c = true.
Proof.
  intros text H. destruct (keywords_found_spec text) as [_ Hin].
  apply (proj1 (Hin (u "C++"))) in H. apply in_map_iff in H as (kw & Ht & Hkw).
  rewrite matched_keywords_eq in Hkw. apply filter_In in Hkw as [Hkw Hfound].
  assert (Ekw : kw = u "c++") by (apply (@cpp_is_the_keyword kw Hkw Ht)).
  subst kw. unfold re_found in Hfound.
  destruct (re_search RE_I (keyword_re (u "c++")) (lower text)) as [m|] eqn:E;
    [|discriminate].
  unfold re_search in E.
  apply search_from_suffix in E as (gap & rest & pos & prev & Hs & Hm).
  apply cpp_match_here in Hm as (w & c & rest' & -> & Hw & Hc).
  exists gap, w, c, rest'. auto.
Qed.


End Unicode.

Lemma skills_ascending_tech_first_seen_witness :
  (forall l : list str, Permutation (id l) l) /\
  (forall sk k v,
      extract_skills UNICODE_EXCERPT id CATEGORY_TEXT = Ok sk -> In (k, v) sk ->
      exists raw l, skill_names UNICODE_EXCERPT CATEGORY_TEXT k raw /\ v = strs l
                    /\ titled_ascending UNICODE_EXCERPT raw l)
  /\
  (forall pr e,
      extract_projects UNICODE_EXCERPT CATEGORY_TEXT = Ok pr -> In e pr ->
      exists chunk d l,
        In chunk (project_chunks UNICODE_EXCERPT CATEGORY_TEXT) /\ e = PDict d /\
        dict_get (u "tech") d = Some (strs l) /\
        titled_first_seen UNICODE_EXCERPT (re_findall1 UNICODE_EXCERPT RE_I TECH_RE chunk) l).
Proof.
  split; [intros l; apply Permutation_refl|].
  apply (@skills_ascending_tech_first_seen UNICODE_EXCERPT id CATEGORY_TEXT).
  intros l. apply Permutation_refl.
Defined.

(** A category line whose values are not in ascending order: the list comes
    back sorted, not in the order the names were seen. *)
Lemma skills_sorted_not_first_seen :
  (forall U, skill_items U (u " Python, Java") = [u "Python"; u "Java"]) /\
  (forall U, fromkeys (map (title U) [u "Python"; u "Java"])
             = [u "Python"; u "Java"]) /\
  (forall U, extract_skills U (fun l => l) (u "Skills: Python, Java")
             = Ok [(u "Skills", strs [u "Java"; u "Python"])]) /\
  (forall U, [u "Java"; u "Python"]
             <> fromkeys (map (title U) [u "Python"; u "Java"])).
Proof.
  repeat split; intros U; try (vm_compute; reflexivity).
  vm_compute. discriminate.
Qed.

Lemma certifications_empty_without_header_witness :
  re_found UNICODE_EXCERPT RE_S_I (words CERT_HEADERS) NO_CERT_HEADER_TEXT = false /\
  certification_block UNICODE_EXCERPT NO_CERT_HEADER_TEXT = [] /\
  extract_certifications UNICODE_EXCERPT NO_CERT_HEADER_TEXT = Ok [].
Proof.
  split; [vm_compute; reflexivity|].
  apply (@certifications_empty_without_header UNICODE_EXCERPT NO_CERT_HEADER_TEXT).
  vm_compute. reflexivity.
Defined.

(** A text without a certifications header: scanning the whole text as the
    block would keep its line, but the extractor returns nothing. *)
Lemma certifications_no_whole_text_fallback :
  (forall U, re_found U RE_S_I (words CERT_HEADERS) NO_CERT_HEADER_TEXT = false) /\
  (forall U, collect (splitlines NO_CERT_HEADER_TEXT) (cert_entry U) []
             = ([PStr (u "AWS Solutions Architect")], None)) /\
  (forall U, extract_certifications U NO_CERT_HEADER_TEXT = Ok []) /\
  (forall U, extract_certifications U NO_CERT_HEADER_TEXT
             <> returning (collect (splitlines NO_CERT_HEADER_TEXT)
                             (cert_entry U) [])).
Proof.
  repeat split; intros U; try (vm_compute; reflexivity).
  vm_compute. discriminate.
Qed.

Lemma extract_education_degree_without_header_witness :
  re_found UNICODE_EXCERPT RE_S_I (words EDU_HEADERS) NO_EDU_HEADER_TEXT = false /\
  (exists line, In line (stripped_lines NO_EDU_HEADER_TEXT)
                /\ re_found UNICODE_EXCERPT RE_I DEGREE_RE line = true) /\
  exists ed,
    extract_education UNICODE_EXCERPT NO_EDU_HEADER_TEXT = Ok ed /\ ed <> [] /\
    education_lines UNICODE_EXCERPT NO_EDU_HEADER_TEXT = stripped_lines NO_EDU_HEADER_TEXT /\
    (fst (education_main UNICODE_EXCERPT NO_EDU_HEADER_TEXT) = [] ->
     forall e, In e ed ->
               exists d line,
                 e = PDict d /\ In line (stripped_lines NO_EDU_HEADER_TEXT) /\
                 re_found UNICODE_EXCERPT RE_I DEGREE_RE line = true /\
                 dict_get (u "degree") d = Some (PStr line)).
Proof.
  assert (H1 : re_found UNICODE_EXCERPT RE_S_I (words EDU_HEADERS) NO_EDU_HEADER_TEXT = false)
    by (vm_compute; reflexivity).
  assert (H2 : exists line, In line (stripped_lines NO_EDU_HEADER_TEXT)
                            /\ re_found UNICODE_EXCERPT RE_I DEGREE_RE line = true).
  { exists (u "- Bachelor of Science"). split; vm_compute; auto. }
  split; [exact H1|]. split; [exact H2|].
  apply (@extract_education_degree_without_header UNICODE_EXCERPT NO_EDU_HEADER_TEXT H1 H2).
Defined.

Lemma extract_education_cgpa_line_witness :
  In CGPA_LINE (education_lines UNICODE_EXCERPT CGPA_TEXT) /\
  exists ed d,
    extract_education UNICODE_EXCERPT CGPA_TEXT = Ok ed /\ In (PDict d) ed /\
    dict_get (u "degree") d = Some (PStr (u "B.Tech")) /\
    dict_get (u "field") d = Some (PStr (u "Computer Science")) /\
    dict_get (u "cgpa") d = Some (PStr (u "8.5/10")) /\
    dict_get (u "extra") d = Some (PStr (u "")).
Proof.
  assert (H : In CGPA_LINE (education_lines UNICODE_EXCERPT CGPA_TEXT)).
  { vm_compute. right. left. reflexivity. }
  split; [exact H|]. apply (@extract_education_cgpa_line UNICODE_EXCERPT CGPA_TEXT H).
Defined.

Lemma parse_resume_deterministic_witness :
  (forall l : list str, Permutation (id l) l) /\
  (forall l : list str, Permutation (rev l) l) /\
  parse_resume UNICODE_EXCERPT NO_ENTITIES id KEYWORDS_TEXT
  = parse_resume UNICODE_EXCERPT NO_ENTITIES (@rev str) KEYWORDS_TEXT.
Proof.
  split; [intros l; apply Permutation_refl|].
  split; [intros l; apply Permutation_sym, Permutation_rev|].
  apply (@parse_resume_deterministic UNICODE_EXCERPT NO_ENTITIES id (@rev str) KEYWORDS_TEXT).
  - intros l. apply Permutation_refl.
  - intros l. apply Permutation_sym, Permutation_rev.
Defined.

Lemma extract_experience_nonempty_witness :
  (exists l, In l (splitlines TWO_CHUNK_TEXT) /\ nonempty (strip l) = true) /\
  exists ex,
    extract_experience UNICODE_EXCERPT TWO_CHUNK_TEXT = Ok ex /\ ex <> [] /\
    length ex
    = length (filter (fun c => nonempty (chunk_lines EXP_MARKERS c))
                     (experience_chunks UNICODE_EXCERPT TWO_CHUNK_TEXT)) /\
    (re_found UNICODE_EXCERPT RE_S_I (words EXP_HEADERS) TWO_CHUNK_TEXT = false ->
     exists d chunk first,
       hd_error ex = Some (PDict d) /\
       hd_error (filter (fun c => nonempty (chunk_lines EXP_MARKERS c))
                        (experience_chunks UNICODE_EXCERPT TWO_CHUNK_TEXT))
       = Some chunk /\
       hd_error (chunk_lines EXP_MARKERS chunk) = Some first /\
       hd_error (chunk_lines EXP_MARKERS TWO_CHUNK_TEXT) = Some first /\
       dict_get (u "role") d
       = Some (PStr (match re_search UNICODE_EXCERPT NOFLAGS AT_RE chunk with
                     | Some _ => first
                     | None =>
                         if mem (ch "-") first || mem (ch "|") first
                         then strip (hd [] (re_split UNICODE_EXCERPT NOFLAGS
                                              ROLE_SPLIT_RE first))
                         else first
                     end))).
Proof.
  assert (H : exists l, In l (splitlines TWO_CHUNK_TEXT)
                        /\ nonempty (strip l) = true).
  { exists (u "Backend Developer - Initech"). split; vm_compute; auto. }
  split; [exact H|]. apply (@extract_experience_nonempty UNICODE_EXCERPT TWO_CHUNK_TEXT H).
Defined.

(** A text without an experience section whose first line holds a hyphen:
    the role of the entry is the text before the hyphen, not the line. *)
Lemma experience_role_not_first_line :
  (forall U, re_found U RE_S_I (words EXP_HEADERS) DASH_ROLE_TEXT = false) /\
  hd_error (chunk_lines EXP_MARKERS DASH_ROLE_TEXT) = Some DASH_ROLE_TEXT /\
  (forall U, extract_experience U DASH_ROLE_TEXT =
             Ok [PDict [(u "role", PStr (u "Backend Developer"));
                        (u "company", PStr (u "Initech"));
                        (u "start_date", PNone);
                        (u "end_date", PNone);
                        (u "location", PNone);
                        (u "responsibilities", strs [u "Initech"])]]) /\
  u "Backend Developer" <> DASH_ROLE_TEXT.
Proof.
  repeat split; try intros U; try (vm_compute; reflexivity).
  vm_compute. discriminate.
Qed.

Lemma name_is_short_capitalized_first_line_witness :
  stripped_lines NAME_TEXT
  = [u "Jane Doe"; u "Reach me: jane.doe@mail.example.org"] /\
  first_person_name UNICODE_EXCERPT FAILING_NLP NAME_TEXT = Ok (PStr (u "Jane Doe")) /\
  exists d, extract_personal_info UNICODE_EXCERPT FAILING_NLP NAME_TEXT = Ok d /\
            dict_get (u "name") d = Some (PStr (u "Jane Doe")).
Proof.
  split; [vm_compute; reflexivity|].
  apply (@name_is_short_capitalized_first_line UNICODE_EXCERPT FAILING_NLP NAME_TEXT
           (u "Jane Doe") [u "Reach me: jane.doe@mail.example.org"]
           (ch "J") (u "ane Doe")).
  - vm_compute. reflexivity.
  - vm_compute. lia.
  - vm_compute. reflexivity.
  - vm_compute. reflexivity.
Defined.

Lemma personal_info_lost_when_recogniser_fails_witness :
  re_found UNICODE_EXCERPT NOFLAGS EMAIL_RE LOWER_FIRST_TEXT = true /\
  extract_personal_info UNICODE_EXCERPT FAILING_NLP LOWER_FIRST_TEXT
  = Ok [(u "name", PNone); (u "email", PNone); (u "phone", PNone)].
Proof.
  split; [vm_compute; reflexivity|].
  apply (@personal_info_lost_when_recogniser_fails UNICODE_EXCERPT FAILING_NLP LOWER_FIRST_TEXT
           LOWER_FIRST_TEXT [] RuntimeError).
  - vm_compute. reflexivity.
  - right. exists (ch "c"), (u "ontact: jane.doe@mail.example.org").
    split; vm_compute; reflexivity.
  - reflexivity.
Defined.

Lemma reported_email_is_an_address_of_the_text_witness :
  extract_personal_info UNICODE_EXCERPT FAILING_NLP NAME_TEXT
  = Ok [(u "name", PStr (u "Jane Doe"));
        (u "email", PStr (u "jane.doe@mail.example.org"));
        (u "phone", PNone)] /\
  (exists before after,
      NAME_TEXT = before ++ u "jane.doe@mail.example.org" ++ after) /\
  email_form (u "jane.doe@mail.example.org").
Proof.
  assert (H : extract_personal_info UNICODE_EXCERPT FAILING_NLP NAME_TEXT
              = Ok [(u "name", PStr (u "Jane Doe"));
                    (u "email", PStr (u "jane.doe@mail.example.org"));
                    (u "phone", PNone)]) by (vm_compute; reflexivity).
  split; [exact H|].
  apply (@reported_email_is_an_address_of_the_text UNICODE_EXCERPT FAILING_NLP NAME_TEXT _
           (u "jane.doe@mail.example.org") H).
  vm_compute. reflexivity.
Defined.

Lemma no_at_sign_no_email_witness :
  ~ In (ch "@") (u "Jane Doe\n+1 555 010 9999") /\
  exists d, extract_personal_info UNICODE_EXCERPT FAILING_NLP
              (u "Jane Doe\n+1 555 010 9999") = Ok d /\
            dict_get (u "email") d = Some PNone.
Proof.
  assert (H : ~ In (ch "@") (u "Jane Doe\n+1 555 010 9999")).
  { vm_compute. intuition discriminate. }
  split; [exact H|].
  eexists. split; [vm_compute; reflexivity|].
  apply (@no_at_sign_no_email UNICODE_EXCERPT FAILING_NLP (u "Jane Doe\n+1 555 010 9999") _ H).
  vm_compute. reflexivity.
Defined.

Lemma education_empty_without_degree_keyword_witness :
  extract_education UNICODE_EXCERPT NO_DEGREE_TEXT = Ok [].
Proof.
  apply (@education_empty_without_degree_keyword UNICODE_EXCERPT NO_DEGREE_TEXT).
  - intros l Hl. vm_compute in Hl.
    repeat (destruct Hl as [<-|Hl]; [vm_compute; reflexivity|]). destruct Hl.
  - intros l Hl. vm_compute in Hl.
    repeat (destruct Hl as [<-|Hl]; [vm_compute; reflexivity|]). destruct Hl.
Defined.

Lemma education_nonempty_with_degree_keyword_witness :
  exists ed, extract_education UNICODE_EXCERPT DEGREE_UNDER_SKILLS_TEXT = Ok ed /\ ed <> [].
Proof.
  apply (@education_nonempty_with_degree_keyword UNICODE_EXCERPT DEGREE_UNDER_SKILLS_TEXT
           (u "Master of none")).
  - vm_compute. right. right. right. left. reflexivity.
  - vm_compute. reflexivity.
Defined.

Lemma education_block_entry_provenance_witness :
  exists ed,
    extract_education UNICODE_EXCERPT TWO_COLLEGES_TEXT = Ok ed /\
    forall e, In e ed ->
      exists i line d,
        nth_error (education_lines UNICODE_EXCERPT TWO_COLLEGES_TEXT) i = Some line /\
        re_found UNICODE_EXCERPT RE_I DEGREE_RE line = true /\
        e = PDict d /\ from_degree_line UNICODE_EXCERPT line d /\
        dict_get (u "institution") d
        = option_map PStr
            (find (names_institution UNICODE_EXCERPT)
               (next_lines i (education_lines UNICODE_EXCERPT TWO_COLLEGES_TEXT))).
Proof.
  apply (@education_block_entry_provenance UNICODE_EXCERPT TWO_COLLEGES_TEXT).
  vm_compute. discriminate.
Defined.

Lemma education_fallback_entry_provenance_witness :
  exists ed,
    extract_education UNICODE_EXCERPT FALLBACK_TWO_COLLEGES_TEXT = Ok ed /\
    length ed = length (filter (re_found UNICODE_EXCERPT RE_I DEGREE_RE)
                          (stripped_lines FALLBACK_TWO_COLLEGES_TEXT)) /\
    forall e, In e ed ->
      exists i line d,
        nth_error (stripped_lines FALLBACK_TWO_COLLEGES_TEXT) i = Some line /\
        re_found UNICODE_EXCERPT RE_I DEGREE_RE line = true /\
        e = PDict d /\ dict_get (u "degree") d = Some (PStr line) /\
        dict_get (u "institution") d
        = option_map PStr
            (find (names_institution UNICODE_EXCERPT)
               (rev (next_lines i (stripped_lines FALLBACK_TWO_COLLEGES_TEXT)))).
Proof.
  apply (@education_fallback_entry_provenance UNICODE_EXCERPT FALLBACK_TWO_COLLEGES_TEXT).
  vm_compute. reflexivity.
Defined.

Lemma extract_projects_nonempty_witness :
  exists pr,
    extract_projects UNICODE_EXCERPT NO_PROJECTS_TEXT = Ok pr /\ pr <> [] /\
    length pr
    = length (filter (fun c => nonempty (chunk_lines PROJ_MARKERS c))
                     (project_chunks UNICODE_EXCERPT NO_PROJECTS_TEXT)) /\
    exists d first,
      hd_error pr = Some (PDict d) /\
      hd_error (chunk_lines PROJ_MARKERS
                  (block_or UNICODE_EXCERPT NO_PROJECTS_TEXT PROJ_SECTION_RE NO_PROJECTS_TEXT))
      = Some first /\
      dict_get (u "title") d = Some (PStr first).
Proof.
  apply (@extract_projects_nonempty UNICODE_EXCERPT NO_PROJECTS_TEXT).
  exists (u "Jane Doe"). split; [vm_compute; left; reflexivity | reflexivity].
Defined.

Lemma skills_are_named_lists_witness :
  (forall l : list str, Permutation (id l) l) /\
  exists sk,
    extract_skills UNICODE_EXCERPT id TWO_CATEGORIES_TEXT = Ok sk /\
    NoDup (keys sk) /\
    forall k v, In (k, v) sk -> skill_category k v.
Proof.
  split; [intros l; apply Permutation_refl|].
  apply (@skills_are_named_lists UNICODE_EXCERPT id TWO_CATEGORIES_TEXT).
  intros l. apply Permutation_refl.
Defined.

Lemma skills_category_last_line_wins_witness :
  exists sk,
    extract_skills UNICODE_EXCERPT id TWO_CATEGORIES_TEXT = Ok sk /\
    dict_get (u "Languages") sk = Some (strs [u "Sql"]) /\
    sk = fst (collect_items
                (splitlines (block_or UNICODE_EXCERPT TWO_CATEGORIES_TEXT SKILLS_SECTION_RE
                               TWO_CATEGORIES_TEXT))
                (skill_line UNICODE_EXCERPT) []).
Proof.
  apply (@skills_category_last_line_wins UNICODE_EXCERPT id TWO_CATEGORIES_TEXT
           [u "Languages: python, Java, PYTHON"; u "Tools: git / docker"]
           (u "Languages: SQL") []).
  - vm_compute. reflexivity.
  - vm_compute. reflexivity.
  - intros l v' [].
Defined.

Lemma skill_query_finds_resume_witness :
  exists results,
    get_resumes UNICODE_EXCERPT
      (store_after UNICODE_EXCERPT SAMPLE_RUNTIME [[SAMPLE_FILE]])
      (Some (u "PYTH")) None
    = Done (PDict [(u "resumes", PList results)]) /\
    In (PDict (SAMPLE_RESUME UNICODE_EXCERPT)) results.
Proof.
  apply (@skill_query_finds_resume UNICODE_EXCERPT SAMPLE_RUNTIME
           [[SAMPLE_FILE]] (SAMPLE_RESUME UNICODE_EXCERPT)
           [(u "Skills", strs [u "Java"; u "Python"])] (u "Skills")
           [u "Java"; u "Python"] (u "Python") (u "PYTH")).
  - vm_compute. left. reflexivity.
  - vm_compute. reflexivity.
  - left. reflexivity.
  - right. left. reflexivity.
  - reflexivity.
  - vm_compute. reflexivity.
Defined.

Lemma degree_query_finds_resume_witness :
  exists results,
    get_resumes UNICODE_EXCERPT
      (store_after UNICODE_EXCERPT SAMPLE_RUNTIME [[SAMPLE_FILE]])
      None (Some (u "TECH"))
    = Done (PDict [(u "resumes", PList results)]) /\
    In (PDict (SAMPLE_RESUME UNICODE_EXCERPT)) results.
Proof.
  apply (@degree_query_finds_resume UNICODE_EXCERPT SAMPLE_RUNTIME
           [[SAMPLE_FILE]] (SAMPLE_RESUME UNICODE_EXCERPT)
           [PDict [(u "degree", PStr (u "B.Tech"));
                   (u "field", PStr (u "Computer Science"));
                   (u "institution", PStr (u "First College"))]]
           [(u "degree", PStr (u "B.Tech"));
            (u "field", PStr (u "Computer Science"));
            (u "institution", PStr (u "First College"))]
           (u "B.Tech") (u "TECH")).
  - vm_compute. left. reflexivity.
  - vm_compute. reflexivity.
  - left. reflexivity.
  - vm_compute. reflexivity.
  - reflexivity.
  - vm_compute. reflexivity.
Defined.

Lemma cpp_keyword_needs_word_character_after_witness :
  exists before w c after,
    lower UNICODE_EXCERPT CPP_TEXT = before ++ w ++ c :: after /\
    lower UNICODE_EXCERPT w = u "c++" /\ is_word UNICODE_EXCERPT c = true.
Proof.
  apply (@cpp_keyword_needs_word_character_after UNICODE_EXCERPT CPP_TEXT).
  vm_compute. right. left. reflexivity.
Defined.

(* ================================================================== *)
(** * Examples beyond ASCII *)
(* ================================================================== *)

(** A first line that starts with an accented capital is the name. *)
Example name_with_accented_capital :
  first_person_name UNICODE_EXCERPT FAILING_NLP (u "Émile Zola\nParis")
  = Ok (PStr (u "Émile Zola")).
Proof. vm_compute. reflexivity. Qed.

(** An accented letter has case: the letter after it is not capitalized. *)
Example title_keeps_word_after_accent :
  title UNICODE_EXCERPT (u "naïve bayes") = u "Naïve Bayes".
Proof. vm_compute. reflexivity. Qed.

(** An ideograph is a word character: there is a word boundary between a
    plus sign and it, and none between it and a letter. *)
Example cpp_found_before_ideograph :
  keywords_found UNICODE_EXCERPT (u "C++开发") = [u "C++"; u "C"].
Proof. vm_compute. reflexivity. Qed.

Example gpa_not_found_after_ideograph :
  re_search UNICODE_EXCERPT RE_I CGPA_RE (u "绩点GPA 3.8") = None.
Proof. vm_compute. reflexivity. Qed.

(** Fullwidth digits are digits. *)
Example fullwidth_year_is_a_date :
  re_findall1 UNICODE_EXCERPT RE_I DATE_RE (u "MBA ２０２０ 2021")
  = [u "２０２０"; u "2021"].
Proof. vm_compute. reflexivity. Qed.
